(** * catlin: step validation and script linting

    A shallow embedding of the two validators of the catalog linter:

    - [validator.taskValidator] (pkg/validator/task_validator.go), the
      semantic rules applied to every step of a Task;
    - [linter.taskLinter] (pkg/linter), which selects external linters from
      the shebang line of a step script and runs them on a temporary file.

    Go strings are byte sequences and are modelled by [string]; a Go
    function that can panic returns an [Outcome]; a Go [(value, error)] pair
    is a [GoResult].  The operating system, the image-reference library and
    [strconv.Quote] are parameters of the model. *)

From Stdlib Require Import String Ascii List Bool Arith PeanoNat Lia.
Import ListNotations.
Open Scope list_scope.
Open Scope string_scope.
Open Scope nat_scope.

Set Implicit Arguments.

(** ** Go runtime conventions *)

(** A call either returns normally or panics. *)
Inductive Outcome (A : Type) : Type :=
| Returned (a : A)
| Panicked (msg : string).
Arguments Returned {A} a.
Arguments Panicked {A} msg.

(** A Go [(value, error)] pair; the error is kept as its message. *)
Inductive GoResult (A : Type) : Type :=
| Ok (a : A)
| Err (e : string).
Arguments Ok {A} a.
Arguments Err {A} e.

Definition nl : ascii := ascii_of_nat 10.
Definition NL : string := String nl "".

(** [s[0:n]]: panics (here [None]) when [n] exceeds the length of [s]. *)
Fixpoint slice0 (s : string) (n : nat) : option string :=
  match n with
  | 0 => Some ""
  | S n' =>
      match s with
      | EmptyString => None
      | String c s' =>
          match slice0 s' n' with
          | Some p => Some (String c p)
          | None => None
          end
      end
  end.

Fixpoint drop (n : nat) (s : string) : string :=
  match n with
  | 0 => s
  | S n' => match s with EmptyString => "" | String _ s' => drop n' s' end
  end.

Fixpoint take (n : nat) (s : string) : string :=
  match n with
  | 0 => ""
  | S n' => match s with EmptyString => "" | String c s' => String c (take n' s') end
  end.

(** ** Package utf8: the width of the rune that starts a byte string *)

Module utf8.

Definition byte (c : ascii) : nat := nat_of_ascii c.

Definition between (lo hi : nat) (c : ascii) : bool :=
  (lo <=? byte c) && (byte c <=? hi).

Definition cont (c : ascii) : bool := between 128 191 c.

(** Number of bytes [utf8.DecodeRuneInString] consumes: the length of a
    well-formed encoding, and 1 for a byte that does not start one. *)
Definition runeWidth (s : string) : nat :=
  match s with
  | EmptyString => 0
  | String b0 t =>
      if byte b0 <? 128 then 1
      else if between 194 223 b0 then
        match t with
        | String b1 _ => if cont b1 then 2 else 1
        | _ => 1
        end
      else if between 224 239 b0 then
        match t with
        | String b1 (String b2 _) =>
            let lo := if byte b0 =? 224 then 160 else 128 in
            let hi := if byte b0 =? 237 then 159 else 191 in
            if between lo hi b1 && cont b2 then 3 else 1
        | _ => 1
        end
      else if between 240 244 b0 then
        match t with
        | String b1 (String b2 (String b3 _)) =>
            let lo := if byte b0 =? 240 then 144 else 128 in
            let hi := if byte b0 =? 244 then 143 else 191 in
            if between lo hi b1 && cont b2 && cont b3 then 4 else 1
        | _ => 1
        end
      else 1
  end.

End utf8.

(** ** Package strings *)

Module strings.

Definition HasPrefix (s pre : string) : bool := String.prefix pre s.

Fixpoint Contains (s sub : string) : bool :=
  String.prefix sub s ||
  match s with
  | EmptyString => false
  | String _ s' => Contains s' sub
  end.

Definition HasSuffix (s suf : string) : bool :=
  (String.length suf <=? String.length s) &&
  String.eqb (drop (String.length s - String.length suf) s) suf.

(** [Split] for a non-empty separator: [skip] counts the bytes of a
    separator occurrence still to be stepped over, [cur] is the piece being
    collected. *)
Fixpoint split_go (sep : string) (skip : nat) (cur s : string) : list string :=
  match skip with
  | S k =>
      match s with
      | EmptyString => [cur]
      | String _ s' => split_go sep k cur s'
      end
  | 0 =>
      match s with
      | EmptyString => [cur]
      | String c s' =>
          if String.prefix sep s
          then cur :: split_go sep (String.length sep - 1) "" s'
          else split_go sep 0 (cur ++ String c "") s'
      end
  end.

(** With an empty separator Go splits after every rune. *)
Fixpoint explode (skip : nat) (cur s : string) : list string :=
  match s with
  | EmptyString => match cur with EmptyString => [] | _ => [cur] end
  | String c s' =>
      match skip with
      | S k => explode k (cur ++ String c "") s'
      | 0 =>
          match cur with
          | EmptyString => explode (utf8.runeWidth s - 1) (String c "") s'
          | _ => cur :: explode (utf8.runeWidth s - 1) (String c "") s'
          end
      end
  end.

Definition Split (s sep : string) : list string :=
  match sep with
  | EmptyString => explode 0 "" s
  | _ => split_go sep 0 "" s
  end.

Definition lowerByte (c : ascii) : ascii :=
  if utf8.between 65 90 c then ascii_of_nat (nat_of_ascii c + 32) else c.

(** [ToLower] and [EqualFold] on ASCII text.  Go also folds letters outside
    ASCII; on strings of ASCII bytes the two agree with these. *)
Fixpoint ToLower (s : string) : string :=
  match s with
  | EmptyString => ""
  | String c s' => String (lowerByte c) (ToLower s')
  end.

Definition EqualFold (s t : string) : bool := String.eqb (ToLower s) (ToLower t).

(** [ReplaceAll s old new]: occurrences of [old] are replaced left to right
    without overlap; an empty [old] matches before every rune and at the
    end of [s]. *)
Fixpoint replace_go (old new : string) (skip : nat) (s : string) : string :=
  match skip with
  | S k =>
      match s with
      | EmptyString => ""
      | String _ s' => replace_go old new k s'
      end
  | 0 =>
      match s with
      | EmptyString => ""
      | String c s' =>
          if String.prefix old s
          then new ++ replace_go old new (String.length old - 1) s'
          else String c (replace_go old new 0 s')
      end
  end.

Definition ReplaceAll (s old new : string) : string :=
  match old with
  | EmptyString =>
      new ++ fold_right (fun r acc => r ++ new ++ acc) "" (explode 0 "" s)
  | _ => replace_go old new 0 s
  end.

Fixpoint Join (elems : list string) (sep : string) : string :=
  match elems with
  | [] => ""
  | [e] => e
  | e :: rest => e ++ sep ++ Join rest sep
  end.

End strings.

(** ** Package fmt: [Sprintf] with the verbs the validators use *)

Module fmt.

(** An operand of [Sprintf]: a string (or an error, printed as its message)
    or a slice of strings. *)
Inductive Arg : Type :=
| AStr (s : string)
| AStrs (l : list string).

Definition showS (a : Arg) : string :=
  match a with
  | AStr s => s
  | AStrs l => "[" ++ strings.Join l " " ++ "]"
  end.

Section Sprintf.
(** [strconv.Quote], which renders [%q]. *)
Variable Quote : string -> string.

Definition showQ (a : Arg) : string :=
  match a with
  | AStr s => Quote s
  | AStrs l => "[" ++ strings.Join (map Quote l) " " ++ "]"
  end.

Definition showExtra (a : Arg) : string :=
  match a with
  | AStr s => "string=" ++ s
  | AStrs l => "[]string=" ++ showS a
  end.

(** Operands left over once the format is exhausted. *)
Definition extra (args : list Arg) : string :=
  match args with
  | [] => ""
  | _ => "%!(EXTRA " ++ strings.Join (map showExtra args) ", " ++ ")"
  end.

Fixpoint Sprintf (format : string) (args : list Arg) : string :=
  match format with
  | EmptyString => extra args
  | String "%" (String "s" rest) =>
      match args with
      | a :: args' => showS a ++ Sprintf rest args'
      | [] => "%!s(MISSING)" ++ Sprintf rest []
      end
  | String "%" (String "q" rest) =>
      match args with
      | a :: args' => showQ a ++ Sprintf rest args'
      | [] => "%!q(MISSING)" ++ Sprintf rest []
      end
  | String c rest => String c (Sprintf rest args)
  end.
End Sprintf.

End fmt.

(** ** Package regexp

    A backtracking matcher for the part of the RE2 syntax that the linter
    table and the parameter-reference pattern are written in: literals,
    [.], [^], [$], escapes, bracket classes over ASCII, groups (capturing,
    named), alternation and the greedy operators [*], [+], [?].  Subjects
    are byte strings read rune by rune, as Go does: [.] and a negated class
    consume a whole rune.  A pattern outside this part is reported like a
    pattern that does not compile. *)

Module regexp.

Inductive regex : Type :=
| Empty
| Lit (c : ascii)
| AnyNotNL
| Class (neg : bool) (ranges : list (ascii * ascii))
| Begin
| End_
| Cat (r1 r2 : regex)
| Alt (r1 r2 : regex)
| Star (r : regex).

Definition inRanges (c : ascii) (ranges : list (ascii * ascii)) : bool :=
  existsb (fun p => utf8.between (utf8.byte (fst p)) (utf8.byte (snd p)) c) ranges.

(** *** Matching *)

Section Match.
Variable A : Type.
(** Length of the whole subject: [^] holds where nothing is consumed. *)
Variable n0 : nat.

Fixpoint rmatch (r : regex) (s : string) (k : string -> option A) {struct r}
  : option A :=
  match r with
  | Empty => k s
  | Lit c =>
      match s with
      | String a s' => if Ascii.eqb a c then k s' else None
      | EmptyString => None
      end
  | AnyNotNL =>
      match s with
      | String a _ => if Ascii.eqb a nl then None else k (drop (utf8.runeWidth s) s)
      | EmptyString => None
      end
  | Class neg ranges =>
      match s with
      | String a s' =>
          if utf8.byte a <? 128
          then if xorb neg (inRanges a ranges) then k s' else None
          else if neg then k (drop (utf8.runeWidth s) s) else None
      | EmptyString => None
      end
  | Begin => if String.length s =? n0 then k s else None
  | End_ => match s with EmptyString => k s | _ => None end
  | Cat r1 r2 => rmatch r1 s (fun s' => rmatch r2 s' k)
  | Alt r1 r2 =>
      match rmatch r1 s k with
      | Some a => Some a
      | None => rmatch r2 s k
      end
  | Star r1 =>
      (fix loop (fuel : nat) (s : string) {struct fuel} : option A :=
         match fuel with
         | 0 => k s
         | S fuel' =>
             match rmatch r1 s (fun s' =>
                     if String.length s' <? String.length s
                     then loop fuel' s' else None) with
             | Some a => Some a
             | None => k s
             end
         end) (String.length s) s
  end.

(** Leftmost search: the start moves rune by rune. *)
Fixpoint search (r : regex) (skip : nat) (s : string)
    (k : string -> string -> option A) : option A :=
  match skip with
  | S j =>
      match s with
      | EmptyString => None
      | String _ s' => search r j s' k
      end
  | 0 =>
      match rmatch r s (k s) with
      | Some a => Some a
      | None =>
          match s with
          | EmptyString => None
          | String _ s' => search r (utf8.runeWidth s - 1) s' k
          end
      end
  end.
End Match.

(** *** Parsing *)

Definition special (c : ascii) : bool :=
  existsb (Ascii.eqb c)
    ["\"; "."; "+"; "*"; "?"; "("; ")"; "|"; "["; "]"; "{"; "}"; "^"; "$"]%char.

Definition spaceRanges : list (ascii * ascii) :=
  [(ascii_of_nat 9, ascii_of_nat 10); (ascii_of_nat 12, ascii_of_nat 13); (" ", " ")]%char.

(** An escape outside brackets. *)
Definition parseEscape (c : ascii) : option regex :=
  if Ascii.eqb c "n" then Some (Lit nl)
  else if Ascii.eqb c "t" then Some (Lit (ascii_of_nat 9))
  else if Ascii.eqb c "r" then Some (Lit (ascii_of_nat 13))
  else if Ascii.eqb c "f" then Some (Lit (ascii_of_nat 12))
  else if Ascii.eqb c "s" then Some (Class false spaceRanges)
  else if Ascii.eqb c "S" then Some (Class true spaceRanges)
  else if (utf8.byte c <? 128) && negb (utf8.between 48 57 c || utf8.between 65 90 c
                                        || utf8.between 97 122 c)
       then Some (Lit c)
  else None.

(** One member of a bracket class: its byte, and what is left. *)
Definition classChar (s : string) : option (ascii * string) :=
  match s with
  | String "\" (String e s') =>
      if Ascii.eqb e "n" then Some (nl, s')
      else if Ascii.eqb e "t" then Some (ascii_of_nat 9, s')
      else if Ascii.eqb e "r" then Some (ascii_of_nat 13, s')
      else if Ascii.eqb e "f" then Some (ascii_of_nat 12, s')
      else if (utf8.byte e <? 128) && negb (utf8.between 48 57 e || utf8.between 65 90 e
                                            || utf8.between 97 122 e)
           then Some (e, s')
      else None
  | String c s' => if utf8.byte c <? 128 then Some (c, s') else None
  | EmptyString => None
  end.

(** The members of a bracket class up to the closing bracket.  [first]
    tells that no member was read yet: a closing bracket is then literal. *)
Fixpoint parseClass (fuel : nat) (first : bool) (s : string)
    : option (list (ascii * ascii) * string) :=
  match fuel with
  | 0 => None
  | S fuel' =>
      match s with
      | EmptyString => None
      | String "]" s' =>
          if first
          then match parseClass fuel' false s' with
               | Some (rs, rest) => Some (("]", "]")%char :: rs, rest)
               | None => None
               end
          else Some ([], s')
      | _ =>
          match classChar s with
          | None => None
          | Some (lo, s1) =>
              match s1 with
              | String "-" (String "]" _) =>
                  match parseClass fuel' false s1 with
                  | Some (rs, rest) => Some ((lo, lo) :: rs, rest)
                  | None => None
                  end
              | String "-" s2 =>
                  match classChar s2 with
                  | None => None
                  | Some (hi, s3) =>
                      if utf8.byte hi <? utf8.byte lo then None
                      else match parseClass fuel' false s3 with
                           | Some (rs, rest) => Some ((lo, hi) :: rs, rest)
                           | None => None
                           end
                  end
              | _ =>
                  match parseClass fuel' false s1 with
                  | Some (rs, rest) => Some ((lo, lo) :: rs, rest)
                  | None => None
                  end
              end
          end
      end
  end.

(** Skips the name of a group [(?P<name>]. *)
Fixpoint groupName (seen : bool) (s : string) : option string :=
  match s with
  | EmptyString => None
  | String ">" s' => if seen then Some s' else None
  | String c s' =>
      if utf8.between 48 57 c || utf8.between 65 90 c || utf8.between 97 122 c
         || Ascii.eqb c "_"
      then groupName true s' else None
  end.

Section Parse.
(** The parser of alternations one level down. *)
Variable parseAlt : string -> option (regex * string).

Definition parseAtom (s : string) : option (regex * string) :=
  match s with
  | EmptyString => None
  | String "(" (String "?" (String "P" (String "<" s'))) =>
      match groupName false s' with
      | None => None
      | Some s1 =>
          match parseAlt s1 with
          | Some (r, String ")" rest) => Some (r, rest)
          | _ => None
          end
      end
  | String "(" (String "?" _) => None
  | String "(" s' =>
      match parseAlt s' with
      | Some (r, String ")" rest) => Some (r, rest)
      | _ => None
      end
  | String "[" (String "^" s') =>
      match parseClass (S (String.length s')) true s' with
      | Some (rs, rest) => Some (Class true rs, rest)
      | None => None
      end
  | String "[" s' =>
      match parseClass (S (String.length s')) true s' with
      | Some (rs, rest) => Some (Class false rs, rest)
      | None => None
      end
  | String "." s' => Some (AnyNotNL, s')
  | String "^" s' => Some (Begin, s')
  | String "$" s' => Some (End_, s')
  | String "\" (String e s') =>
      match parseEscape e with
      | Some r => Some (r, s')
      | None => None
      end
  | String c s' =>
      if special c || negb (utf8.byte c <? 128) then None else Some (Lit c, s')
  end.

(** An atom and at most one repetition operator: RE2 rejects a second
    one, and the non-greedy forms are outside this model. *)
Definition parseRep (s : string) : option (regex * string) :=
  match parseAtom s with
  | None => None
  | Some (r, rest) =>
      let isOp (c : ascii) :=
        Ascii.eqb c "*" || Ascii.eqb c "+" || Ascii.eqb c "?" in
      let noOp (t : string) :=
        match t with String c _ => negb (isOp c) | EmptyString => true end in
      match rest with
      | String "*" t => if noOp t then Some (Star r, t) else None
      | String "+" t => if noOp t then Some (Cat r (Star r), t) else None
      | String "?" t => if noOp t then Some (Alt r Empty, t) else None
      | _ => Some (r, rest)
      end
  end.

(** A concatenation: repetitions up to [|], [)] or the end. *)
Fixpoint parseCat (fuel : nat) (s : string) : option (regex * string) :=
  match fuel with
  | 0 => None
  | S fuel' =>
      match s with
      | EmptyString => Some (Empty, s)
      | String "|" _ => Some (Empty, s)
      | String ")" _ => Some (Empty, s)
      | _ =>
          match parseRep s with
          | None => None
          | Some (r, rest) =>
              match parseCat fuel' rest with
              | Some (Empty, rest') => Some (r, rest')
              | Some (r', rest') => Some (Cat r r', rest')
              | None => None
              end
          end
      end
  end.
End Parse.

Fixpoint parseAlt (fuel : nat) (s : string) : option (regex * string) :=
  match fuel with
  | 0 => None
  | S fuel' =>
      match parseCat (parseAlt fuel') (S (String.length s)) s with
      | Some (r, String "|" rest) =>
          match parseAlt fuel' rest with
          | Some (r', rest') => Some (Alt r r', rest')
          | None => None
          end
      | other => other
      end
  end.

(** [regexp.Compile]: [None] is the compile error. *)
Definition Compile (pattern : string) : option regex :=
  match parseAlt (S (String.length pattern)) pattern with
  | Some (r, EmptyString) => Some r
  | _ => None
  end.

Definition matches (r : regex) (s : string) : bool :=
  match search (String.length s) r 0 s (fun _ _ => Some tt) with
  | Some _ => true
  | None => false
  end.

(** [regexp.MatchString pattern s]: the error case is [Err]. *)
Definition MatchString (pattern s : string) : GoResult bool :=
  match Compile pattern with
  | Some r => Ok (matches r s)
  | None => Err ("error parsing regexp: " ++ pattern)
  end.

(** The text of the leftmost match, as [FindStringSubmatch] gives it at
    index 0; [None] when nothing matches. *)
Definition find (r : regex) (s : string) : option string :=
  search (String.length s) r 0 s
    (fun start rest => Some (take (String.length start - String.length rest) start)).

End regexp.

(** ** The collaborators of the validators *)

(** Package name of go-containerregistry, reduced to what the step rules
    read of a parsed reference.  Both parsers are called with
    [name.WeakValidation]. *)
Module name.
Record Digest : Type := { Digest_String : string }.
Record Tag : Type := { Tag_Identifier : string }.

(** The hexadecimal part of a sha256 digest: 64 digits, letters in lower
    case. *)
Definition isHexDigit (c : ascii) : bool :=
  utf8.between 48 57 c || utf8.between 97 102 c.

Fixpoint allHex (s : string) : bool :=
  match s with
  | EmptyString => true
  | String c s' => isHexDigit c && allHex s'
  end.

Definition isHex64 (d : string) : bool := (String.length d =? 64) && allHex d.
End name.

(** Modelled from the spec: the decoded resource handed over by the parser
    package, which is not among the sources.  A resource has a declared
    [Kind] and can be coerced ([ToType]) to a typed object that exposes its
    name and its ordered steps; the coercion may fail. *)
Module parser.

Record SecretKeySelector : Type := { SecretKey_Name : string; SecretKey_Key : string }.
Record EnvVarSource : Type := { SecretKeyRef : option SecretKeySelector }.
Record EnvVar : Type :=
  { Env_Name : string; Env_Value : string; ValueFrom : option EnvVarSource }.
Record SecretEnvSource : Type := { SecretEnv_Name : string }.
Record EnvFromSource : Type := { SecretRef : option SecretEnvSource }.

(** The fields shared by [v1.Step] and [v1beta1.Step]. *)
Record Step : Type := {
  Name : string;
  Image : string;
  Script : string;
  Env : list EnvVar;
  EnvFrom : list EnvFromSource
}.

Record Task : Type := { ObjectMeta_Name : string; Spec_Steps : list Step }.

(** The dynamic type of the value [ToType] returns. *)
Inductive Object : Type :=
| V1Task (t : Task)
| V1beta1Task (t : Task)
| V1beta1ClusterTask (t : Task)
| OtherObject.

Record Resource : Type := { Kind : string; ToType : GoResult Object }.

End parser.

(** ** Package validator *)

Module validator.

Inductive Severity : Type := Warning | Error.

Record Finding : Type := { Severity_of : Severity; Message : string }.

(** Modelled from the spec: the [Result] accumulator, whose source file is
    not among the sources.  A Result is an ordered sequence of findings;
    [Warn] and [Error] append one finding of their severity, the message
    being the formatted text; [Append] appends the findings of the other
    Result after the existing ones. *)
Record Result : Type := { Lints : list Finding }.

(** Modelled from the spec: the zero value [Result{}], with no finding. *)
Definition emptyResult : Result := {| Lints := [] |}.

(** Modelled from the spec: [Append] merges in order, the findings of
    [other] after those of [r]. *)
Definition Result_Append (r other : Result) : Result :=
  {| Lints := Lints r ++ Lints other |}.

Definition braceMatchingRegex : string := "(\$(\(%s.(?P<var>%s)\)))".
Definition parameterSubstitution : string := "[_a-zA-Z][_a-zA-Z0-9.-]*(\[\*\])?".

Definition fmtUsesVars : string :=
  "Step %q uses image %q that contains variables; skipping validation".
Definition fmtQualified : string :=
  "Step %q uses image %q; consider using a fully qualified name - e.g. docker.io/library/ubuntu:1.0".
Definition fmtInvalidDigest : string :=
  "Step %q uses image %q with an invalid digest. Error: %s".
Definition fmtTagWithDigest : string :=
  "Step %q uses image %q; consider using an image tagged with specific version along with digest eg. abc.io/img:v1@sha256:abcde".
Definition fmtInvalidTag : string :=
  "Step %q uses image %q with an invalid tag. Error: %s".
Definition fmtSpecificVersion : string :=
  "Step %q uses image %q which must be tagged with a specific version".
Definition fmtSecretEnv : string :=
  "Step %q uses secret to populate env %q. Prefer using secrets as files over secrets as environment variables".
Definition fmtSecretEnvFrom : string :=
  "Step %q uses secret as environment variables. Prefer using secrets as files over secrets as environment variables".
Definition fmtParamInScript : string :=
  "Step %q references %q directly from its script block. For reliability and security, consider putting the param into an environment variable of the Step and accessing that environment variable in your script instead.".

(** The value passed to [validateStep] as [interface{}]. *)
Inductive StepValue : Type :=
| V1Step (s : parser.Step)
| V1beta1Step (s : parser.Step)
| OtherStep.

Definition isValidRegistry (img : string) : bool :=
  let repo := hd "" (strings.Split img "/") in
  strings.Contains repo ".".

(** tagWithDigest validates if image has a specific tag along with digest *)
Definition tagWithDigest (img : string) : bool :=
  let withOutDigest := hd "" (strings.Split img "@sha256") in
  if strings.Contains withOutDigest ":" && negb (strings.HasSuffix withOutDigest ":latest")
  then true
  else false.

Section Validator.
Variable Quote : string -> string.
Variable NewDigest : string -> GoResult name.Digest.
Variable NewTag : string -> GoResult name.Tag.

(** Modelled from the spec: the finding [Warn(fmt, args...)] and
    [Error(fmt, args...)] record, its message being the formatted text. *)
Definition finding (sev : Severity) (format : string) (args : list fmt.Arg) : Finding :=
  {| Severity_of := sev; Message := fmt.Sprintf Quote format args |}.

(** Modelled from the spec: [Warn] appends a finding of severity Warning. *)
Definition Result_Warn (r : Result) (format : string) (args : list fmt.Arg) : Result :=
  {| Lints := Lints r ++ [finding Warning format args] |}.

(** Modelled from the spec: [Error] appends a finding of severity Error. *)
Definition Result_Error (r : Result) (format : string) (args : list fmt.Arg) : Result :=
  {| Lints := Lints r ++ [finding Error format args] |}.

(** [regexp.MustCompile] panics on a pattern that does not compile;
    [FindStringSubmatch] gives the matched text at index 0. *)
Definition extractExpressionFromString (s prefix : string) : Outcome (string * bool) :=
  let pattern :=
    fmt.Sprintf Quote braceMatchingRegex [fmt.AStr prefix; fmt.AStr parameterSubstitution] in
  match regexp.Compile pattern with
  | None => Panicked ("regexp: Compile(" ++ Quote pattern ++ ")")
  | Some re =>
      match regexp.find re s with
      | None => Returned ("", false)
      | Some m => Returned (m, true)
      end
  end.

Definition secretEnvRule (version stepName : string) (result : Result)
    (e : parser.EnvVar) : Result :=
  let referencesSecret :=
    match parser.ValueFrom e with
    | Some src => match parser.SecretKeyRef src with Some _ => true | None => false end
    | None => false
    end in
  if String.eqb version "v1" then
    if referencesSecret
    then Result_Warn result fmtSecretEnv [fmt.AStr stepName; fmt.AStr (parser.Env_Name e)]
    else result
  else if String.eqb version "v1beta1" then
    if referencesSecret
    then Result_Warn result fmtSecretEnv [fmt.AStr stepName; fmt.AStr (parser.Env_Name e)]
    else result
  else result.

Definition secretEnvFromRule (version stepName : string) (result : Result)
    (e : parser.EnvFromSource) : Result :=
  let referencesSecret :=
    match parser.SecretRef e with Some _ => true | None => false end in
  if String.eqb version "v1" then
    if referencesSecret then Result_Warn result fmtSecretEnvFrom [fmt.AStr stepName] else result
  else if String.eqb version "v1beta1" then
    if referencesSecret then Result_Warn result fmtSecretEnvFrom [fmt.AStr stepName] else result
  else result.

(** The rules that follow the tag check: secrets in the environment and
    parameter references in the script (lines 130-168). *)
Definition envAndScriptRules (version stepName script : string)
    (env : list parser.EnvVar) (envFrom : list parser.EnvFromSource)
    (result : Result) : Outcome Result :=
  let result := fold_left (secretEnvRule version stepName) env result in
  let result := fold_left (secretEnvFromRule version stepName) envFrom result in
  if negb (String.eqb script "") then
    match extractExpressionFromString script "params" with
    | Panicked msg => Panicked msg
    | Returned (expr, _) =>
        if negb (String.eqb expr "")
        then Returned (Result_Warn result fmtParamInScript [fmt.AStr stepName; fmt.AStr expr])
        else Returned result
    end
  else Returned result.

(** The body of [validateStep] once the type switch has read the fields
    of the step (lines 97-168). *)
Definition validateFields (version : string) (s : parser.Step) : Outcome Result :=
  let result := emptyResult in
  let stepName := parser.Name s in
  let img := parser.Image s in
  match extractExpressionFromString img "" with
  | Panicked msg => Panicked msg
  | Returned (_, true) =>
      Returned (Result_Warn result fmtUsesVars [fmt.AStr stepName; fmt.AStr img])
  | Returned (_, false) =>
      let result :=
        if negb (strings.Contains img "/") || negb (isValidRegistry img)
        then Result_Warn result fmtQualified [fmt.AStr stepName; fmt.AStr img]
        else result in
      if strings.Contains img "@sha256" then
        match NewDigest img with
        | Err e =>
            Returned (Result_Error result fmtInvalidDigest
                        [fmt.AStr stepName; fmt.AStr img; fmt.AStr e])
        | Ok rep =>
            let result :=
              if negb (tagWithDigest (name.Digest_String rep))
              then Result_Warn result fmtTagWithDigest [fmt.AStr stepName; fmt.AStr img]
              else result in
            Returned result
        end
      else
        match NewTag img with
        | Err e =>
            Returned (Result_Error result fmtInvalidTag
                        [fmt.AStr stepName; fmt.AStr img; fmt.AStr e])
        | Ok ref =>
            let result :=
              if strings.EqualFold (name.Tag_Identifier ref) "latest"
              then Result_Error result fmtSpecificVersion [fmt.AStr stepName; fmt.AStr img]
              else result in
            envAndScriptRules version stepName (parser.Script s)
              (parser.Env s) (parser.EnvFrom s) result
        end
  end.

Definition validateStep (step : StepValue) : Outcome Result :=
  match step with
  | V1Step s => validateFields "v1" s
  | V1beta1Step s => validateFields "v1beta1" s
  | OtherStep => Returned emptyResult
  end.

(** The loop [for _, step := range steps { result.Append(validateStep(step)) }]. *)
Fixpoint validateSteps (wrap : parser.Step -> StepValue) (steps : list parser.Step)
    (result : Result) : Outcome Result :=
  match steps with
  | [] => Returned result
  | step :: rest =>
      match validateStep (wrap step) with
      | Panicked msg => Panicked msg
      | Returned r => validateSteps wrap rest (Result_Append result r)
      end
  end.

Record taskValidator : Type := { res : parser.Resource }.

Definition NewTaskValidator (r : parser.Resource) : taskValidator := {| res := r |}.

Definition Validate (t : taskValidator) : Outcome Result :=
  let result := emptyResult in
  match parser.ToType (res t) with
  | Err e => Returned (Result_Error result "Failed to decode to a Task - %s" [fmt.AStr e])
  | Ok (parser.V1Task task) => validateSteps V1Step (parser.Spec_Steps task) result
  | Ok (parser.V1beta1Task task) => validateSteps V1beta1Step (parser.Spec_Steps task) result
  | Ok _ => Returned result
  end.
End Validator.

End validator.

(** ** Package linter *)

Module linter.

Import validator.

Record linter : Type := { cmd : string; args : list string }.

(** The field [regexp_] is the field [regexp] of the source. *)
Record config : Type := { regexp_ : string; linters : list linter }.

(** NewConfig construct default config *)
Definition NewConfig : list config :=
  [ (* Default one is the first one *)
    {| regexp_ := "(/usr/bin/env |.*/bin/)sh";
       linters := [ {| cmd := "shellcheck"; args := ["-s"; "sh"] |};
                    {| cmd := "sh"; args := ["-n"] |} ] |};
    {| regexp_ := "(/usr/bin/env |.*/bin/)bash";
       linters := [ {| cmd := "shellcheck"; args := ["-s"; "bash"] |};
                    {| cmd := "bash"; args := ["-n"] |} ] |};
    {| regexp_ := "(/usr/bin/env\s|.*/bin/|/usr/libexec/platform-)python(23)?";
       linters := [ {| cmd := "pylint"; args := ["-dC0103"] |} ] |} ].

(** *** The machine the linters run on *)

(** Files by path, the most recent binding first. *)
Definition FS : Type := list (string * string).

Fixpoint readFile (fs : FS) (path : string) : option string :=
  match fs with
  | [] => None
  | (p, data) :: rest => if String.eqb p path then Some data else readFile rest path
  end.

Definition removeFile (fs : FS) (path : string) : FS :=
  filter (fun e => negb (String.eqb (fst e) path)) fs.

Definition writeFile (fs : FS) (path data : string) : FS :=
  (path, data) :: removeFile fs path.

(** What a run does to the machine, in order.  A started process is
    recorded with the files it can see. *)
Inductive Event : Type :=
| EvCreate (path : string)
| EvWrite (path data : string)
| EvClose (path : string)
| EvExec (execpath : string) (argv : list string) (fs : FS)
| EvRemove (path : string).

Record World : Type := { files : FS; trace : list Event }.

Definition record (w : World) (fs : FS) (e : Event) : World :=
  {| files := fs; trace := trace w ++ [e] |}.

(** The answers of the environment: the regular-expression library, the
    search path, the temporary directory and the linter processes. *)
Record Host : Type := {
  MatchString : string -> string -> GoResult bool;
  LookPath : string -> GoResult string;
  CreateTemp : World -> GoResult string;
  WriteOk : World -> string -> string -> bool;
  CloseOk : World -> string -> bool;
  CombinedOutput : World -> string -> list string -> string * bool
}.

(** The state of a call of [validateScript]: the result so far, the
    machine, and the files whose removal is deferred (latest first). *)
Record Frame : Type := { result : Result; world : World; deferred : list string }.

(** A loop body either goes on or makes the function return. *)
Inductive Flow : Type :=
| Continue (f : Frame)
| Return (f : Frame).

(** Deferred calls run last-in first-out when the function returns. *)
Fixpoint runDeferred (names : list string) (w : World) : World :=
  match names with
  | [] => w
  | n :: rest => runDeferred rest (record w (removeFile (files w) n) (EvRemove n))
  end.

Section Linter.
Variable Quote : string -> string.
Variable host : Host.

Definition failWith (f : Frame) (format : string) (a : list fmt.Arg) : Flow :=
  Return {| result := Result_Error Quote (result f) format a;
            world := world f; deferred := deferred f |}.

(** One pass of the inner loop (lines 115-145). *)
Definition runLinter (taskName script stepName : string) (l : linter) (f : Frame) : Flow :=
  match LookPath host (cmd l) with
  | Err _ => failWith f "Couldn't find the linter %s in the path" [fmt.AStr (cmd l)]
  | Ok execpath =>
      match CreateTemp host (world f) with
      | Err _ => failWith f "Cannot create temporary files" []
      | Ok tmpfile =>
          let w1 := record (world f) (writeFile (files (world f)) tmpfile "") (EvCreate tmpfile) in
          let f1 := {| result := result f; world := w1; deferred := tmpfile :: deferred f |} in
          if negb (WriteOk host w1 tmpfile script)
          then failWith f1 "Cannot write to temporary files" []
          else
            let w2 := record w1 (writeFile (files w1) tmpfile script) (EvWrite tmpfile script) in
            let f2 := {| result := result f; world := w2; deferred := deferred f1 |} in
            if negb (CloseOk host w2 tmpfile)
            then failWith f2 "Cannot close temporary files" []
            else
              let w2 := record w2 (files w2) (EvClose tmpfile) in
              let argv := (args l ++ [tmpfile])%list in
              let (out, ok) := CombinedOutput host w2 execpath argv in
              let w3 := record w2 (files w2) (EvExec execpath argv (files w2)) in
              let res :=
                if ok then result f
                else
                  let outt := strings.ReplaceAll out tmpfile (taskName ++ "-" ++ stepName) in
                  Result_Error Quote (result f) ("%s, %s failed:" ++ NL ++ "%s")
                    [fmt.AStr execpath; fmt.AStrs (args l); fmt.AStr outt] in
              Continue {| result := res; world := w3; deferred := deferred f1 |}
      end
  end.

Fixpoint runLinters (taskName script stepName : string) (ls : list linter) (f : Frame)
    : Flow :=
  match ls with
  | [] => Continue f
  | l :: rest =>
      match runLinter taskName script stepName l f with
      | Continue f' => runLinters taskName script stepName rest f'
      | Return f' => Return f'
      end
  end.

(** The outer loop over the table (lines 104-146). *)
Fixpoint runConfigs (taskName script stepName : string) (configs : list config)
    (f : Frame) : Flow :=
  match configs with
  | [] => Continue f
  | c :: rest =>
      match MatchString host ("^#!" ++ regexp_ c ++ "\n") script with
      | Err _ => failWith f "Invalid regexp: %s" [fmt.AStr (regexp_ c)]
      | Ok false => runConfigs taskName script stepName rest f
      | Ok true =>
          match runLinters taskName script stepName (linters c) f with
          | Continue f' => runConfigs taskName script stepName rest f'
          | Return f' => Return f'
          end
      end
  end.

Definition leave (fl : Flow) : Result * World :=
  match fl with
  | Continue f | Return f => (result f, runDeferred (deferred f) (world f))
  end.

(** The head of [validateScript] (lines 93-102): the script the table is
    matched against and that is written for the linters, and the result so
    far.  Slicing past the end of the script panics. *)
Definition normalizeShebang (taskName script : string) : Outcome (string * Result) :=
  let result := emptyResult in
  (* use /bin/sh by default if no shbang *)
  match slice0 script 2 with
  | None => Panicked "slice bounds out of range [:2]"
  | Some head2 =>
      if negb (String.eqb head2 "#!") then
        Returned ("#!/usr/bin/env sh" ++ NL ++ script, result)
      else (* using a shbang, check if we have /usr/bin/env *)
        match slice0 script 14 with
        | None => Panicked "slice bounds out of range [:14]"
        | Some head14 =>
            if negb (String.eqb head14 "#!/usr/bin/env")
            then Returned (script,
                           Result_Warn Quote result "step: %s is not using #!/usr/bin/env "
                             [fmt.AStr taskName])
            else Returned (script, result)
        end
  end.

Definition validateScript (taskName script : string) (configs : list config)
    (stepName : string) (w : World) : Outcome (Result * World) :=
  match normalizeShebang taskName script with
  | Panicked msg => Panicked msg
  | Returned (script, result) =>
      Returned (leave (runConfigs taskName script stepName configs
                         {| result := result; world := w; deferred := [] |}))
  end.

Record taskLinter : Type := { res : parser.Resource; configs : list config }.

(** NewScriptLinter construct a new task lister struct *)
Definition NewScriptLinter (r : parser.Resource) : taskLinter :=
  {| res := r; configs := NewConfig |}.

(** The loop of [collectOverSteps]; the two branches of its type switch
    run the same loop over the steps. *)
Fixpoint collectOverSteps (t : taskLinter) (steps : list parser.Step) (name : string)
    (result : Result) (w : World) : Outcome (Result * World) :=
  match steps with
  | [] => Returned (result, w)
  | step :: rest =>
      if negb (String.eqb (parser.Script step) "") then
        match validateScript name (parser.Script step) (configs t) (parser.Name step) w with
        | Panicked msg => Panicked msg
        | Returned (r, w') => collectOverSteps t rest name (Result_Append result r) w'
        end
      else collectOverSteps t rest name result w
  end.

Definition Validate (t : taskLinter) (w : World) : Outcome (Result * World) :=
  let result := emptyResult in
  match parser.ToType (res t) with
  | Err e =>
      Returned (Result_Error Quote result "Failed to decode to a Task - %s" [fmt.AStr e], w)
  | Ok obj =>
      let kind := strings.ToLower (parser.Kind (res t)) in
      if String.eqb kind "task" then
        match obj with
        | parser.V1Task task =>
            collectOverSteps t (parser.Spec_Steps task) (parser.ObjectMeta_Name task) result w
        | _ => Panicked "interface conversion: interface {} is not *v1.Task"
        end
      else if String.eqb kind "clustertask" then
        match obj with
        | parser.V1beta1ClusterTask task =>
            collectOverSteps t (parser.Spec_Steps task) (parser.ObjectMeta_Name task) result w
        | _ => Panicked "interface conversion: interface {} is not *v1beta1.ClusterTask"
        end
      else Returned (result, w)
  end.
End Linter.

End linter.

(** ** What a run of the linter shows *)

Module observe.

Import validator linter.

(** The processes started in a trace, in order: path and arguments. *)
Fixpoint invocations (tr : list Event) : list (string * list string) :=
  match tr with
  | [] => []
  | EvExec execpath argv _ :: rest => (execpath, argv) :: invocations rest
  | _ :: rest => invocations rest
  end.

(** The linters of the rules whose pattern matches, in table order. *)
Definition selected (host : Host) (script : string) (configs : list config) : list linter :=
  flat_map (fun c =>
              match MatchString host ("^#!" ++ regexp_ c ++ "\n") script with
              | Ok true => linters c
              | _ => []
              end) configs.

(** A started process is the invocation of linter [l]: the resolved command
    with the configured arguments followed by one file name. *)
Definition invokes (host : Host) (l : linter) (inv : string * list string) : Prop :=
  LookPath host (cmd l) = Ok (fst inv) /\
  exists tmpfile, snd inv = (args l ++ [tmpfile])%list.

(** The processes started in [evs] are the invocations of the linters
    [ls], one for one and in order. *)
Definition ran (host : Host) (ls : list linter) (evs : list Event) : Prop :=
  Forall2 (invokes host) ls (invocations evs).

(** Every file written holds [script], and every process is started on a
    file that holds [script]. *)
Definition lints (script : string) (e : Event) : Prop :=
  match e with
  | EvWrite _ data => data = script
  | EvExec _ argv fs =>
      exists a tmpfile, argv = (a ++ [tmpfile])%list /\ readFile fs tmpfile = Some script
  | _ => True
  end.

Definition frameOf (fl : Flow) : Frame :=
  match fl with
  | Continue f | Return f => f
  end.

(** The events a flow adds to the trace of the frame it started from. *)
Definition adds (f : Frame) (fl : Flow) (P : list Event -> Prop) : Prop :=
  exists evs, trace (world (frameOf fl)) = (trace (world f) ++ evs)%list /\ P evs.


(** The pattern [extractExpressionFromString] builds for a prefix, and the
    two patterns the step rules use, compiled. *)
Definition variablePattern (prefix : string) : string :=
  "(\$(\(" ++ prefix ++ ".(?P<var>" ++ parameterSubstitution ++ ")\)))".

Definition compiled (pattern : string) : regexp.regex :=
  match regexp.Compile pattern with
  | Some r => r
  | None => regexp.Empty
  end.

Definition imageRegex : regexp.regex := Eval vm_compute in compiled (variablePattern "").

Definition paramsRegex : regexp.regex :=
  Eval vm_compute in compiled (variablePattern "params").

(** The two values [validateStep] distinguishes that carry the fields [s]. *)
Definition stepOf (s : parser.Step) : list StepValue := [V1Step s; V1beta1Step s].

(** The Warning of the digest rule for a step. *)
Definition tagWithDigestWarning (Quote : string -> string) (s : parser.Step) : Finding :=
  finding Quote Warning fmtTagWithDigest
    [fmt.AStr (parser.Name s); fmt.AStr (parser.Image s)].

(** The finding of the registry rule, when it fires. *)
Definition qualifiedFindings (Quote : string -> string) (s : parser.Step) : list Finding :=
  if negb (strings.Contains (parser.Image s) "/") || negb (isValidRegistry (parser.Image s))
  then [finding Quote Warning fmtQualified
          [fmt.AStr (parser.Name s); fmt.AStr (parser.Image s)]]
  else [].

(** *** Readings of the specification that the code does not follow *)





(** Every image that is not in digest form and parses with the tag
    [latest], whatever the case of its letters, gets an Error that speaks
    of a specific version. *)
Definition accepted_latest_is_error (Quote : string -> string)
    (NewDigest : string -> GoResult name.Digest)
    (NewTag : string -> GoResult name.Tag) : Prop :=
  forall version s ref,
    strings.Contains (parser.Image s) "@sha256" = false ->
    NewTag (parser.Image s) = Ok ref ->
    strings.EqualFold (name.Tag_Identifier ref) "latest" = true ->
    exists r x, validateFields Quote NewDigest NewTag version s = Returned r /\
                In x (Lints r) /\ Severity_of x = Error /\
                strings.Contains (Message x) "specific version" = true.

(** Every image whose digest is rejected gets an Error. *)
Definition malformed_digest_is_error (Quote : string -> string)
    (NewDigest : string -> GoResult name.Digest)
    (NewTag : string -> GoResult name.Tag) : Prop :=
  forall version s e,
    strings.Contains (parser.Image s) "@sha256" = true ->
    NewDigest (parser.Image s) = Err e ->
    exists r x, validateFields Quote NewDigest NewTag version s = Returned r /\
                In x (Lints r) /\ Severity_of x = Error.

(** When every command resolves, the linters of all matching rules run. *)
Definition resolved_linters_all_run (Quote : string -> string) (host : Host) : Prop :=
  forall taskName script stepName configs script' r0,
    normalizeShebang Quote taskName script = Returned (script', r0) ->
    (forall c l, In c configs -> In l (linters c) ->
                 exists p, LookPath host (cmd l) = Ok p) ->
    exists r w',
      validateScript Quote host taskName script configs stepName
        {| files := []; trace := [] |} = Returned (r, w') /\
      Forall2 (invokes host) (selected host script' configs) (invocations (trace w')).

End observe.

(** ** A machine and a reference library to run the validators on *)

Module sample.

Import validator linter.

Definition dquote : ascii := ascii_of_nat 34.

Definition Quote (s : string) : string := String dquote (s ++ String dquote "").

(** A reference parser in the manner of weak validation.  A repository may
    hold lower-case letters, digits and [_-./]; a tag may hold letters,
    digits and [_-.]; the part before the first slash is a registry when it
    holds a dot or a colon, and a registry is any URI authority, which may
    hold [$] and parentheses. *)
Definition repositoryChar (c : ascii) : bool :=
  utf8.between 97 122 c || utf8.between 48 57 c
  || existsb (Ascii.eqb c) ["_"; "-"; "."; "/"]%char.

Definition tagChar (c : ascii) : bool :=
  utf8.between 97 122 c || utf8.between 65 90 c || utf8.between 48 57 c
  || existsb (Ascii.eqb c) ["_"; "-"; "."]%char.

Fixpoint all (p : ascii -> bool) (s : string) : bool :=
  match s with
  | EmptyString => true
  | String c s' => p c && all p s'
  end.

Definition NewRepository (base : string) : GoResult string :=
  let repo :=
    match strings.Split base "/" with
    | registry :: (_ :: _) as rest =>
        if strings.Contains registry "." || strings.Contains registry ":"
        then strings.Join rest "/"
        else base
    | _ => base
    end in
  if negb (String.eqb repo "") && all repositoryChar repo
  then Ok repo
  else Err "repository can only contain the characters `abcdefghijklmnopqrstuvwxyz0123456789_-./`".

(** The tag is what follows the last colon when no slash comes after it,
    and [latest] when there is none. *)
Definition NewTag (img : string) : GoResult name.Tag :=
  let parts := strings.Split img ":" in
  let tag := last parts "" in
  let tagged := (1 <? List.length parts) && negb (strings.Contains tag "/") in
  let base := if tagged then strings.Join (removelast parts) ":" else img in
  let tag := if tagged then tag else "" in
  if negb (all tagChar tag)
  then Err "tag can only contain the characters `abcdefghijklmnopqrstuvwxyzABCDEFGHIJKLMNOPQRSTUVWXYZ0123456789_-.`"
  else
    match NewRepository base with
    | Err e => Err e
    | Ok _ => Ok {| name.Tag_Identifier := if String.eqb tag "" then "latest" else tag |}
    end.

(** Accepts [base@sha256:<64 hex digits>] when [base] names a repository,
    with or without a tag, and prints the reference as it was given. *)
Definition NewDigest (img : string) : GoResult name.Digest :=
  match strings.Split img "@" with
  | [base; dig] =>
      if String.prefix "sha256:" dig && name.isHex64 (drop 7 dig)
      then
        match NewTag base with
        | Ok _ => Ok {| name.Digest_String := img |}
        | Err _ =>
            match NewRepository base with
            | Ok _ => Ok {| name.Digest_String := img |}
            | Err e => Err e
            end
        end
      else Err "invalid checksum digest format"
  | _ => Err "a digest must contain exactly one '@' separator"
  end.

Definition installed : list string := ["shellcheck"; "sh"; "bash"].

Definition lookPath (file : string) : GoResult string :=
  if existsb (String.eqb file) installed
  then Ok ("/usr/bin/" ++ file)
  else Err ("exec: " ++ file ++ ": executable file not found in $PATH").

Fixpoint tally (n : nat) : string :=
  match n with
  | 0 => ""
  | S n' => String "1" (tally n')
  end.

(** A fresh name: the trace grows with every file created. *)
Definition createTemp (w : World) : GoResult string :=
  Ok ("/tmp/catlin-script-linter" ++ tally (List.length (trace w))).

(** Every linter is quiet and exits with status 0. *)
Definition host : Host :=
  {| MatchString := regexp.MatchString;
     LookPath := lookPath;
     CreateTemp := createTemp;
     WriteOk := fun _ _ _ => true;
     CloseOk := fun _ _ => true;
     CombinedOutput := fun _ _ _ => ("", true) |}.

(** The same machine with no room left for temporary files. *)
Definition fullHost : Host :=
  {| MatchString := regexp.MatchString;
     LookPath := lookPath;
     CreateTemp := fun _ => Err "no space left on device";
     WriteOk := fun _ _ _ => true;
     CloseOk := fun _ _ => true;
     CombinedOutput := fun _ _ _ => ("", true) |}.

Definition world0 : World := {| files := []; trace := [] |}.


Definition shRule : config :=
  {| regexp_ := "(/usr/bin/env |.*/bin/)sh";
     linters := [ {| cmd := "shellcheck"; args := ["-s"; "sh"] |};
                  {| cmd := "sh"; args := ["-n"] |} ] |}.

(** A second rule that matches every interpreter. *)
Definition anyRule : config :=
  {| regexp_ := ".*"; linters := [ {| cmd := "bash"; args := ["-n"] |} ] |}.

Definition brokenRule : config := {| regexp_ := "("; linters := [] |}.

Definition missingLinter : linter := {| cmd := "pylint"; args := ["-dC0103"] |}.

Definition hex64 : string :=
  "0123456789abcdef0123456789abcdef0123456789abcdef0123456789abcdef".

Definition secretEnv : parser.EnvVar :=
  {| parser.Env_Name := "TOKEN"; parser.Env_Value := "";
     parser.ValueFrom :=
       Some {| parser.SecretKeyRef :=
                 Some {| parser.SecretKey_Name := "creds"; parser.SecretKey_Key := "token" |} |} |}.

Definition step (image script : string) (env : list parser.EnvVar) : parser.Step :=
  {| parser.Name := "build"; parser.Image := image; parser.Script := script;
     parser.Env := env; parser.EnvFrom := [] |}.

Definition task (steps : list parser.Step) : parser.Resource :=
  {| parser.Kind := "Task";
     parser.ToType := Ok (parser.V1Task {| parser.ObjectMeta_Name := "demo";
                                           parser.Spec_Steps := steps |}) |}.

Definition betaTask (steps : list parser.Step) : parser.Resource :=
  {| parser.Kind := "Task";
     parser.ToType := Ok (parser.V1beta1Task {| parser.ObjectMeta_Name := "demo";
                                                parser.Spec_Steps := steps |}) |}.

(** Steps for the image rules: a digest without a tag, a digest that is
    not 64 hex digits, an image whose digest is named by a parameter, a
    registry with a port in front of a digest without a tag, two images
    whose registry is named by a parameter, one with the tag [latest] and
    one with a digest and no tag, and a step that takes a secret from the
    environment and a parameter in its script. *)
Definition untaggedStep : parser.Step :=
  step ("host.example.com/repo@sha256:" ++ hex64) "" [].

Definition malformedStep : parser.Step := step "host.example.com/repo@sha256:zz" "" [].

Definition variableStep : parser.Step :=
  step "host.example.com/repo@sha256:$(params.digest)" "" [].

Definition portStep : parser.Step :=
  step ("host.example.com:5000/repo@sha256:" ++ hex64) "" [].

Definition variableLatestStep : parser.Step := step "$(params.registry)/repo:latest" "" [].


Definition secretStep : parser.Step :=
  step ("host.example.com/repo:v1@sha256:" ++ hex64) "echo $(params.name)" [secretEnv].

(** A script with a shebang, and one without. *)
Definition shScript : string := "#!/bin/sh" ++ NL ++ "echo hello" ++ NL.

Definition plainScript : string := "echo hello".

End sample.

Unset Implicit Arguments.

(** ** What a pattern matches

    The matcher of package regexp read as a relation: [consumes n0 r s s']
    says that [r] matches a front part of [s] and leaves [s'], in a subject
    of [n0] bytes.  A repetition only counts passes that consume
    something, as the matcher does. *)

Module matching.

Import regexp.

Inductive consumes (n0 : nat) : regex -> string -> string -> Prop :=
| consumes_Empty : forall s, consumes n0 Empty s s
| consumes_Lit : forall c s, consumes n0 (Lit c) (String c s) s
| consumes_Any : forall a s,
    a <> nl ->
    consumes n0 AnyNotNL (String a s) (drop (utf8.runeWidth (String a s)) (String a s))
| consumes_Class_byte : forall neg ranges a s,
    utf8.byte a < 128 ->
    xorb neg (inRanges a ranges) = true ->
    consumes n0 (Class neg ranges) (String a s) s
| consumes_Class_rune : forall ranges a s,
    128 <= utf8.byte a ->
    consumes n0 (Class true ranges) (String a s)
      (drop (utf8.runeWidth (String a s)) (String a s))
| consumes_Begin : forall s, String.length s = n0 -> consumes n0 Begin s s
| consumes_End : consumes n0 End_ "" ""
| consumes_Cat : forall r1 r2 s s1 s2,
    consumes n0 r1 s s1 -> consumes n0 r2 s1 s2 -> consumes n0 (Cat r1 r2) s s2
| consumes_Alt_l : forall r1 r2 s s',
    consumes n0 r1 s s' -> consumes n0 (Alt r1 r2) s s'
| consumes_Alt_r : forall r1 r2 s s',
    consumes n0 r2 s s' -> consumes n0 (Alt r1 r2) s s'
| consumes_Star_stop : forall r s, consumes n0 (Star r) s s
| consumes_Star_pass : forall r s s1 s2,
    consumes n0 r s s1 ->
    String.length s1 < String.length s ->
    consumes n0 (Star r) s1 s2 ->
    consumes n0 (Star r) s s2.

(** No byte of [s] is a newline. *)
Fixpoint oneLine (s : string) : bool :=
  match s with
  | EmptyString => true
  | String c s' => negb (Ascii.eqb c nl) && oneLine s'
  end.

(** The first [n] bytes of [s] are bytes of the inside of a rune. *)
Fixpoint inside (n : nat) (s : string) : Prop :=
  match n with
  | 0 => True
  | S n' =>
      match s with
      | EmptyString => False
      | String c s' => 128 <= utf8.byte c /\ inside n' s'
      end
  end.

(** [s] starts with a byte that is a rune of its own. *)
Definition startsAscii (s : string) : Prop :=
  match s with
  | EmptyString => False
  | String c _ => utf8.byte c < 128
  end.

(** A pattern that starts with the bytes of [p]. *)
Fixpoint lits (p : string) (r : regex) : regex :=
  match p with
  | EmptyString => r
  | String c p' => Cat (Lit c) (lits p' r)
  end.

(** The two bracket classes of [parameterSubstitution]. *)
Definition nameStart : list (ascii * ascii) :=
  [("_", "_"); ("a", "z"); ("A", "Z")]%char.

Definition nameRest : list (ascii * ascii) :=
  [("_", "_"); ("a", "z"); ("A", "Z"); ("0", "9"); (".", "."); ("-", "-")]%char.

(** What follows the prefix in the pattern of a reference: any rune, a
    name, possibly [[*]], and the closing parenthesis. *)
Definition referenceTail : regex :=
  Cat AnyNotNL
    (Cat (Cat (Class false nameStart)
            (Cat (Star (Class false nameRest))
               (Alt (Cat (Lit "[") (Cat (Lit "*") (Lit "]"))) Empty)))
       (Lit ")")).

Fixpoint allIn (ranges : list (ascii * ascii)) (s : string) : bool :=
  match s with
  | EmptyString => true
  | String c s' => inRanges c ranges && allIn ranges s'
  end.

(** A name as [parameterSubstitution] reads it. *)
Definition isName (n : string) : bool :=
  match n with
  | EmptyString => false
  | String c n' => inRanges c nameStart && allIn nameRest n'
  end.

(** The pattern of a run of literal bytes. *)
Fixpoint word (p : string) : regex :=
  match p with
  | EmptyString => Empty
  | String c p' =>
      match p' with
      | EmptyString => Lit c
      | _ => Cat (Lit c) (word p')
      end
  end.

(** A path that ends in [/bin/] and holds no newline before it. *)
Definition binDir (pre : string) : Prop :=
  exists D, pre = D ++ "/bin/" /\ oneLine D = true.

(** What comes before the interpreter in the rules for sh and bash. *)
Definition launcher (pre : string) : Prop :=
  pre = "/usr/bin/env " \/ binDir pre.

(** What comes before the interpreter in the rule for python. *)
Definition pythonLauncher (pre : string) : Prop :=
  (exists c, pre = "/usr/bin/env" ++ String c "" /\
             utf8.byte c < 128 /\ inRanges c spaceRanges = true) \/
  binDir pre \/ pre = "/usr/libexec/platform-".

(** The compiled rules of the default table, without the leading [^]. *)
Definition shellRule (i : string) : regex :=
  lits "#!"
    (Cat (Alt (word "/usr/bin/env ") (Cat (Star AnyNotNL) (word "/bin/")))
       (word (i ++ NL))).

Definition pythonRule : regex :=
  lits "#!"
    (Cat (Alt (lits "/usr/bin/env" (Class false spaceRanges))
            (Alt (Cat (Star AnyNotNL) (word "/bin/")) (word "/usr/libexec/platform-")))
       (lits "python" (Cat (Alt (word "23") Empty) (Lit nl)))).

End matching.

(** ** The findings of the rules that follow the tag check *)

Module expect.

Import validator.

Definition keyFromSecret (e : parser.EnvVar) : bool :=
  match parser.ValueFrom e with
  | Some src => match parser.SecretKeyRef src with Some _ => true | None => false end
  | None => false
  end.

Definition fromSecret (e : parser.EnvFromSource) : bool :=
  match parser.SecretRef e with Some _ => true | None => false end.

Section Findings.
Variable Quote : string -> string.
Variable s : parser.Step.

(** The Error of the tag rule, when the tag is [latest]. *)
Definition latestFindings (ref : name.Tag) : list Finding :=
  if strings.EqualFold (name.Tag_Identifier ref) "latest"
  then [finding Quote Error fmtSpecificVersion
          [fmt.AStr (parser.Name s); fmt.AStr (parser.Image s)]]
  else [].

(** One Warning for each variable that takes its value from a key of a
    secret, in the order of the variables. *)
Definition secretEnvFindings : list Finding :=
  map (fun e => finding Quote Warning fmtSecretEnv
                  [fmt.AStr (parser.Name s); fmt.AStr (parser.Env_Name e)])
      (filter keyFromSecret (parser.Env s)).

(** One Warning for each source of variables that is a secret. *)
Definition secretEnvFromFindings : list Finding :=
  map (fun _ => finding Quote Warning fmtSecretEnvFrom [fmt.AStr (parser.Name s)])
      (filter fromSecret (parser.EnvFrom s)).

(** One Warning for the leftmost reference to a parameter in the script. *)
Definition paramFindings : list Finding :=
  match regexp.find observe.paramsRegex (parser.Script s) with
  | Some expr =>
      [finding Quote Warning fmtParamInScript [fmt.AStr (parser.Name s); fmt.AStr expr]]
  | None => []
  end.
End Findings.

End expect.

(** ** What the two validators go through, and what the linter leaves *)

Module scope.

Import validator linter.

(** The steps [taskValidator.Validate] goes through: those of a Task of
    either revision, and none of any other object. *)
Definition validatedSteps (obj : parser.Object) : list parser.Step :=
  match obj with
  | parser.V1Task task | parser.V1beta1Task task => parser.Spec_Steps task
  | _ => []
  end.

(** The findings [validateStep] returns for a v1 step. *)
Definition stepFindings (Quote : string -> string)
    (NewDigest : string -> GoResult name.Digest)
    (NewTag : string -> GoResult name.Tag) (s : parser.Step) : list Finding :=
  match validateStep Quote NewDigest NewTag (V1Step s) with
  | Returned r => Lints r
  | Panicked _ => []
  end.

(** The script has the bytes [validateScript] slices: two, and fourteen
    when it starts with a shebang. *)
Definition sliceable (script : string) : bool :=
  (2 <=? String.length script) &&
  (negb (String.prefix "#!" script) || (14 <=? String.length script)).

(** Every script of the steps is empty or sliceable. *)
Definition lintable (steps : list parser.Step) : bool :=
  forallb (fun s => String.eqb (parser.Script s) "" || sliceable (parser.Script s)) steps.

(** The script the rules are matched against. *)
Definition linted (script : string) : string :=
  if String.prefix "#!" script then script else "#!/usr/bin/env sh" ++ NL ++ script.

(** The Warning about a shebang that does not go through [/usr/bin/env]. *)
Definition shebangWarning (Quote : string -> string) (taskName script : string)
    : list Finding :=
  if String.prefix "#!" script && negb (String.prefix "#!/usr/bin/env" script)
  then [finding Quote Warning "step: %s is not using #!/usr/bin/env " [fmt.AStr taskName]]
  else [].

(** The files created and the files removed in a trace, in order. *)
Fixpoint created (tr : list Event) : list string :=
  match tr with
  | [] => []
  | EvCreate path :: rest => path :: created rest
  | _ :: rest => created rest
  end.

Fixpoint removed (tr : list Event) : list string :=
  match tr with
  | [] => []
  | EvRemove path :: rest => path :: removed rest
  | _ :: rest => removed rest
  end.

(** What a flow that started from frame [f] has done when it reaches
    frame [f']: the events [evs] were added, none of them a removal; the
    files created are deferred for removal, the latest first; every other
    file reads as before. *)
Definition tidy (f f' : Frame) (evs : list Event) : Prop :=
  trace (world f') = (trace (world f) ++ evs)%list /\
  removed evs = [] /\
  deferred f' = (rev (created evs) ++ deferred f)%list /\
  forall p, ~ In p (created evs) ->
            readFile (files (world f')) p = readFile (files (world f)) p.

(** The result of frame [f'] is the result of frame [f] followed by
    Errors only. *)
Definition onlyErrors (f f' : Frame) : Prop :=
  exists errs, Lints (result f') = (Lints (result f) ++ errs)%list /\
               Forall (fun x => Severity_of x = Error) errs.

(** Linter [l] was run on [script] within [evs]: a temporary file was
    created, [script] written to it and the file closed, and the resolved
    command was started with the configured arguments followed by the name
    of that file, which then holds [script]. *)
Definition lintedBy (host : Host) (l : linter) (script : string) (evs : list Event)
    : Prop :=
  exists pre post tmpfile execpath fs,
    LookPath host (cmd l) = Ok execpath /\
    evs = (pre ++ [EvCreate tmpfile; EvWrite tmpfile script; EvClose tmpfile;
                   EvExec execpath (args l ++ [tmpfile]) fs] ++ post)%list /\
    readFile fs tmpfile = Some script.

End scope.

(** ** A run on the sample machine *)

Module trial.

Import validator linter.

(** A table with one rule and one linter. *)
Definition shOnly : list config :=
  [ {| regexp_ := "(/usr/bin/env |.*/bin/)sh";
       linters := [ {| cmd := "sh"; args := ["-n"] |} ] |} ].

(** The machine after [sample.shScript] went through [shOnly]. *)
Definition after : World :=
  {| files := [];
     trace :=
       [EvCreate "/tmp/catlin-script-linter";
        EvWrite "/tmp/catlin-script-linter" sample.shScript;
        EvClose "/tmp/catlin-script-linter";
        EvExec "/usr/bin/sh" ["-n"; "/tmp/catlin-script-linter"]
          [("/tmp/catlin-script-linter", sample.shScript)];
        EvRemove "/tmp/catlin-script-linter"] |}.


End trial.

(** ** Which scripts the default table selects

    A script whose first line is [#!] followed by [line], read off the
    patterns of [NewConfig]. *)

Module shebang.

(** The rules for sh and bash: [/usr/bin/env], one space and the
    interpreter, or any path that ends in [/bin/] and the interpreter. *)
Definition shebangFor (i line : string) : bool :=
  String.eqb line ("/usr/bin/env " ++ i) || strings.HasSuffix line ("/bin/" ++ i).

(** The white space of [\s] that is not a newline. *)
Definition inlineSpaces : list ascii :=
  [ascii_of_nat 9; ascii_of_nat 12; ascii_of_nat 13; " "%char].

(** The rule for python, for one of the two names its pattern accepts;
    the white space after [/usr/bin/env] may be the newline, and the name
    then stands at the start of the second line. *)
Definition pythonNamed (i line rest : string) : bool :=
  existsb (fun c => String.eqb line ("/usr/bin/env" ++ String c i)) inlineSpaces
  || strings.HasSuffix line ("/bin/" ++ i)
  || String.eqb line ("/usr/libexec/platform-" ++ i)
  || (String.eqb line "/usr/bin/env" && String.prefix (i ++ NL) rest).

Definition pythonFor (line rest : string) : bool :=
  pythonNamed "python" line rest || pythonNamed "python23" line rest.

End shebang.

(** * Properties *)

Unset Implicit Arguments.

(** ** Byte strings *)

Lemma append_empty_r : forall s : string, s ++ "" = s.
Proof.
  induction s as [|c s IH]; simpl; [reflexivity | now rewrite IH].
Qed.

Lemma append_cancel_l : forall a b c : string, a ++ b = a ++ c -> b = c.
Proof.
  induction a as [|x a IH]; intros b c H; simpl in H.
  - exact H.
  - injection H as H. now apply IH.
Qed.

Lemma Contains_append_r : forall a b sub : string,
  strings.Contains b sub = true -> strings.Contains (a ++ b) sub = true.
Proof.
  induction a as [|c a IH]; intros b sub H.
  - exact H.
  - change (String.prefix sub (String c (a ++ b)) || strings.Contains (a ++ b) sub = true).
    rewrite (IH b sub H). apply orb_true_r.
Qed.

(** ** Result *)

(** C8: appending Result B into Result A gives a Result whose findings are
    A's findings followed by B's findings, in their order, and the merge is
    associative. *)
Theorem Result_Append_ordered_assoc : forall A B : validator.Result,
  validator.Lints (validator.Result_Append A B) =
    (validator.Lints A ++ validator.Lints B)%list /\
  forall C : validator.Result,
    validator.Result_Append (validator.Result_Append A B) C =
    validator.Result_Append A (validator.Result_Append B C).
Proof.
  intros A B. split.
  - reflexivity.
  - intros C. unfold validator.Result_Append. simpl.
    now rewrite <- List.app_assoc.
Qed.

(** ** Panics of the script linter *)

(** C4 at the one-byte script [:] (the no-op of a shell): the slice
    [script[0:2]] that looks for the shebang is out of range, and
    [validateScript] panics whatever the table and the machine are. *)
Theorem validateScript_one_byte_panics :
  forall Quote host taskName configs stepName w,
    linter.validateScript Quote host taskName ":" configs stepName w =
    Panicked "slice bounds out of range [:2]".
Proof.
  reflexivity.
Qed.

(** C3 at a Task whose only step runs the 13-byte script [#!/bin/sh],
    newline, [ls], newline: [Validate] of the script linter panics on the
    slice [script[0:14]]; and at a v1beta1 Task it panics on the unchecked
    type assertion to the v1 Task, before any step is read. *)
Theorem taskLinter_Validate_panics :
  forall Quote host w,
    linter.Validate Quote host
      (linter.NewScriptLinter
         (sample.task [sample.step "docker.io/library/busybox:1.36"
                         ("#!/bin/sh" ++ NL ++ "ls" ++ NL) []])) w =
    Panicked "slice bounds out of range [:14]" /\
    linter.Validate Quote host (linter.NewScriptLinter (sample.betaTask [])) w =
    Panicked "interface conversion: interface {} is not *v1.Task".
Proof.
  intros. split; reflexivity.
Qed.

(** ** Failures while a script is linted *)

Section LinterFailures.
Import validator linter observe.
Variable Quote : string -> string.
Variable host : Host.
Variables taskName script stepName : string.



End LinterFailures.


(** ** Variable references in an image *)

Section Variables_.
Import validator observe.
Variable Quote : string -> string.

Lemma Sprintf_braceMatchingRegex : forall prefix,
  fmt.Sprintf Quote braceMatchingRegex [fmt.AStr prefix; fmt.AStr parameterSubstitution] =
  variablePattern prefix.
Proof.
  intros prefix. unfold variablePattern. simpl. reflexivity.
Qed.

Lemma imagePattern_compiles : regexp.Compile (variablePattern "") = Some imageRegex.
Proof. vm_compute. reflexivity. Qed.

Lemma paramsPattern_compiles : regexp.Compile (variablePattern "params") = Some paramsRegex.
Proof. vm_compute. reflexivity. Qed.

Lemma extract_image : forall s,
  extractExpressionFromString Quote s "" =
  match regexp.find imageRegex s with
  | None => Returned ("", false)
  | Some m => Returned (m, true)
  end.
Proof.
  intros s. unfold extractExpressionFromString.
  rewrite Sprintf_braceMatchingRegex, imagePattern_compiles. reflexivity.
Qed.

Lemma extract_params : forall s,
  extractExpressionFromString Quote s "params" =
  match regexp.find paramsRegex s with
  | None => Returned ("", false)
  | Some m => Returned (m, true)
  end.
Proof.
  intros s. unfold extractExpressionFromString.
  rewrite Sprintf_braceMatchingRegex, paramsPattern_compiles. reflexivity.
Qed.

End Variables_.

(** A one-byte needle is found in a string exactly when it is one of its
    bytes. *)
Lemma Contains_byte_cons : forall a s c,
  strings.Contains (String a s) (String c "") =
  Ascii.eqb c a || strings.Contains s (String c "").
Proof.
  intros a s c.
  change (String.prefix (String c "") (String a s) || strings.Contains s (String c "") =
          Ascii.eqb c a || strings.Contains s (String c "")).
  f_equal. simpl.
  destruct (ascii_dec c a) as [E|N].
  - subst. rewrite Ascii.eqb_refl. now destruct s.
  - symmetry. now apply Ascii.eqb_neq.
Qed.

Lemma Contains_byte_append : forall a b c,
  strings.Contains (a ++ b) (String c "") =
  strings.Contains a (String c "") || strings.Contains b (String c "").
Proof.
  induction a as [|x a IH]; intros b c.
  - reflexivity.
  - change (String x a ++ b) with (String x (a ++ b)).
    rewrite !Contains_byte_cons, IH. apply orb_assoc.
Qed.

Lemma allHex_no_dollar : forall d,
  name.allHex d = true -> strings.Contains d "$" = false.
Proof.
  induction d as [|a d IH]; intros H.
  - reflexivity.
  - simpl in H. apply andb_true_iff in H as [Ha Hd].
    rewrite Contains_byte_cons, (IH Hd), orb_false_r.
    apply Ascii.eqb_neq. intros E. subst a. discriminate Ha.
Qed.

Section Search.
Import regexp.
Variable A : Type.
Variable n0 : nat.

(** A pattern that starts with a literal byte matches nowhere in a subject
    without that byte. *)
Lemma search_Lit_absent : forall c r (k : string -> string -> option A) s skip,
  strings.Contains s (String c "") = false ->
  search n0 (Cat (Lit c) r) skip s k = None.
Proof.
  intros c r k. induction s as [|a s IH]; intros skip H.
  - destruct skip; reflexivity.
  - rewrite Contains_byte_cons in H. apply orb_false_elim in H as [Hc Hs].
    destruct skip as [|j].
    + cbn [search rmatch]. rewrite Ascii.eqb_sym, Hc. now apply IH.
    + cbn [search]. now apply IH.
Qed.
End Search.

(** A match at the start of the subject is the leftmost one. *)
Lemma search_here : forall (A : Type) n0 r s (k : string -> string -> option A) a,
  regexp.rmatch n0 r s (k s) = Some a -> regexp.search n0 r 0 s k = Some a.
Proof.
  intros A n0 r s k a H. destruct s; cbn [regexp.search]; now rewrite H.
Qed.

Section NoVariable.
Import validator observe.
Variable Quote : string -> string.

Lemma find_image_no_dollar : forall s,
  strings.Contains s "$" = false -> regexp.find imageRegex s = None.
Proof.
  intros s H. unfold regexp.find.
  assert (E : exists r, imageRegex = regexp.Cat (regexp.Lit "$") r)
    by (eexists; reflexivity).
  destruct E as [r E]. rewrite E. now apply search_Lit_absent.
Qed.

(** An image without a dollar sign holds no variable reference. *)
Lemma extract_no_dollar : forall s,
  strings.Contains s "$" = false ->
  extractExpressionFromString Quote s "" = Returned ("", false).
Proof.
  intros s H. now rewrite extract_image, find_image_no_dollar.
Qed.

Lemma extract_image_returns : forall s,
  exists m b, extractExpressionFromString Quote s "" = Returned (m, b).
Proof.
  intros s. rewrite extract_image. destruct (regexp.find imageRegex s); eauto.
Qed.

Lemma extract_params_returns : forall s,
  exists m b, extractExpressionFromString Quote s "params" = Returned (m, b).
Proof.
  intros s. rewrite extract_params. destruct (regexp.find paramsRegex s); eauto.
Qed.

(** *** The rules after the tag check only add findings *)

Lemma Result_Warn_keeps : forall r format a x,
  In x (Lints r) -> In x (Lints (Result_Warn Quote r format a)).
Proof.
  intros. unfold Result_Warn. simpl. apply in_or_app. now left.
Qed.

Lemma secretEnvRule_keeps : forall version stepName r e x,
  In x (Lints r) -> In x (Lints (secretEnvRule Quote version stepName r e)).
Proof.
  intros version stepName r e x H. unfold secretEnvRule.
  repeat match goal with
         | |- context [if ?b then _ else _] => destruct b
         end; auto using Result_Warn_keeps.
Qed.

Lemma secretEnvFromRule_keeps : forall version stepName r e x,
  In x (Lints r) -> In x (Lints (secretEnvFromRule Quote version stepName r e)).
Proof.
  intros version stepName r e x H. unfold secretEnvFromRule.
  repeat match goal with
         | |- context [if ?b then _ else _] => destruct b
         end; auto using Result_Warn_keeps.
Qed.

Lemma fold_secretEnvRule_keeps : forall version stepName env r x,
  In x (Lints r) ->
  In x (Lints (fold_left (secretEnvRule Quote version stepName) env r)).
Proof.
  induction env as [|e env IH]; intros r x H; simpl; auto using secretEnvRule_keeps.
Qed.

Lemma fold_secretEnvFromRule_keeps : forall version stepName envFrom r x,
  In x (Lints r) ->
  In x (Lints (fold_left (secretEnvFromRule Quote version stepName) envFrom r)).
Proof.
  induction envFrom as [|e l IH]; intros r x H; simpl; auto using secretEnvFromRule_keeps.
Qed.

(** The rules on the environment and the script return, and keep the
    findings they were given. *)
Lemma envAndScriptRules_returns : forall version stepName script env envFrom r,
  exists r', envAndScriptRules Quote version stepName script env envFrom r = Returned r' /\
             forall x, In x (Lints r) -> In x (Lints r').
Proof.
  intros version stepName script env envFrom r. unfold envAndScriptRules.
  destruct (negb (script =? "")%string).
  - destruct (extract_params_returns script) as (m & b & E). rewrite E.
    destruct (negb (m =? "")%string); eexists; split; try reflexivity; intros x H.
    + apply Result_Warn_keeps.
      now apply fold_secretEnvFromRule_keeps, fold_secretEnvRule_keeps.
    + now apply fold_secretEnvFromRule_keeps, fold_secretEnvRule_keeps.
  - eexists; split; [reflexivity|]. intros x H.
    now apply fold_secretEnvFromRule_keeps, fold_secretEnvRule_keeps.
Qed.

End NoVariable.

(** ** Messages *)

Lemma message_step_image : forall Quote tail n i rest,
  fmt.Sprintf Quote ("Step %q uses image %q" ++ tail) (fmt.AStr n :: fmt.AStr i :: rest) =
  "Step " ++ Quote n ++ " uses image " ++ Quote i ++ fmt.Sprintf Quote tail rest.
Proof.
  intros. simpl. reflexivity.
Qed.

(** Two messages that share their operands differ when their texts do. *)
Ltac differ H :=
  simpl in H;
  repeat first [ discriminate H | injection H as H | apply append_cancel_l in H ].

(** ** The image rules of [validateStep] *)

Section ImageRules.
Import validator observe.
Variable Quote : string -> string.
Variable NewDigest : string -> GoResult name.Digest.
Variable NewTag : string -> GoResult name.Tag.

Local Abbreviation validateFields := (validator.validateFields Quote NewDigest NewTag).
Local Abbreviation validateStep := (validator.validateStep Quote NewDigest NewTag).
Local Abbreviation qualifiedFindings := (observe.qualifiedFindings Quote).

Lemma validateStep_fields : forall s step,
  In step (stepOf s) ->
  exists version, validateStep step = validateFields version s.
Proof.
  intros s step [E|[E|[]]]; subst step; eexists; reflexivity.
Qed.

Lemma qualifiedFindings_warnings : forall s x,
  In x (qualifiedFindings s) -> Severity_of x = Warning.
Proof.
  intros s x. unfold observe.qualifiedFindings.
  destruct (_ || _); simpl; intros H; [destruct H as [<-|[]]; reflexivity | contradiction].
Qed.

Lemma qualifiedFindings_not_digest : forall s x,
  In x (qualifiedFindings s) -> Message x <> Message (tagWithDigestWarning Quote s).
Proof.
  intros s x. unfold observe.qualifiedFindings, tagWithDigestWarning, finding.
  destruct (_ || _); simpl; [|tauto].
  intros [<-|[]] H. differ H.
Qed.

(** What [validateFields] does once the variable rule has let the image
    through. *)
Lemma validateFields_no_variable : forall version s m,
  extractExpressionFromString Quote (parser.Image s) "" = Returned (m, false) ->
  validateFields version s =
  let result := {| Lints := qualifiedFindings s |} in
  let stepName := parser.Name s in
  let img := parser.Image s in
  if strings.Contains img "@sha256" then
    match NewDigest img with
    | Err e =>
        Returned (Result_Error Quote result fmtInvalidDigest
                    [fmt.AStr stepName; fmt.AStr img; fmt.AStr e])
    | Ok rep =>
        Returned (if negb (tagWithDigest (name.Digest_String rep))
                  then Result_Warn Quote result fmtTagWithDigest
                         [fmt.AStr stepName; fmt.AStr img]
                  else result)
    end
  else
    match NewTag img with
    | Err e =>
        Returned (Result_Error Quote result fmtInvalidTag
                    [fmt.AStr stepName; fmt.AStr img; fmt.AStr e])
    | Ok ref =>
        envAndScriptRules Quote version stepName (parser.Script s)
          (parser.Env s) (parser.EnvFrom s)
          (if strings.EqualFold (name.Tag_Identifier ref) "latest"
           then Result_Error Quote result fmtSpecificVersion
                  [fmt.AStr stepName; fmt.AStr img]
           else result)
    end.
Proof.
  intros version s m H. unfold validator.validateFields. cbv zeta. rewrite H.
  unfold observe.qualifiedFindings.
  destruct (negb (strings.Contains (parser.Image s) "/") || _); reflexivity.
Qed.

Lemma validateFields_variable : forall version s m,
  extractExpressionFromString Quote (parser.Image s) "" = Returned (m, true) ->
  validateFields version s =
  Returned {| Lints := [finding Quote Warning fmtUsesVars
                          [fmt.AStr (parser.Name s); fmt.AStr (parser.Image s)]] |}.
Proof.
  intros version s m H. unfold validator.validateFields. cbv zeta. now rewrite H.
Qed.

End ImageRules.

(** ** Tags *)

(** C6, as the code has it: on a step whose image holds no variable
    reference, is not given by digest and parses as a tag reference, a tag
    equal to [latest] up to the case of letters makes the result of the
    step hold an Error whose message contains [specific version]; the
    image [host.example.com/repo:latest] is such a one. *)
Theorem latest_tag_is_error :
  forall (Quote : string -> string)
         (NewDigest : string -> GoResult name.Digest)
         (NewTag : string -> GoResult name.Tag)
         (s : parser.Step) (step : validator.StepValue) (ref : name.Tag),
    In step (observe.stepOf s) ->
    validator.extractExpressionFromString Quote (parser.Image s) "" =
      Returned ("", false) ->
    strings.Contains (parser.Image s) "@sha256" = false ->
    NewTag (parser.Image s) = Ok ref ->
    strings.EqualFold (name.Tag_Identifier ref) "latest" = true ->
    exists r x,
      validator.validateStep Quote NewDigest NewTag step = Returned r /\
      In x (validator.Lints r) /\
      validator.Severity_of x = validator.Error /\
      strings.Contains (validator.Message x) "specific version" = true.
Proof.
  intros Quote NewDigest NewTag s step ref Hstep Hvar Hdig Htag Hlatest.
  destruct (validateStep_fields Quote NewDigest NewTag s step Hstep) as [version ->].
  rewrite (validateFields_no_variable Quote NewDigest NewTag version s "" Hvar).
  cbv zeta. rewrite Hdig, Htag, Hlatest.
  match goal with
  | |- context [validator.envAndScriptRules ?q ?v ?n ?sc ?e ?ef ?r0] =>
      destruct (envAndScriptRules_returns q v n sc e ef r0) as (r' & -> & Hkeep)
  end.
  exists r'.
  exists (validator.finding Quote validator.Error validator.fmtSpecificVersion
            [fmt.AStr (parser.Name s); fmt.AStr (parser.Image s)]).
  split; [reflexivity|]. split; [|split].
  - apply Hkeep. unfold validator.Result_Error. simpl. apply in_or_app. right. now left.
  - reflexivity.
  - unfold validator.finding. cbn [validator.Message].
    change validator.fmtSpecificVersion
      with ("Step %q uses image %q" ++ " which must be tagged with a specific version").
    rewrite message_step_image.
    do 4 apply Contains_append_r. vm_compute. reflexivity.
Qed.

Lemma latest_tag_is_error_witness :
  exists r x,
    validator.validateStep sample.Quote sample.NewDigest sample.NewTag
      (validator.V1Step (sample.step "host.example.com/repo:latest" "" [])) = Returned r /\
    In x (validator.Lints r) /\
    validator.Severity_of x = validator.Error /\
    strings.Contains (validator.Message x) "specific version" = true.
Proof.
  apply (latest_tag_is_error sample.Quote sample.NewDigest sample.NewTag
           (sample.step "host.example.com/repo:latest" "" [])
           (validator.V1Step (sample.step "host.example.com/repo:latest" "" []))
           {| name.Tag_Identifier := "latest" |} (or_introl eq_refl));
    vm_compute; reflexivity.
Defined.

(** C6 as stated fails: the image [$(params.registry)/repo:latest] is not
    in digest form and parses as a reference with the tag [latest] (a
    registry may be any URI authority), yet the step gets the Warning of
    the variable rule and no Error. *)
Lemma accepted_latest_without_error :
  ~ observe.accepted_latest_is_error sample.Quote sample.NewDigest sample.NewTag.
Proof.
  intros H.
  destruct (H "v1" sample.variableLatestStep {| name.Tag_Identifier := "latest" |})
    as (r & x & Hr & Hin & Hsev & _).
  - vm_compute. reflexivity.
  - vm_compute. reflexivity.
  - vm_compute. reflexivity.
  - vm_compute in Hr. injection Hr as <-.
    destruct Hin as [<-|[]]. discriminate Hsev.
Qed.

(** ** Digests *)

Section UntaggedDigest.
Import validator observe.
Variable d : string.

Local Abbreviation image := ("host.example.com/repo@sha256:" ++ d).

Lemma untagged_qualified :
  negb (strings.Contains image "/") || negb (isValidRegistry image) = false.
Proof. vm_compute. reflexivity. Qed.

Lemma untagged_is_digest : strings.Contains image "@sha256" = true.
Proof. vm_compute. reflexivity. Qed.

Lemma untagged_has_no_tag : tagWithDigest image = false.
Proof. vm_compute. reflexivity. Qed.

Lemma untagged_no_dollar : name.isHex64 d = true -> strings.Contains image "$" = false.
Proof.
  intros H. unfold name.isHex64 in H. apply andb_true_iff in H as [_ H].
  rewrite Contains_byte_append, (allHex_no_dollar d H). reflexivity.
Qed.
End UntaggedDigest.

(** C5, as the code has it: for every image
    [host.example.com/repo@sha256:<64 hex digits>], which has no tag before
    the digest, the result of the step is exactly the Warning that
    recommends a tag along with the digest, so it holds no Error; and for
    every image that holds no variable reference, is in digest form and
    whose digest the reference parser rejects, the result ends with the
    Error for the invalid digest, holds only Warnings before it, and the
    tag parser is not consulted. *)
Theorem digest_rule_findings :
  forall (Quote : string -> string)
         (NewDigest : string -> GoResult name.Digest)
         (NewTag : string -> GoResult name.Tag)
         (s : parser.Step) (step : validator.StepValue),
    In step (observe.stepOf s) ->
    (forall d,
        parser.Image s = "host.example.com/repo@sha256:" ++ d ->
        name.isHex64 d = true ->
        NewDigest (parser.Image s) = Ok {| name.Digest_String := parser.Image s |} ->
        validator.validateStep Quote NewDigest NewTag step =
        Returned {| validator.Lints := [observe.tagWithDigestWarning Quote s] |}) /\
    (forall e,
        validator.extractExpressionFromString Quote (parser.Image s) "" =
          Returned ("", false) ->
        strings.Contains (parser.Image s) "@sha256" = true ->
        NewDigest (parser.Image s) = Err e ->
        exists pre,
          validator.validateStep Quote NewDigest NewTag step =
          Returned {| validator.Lints :=
                        pre ++ [validator.finding Quote validator.Error
                                  validator.fmtInvalidDigest
                                  [fmt.AStr (parser.Name s); fmt.AStr (parser.Image s);
                                   fmt.AStr e]] |} /\
          (forall x, In x pre -> validator.Severity_of x = validator.Warning) /\
          (forall NewTag',
              validator.validateStep Quote NewDigest NewTag' step =
              validator.validateStep Quote NewDigest NewTag step)).
Proof.
  intros Quote NewDigest NewTag s step Hstep. split.
  - intros d Himg Hhex Hlib.
    destruct (validateStep_fields Quote NewDigest NewTag s step Hstep) as [version ->].
    rewrite (validateFields_no_variable Quote NewDigest NewTag version s "")
      by (apply extract_no_dollar; rewrite Himg; now apply untagged_no_dollar).
    assert (Hq : negb (strings.Contains (parser.Image s) "/")
                 || negb (validator.isValidRegistry (parser.Image s)) = false)
      by (rewrite Himg; apply untagged_qualified).
    assert (Hd : strings.Contains (parser.Image s) "@sha256" = true)
      by (rewrite Himg; apply untagged_is_digest).
    assert (Ht : validator.tagWithDigest (parser.Image s) = false)
      by (rewrite Himg; apply untagged_has_no_tag).
    cbv zeta. unfold observe.qualifiedFindings. rewrite Hlib. cbn [name.Digest_String].
    rewrite Hq, Hd, Ht. reflexivity.
  - intros e Hvar Hdig Hlib.
    exists (observe.qualifiedFindings Quote s). split; [|split].
    + destruct (validateStep_fields Quote NewDigest NewTag s step Hstep) as [version ->].
      rewrite (validateFields_no_variable Quote NewDigest NewTag version s "" Hvar).
      cbv zeta. rewrite Hdig, Hlib. reflexivity.
    + apply qualifiedFindings_warnings.
    + intros NewTag'.
      destruct Hstep as [E|[E|[]]]; subst step; cbn [validator.validateStep];
        rewrite !(validateFields_no_variable Quote NewDigest _ _ s "" Hvar);
        cbv zeta; rewrite Hdig, Hlib; reflexivity.
Qed.

Lemma digest_rule_findings_witness :
  validator.validateStep sample.Quote sample.NewDigest sample.NewTag
    (validator.V1Step sample.untaggedStep) =
  Returned {| validator.Lints :=
                [observe.tagWithDigestWarning sample.Quote sample.untaggedStep] |} /\
  exists pre,
    validator.validateStep sample.Quote sample.NewDigest sample.NewTag
      (validator.V1Step sample.malformedStep) =
    Returned {| validator.Lints :=
                  pre ++ [validator.finding sample.Quote validator.Error
                            validator.fmtInvalidDigest
                            [fmt.AStr (parser.Name sample.malformedStep);
                             fmt.AStr (parser.Image sample.malformedStep);
                             fmt.AStr "invalid checksum digest format"]] |} /\
    (forall x, In x pre -> validator.Severity_of x = validator.Warning) /\
    (forall NewTag',
        validator.validateStep sample.Quote sample.NewDigest NewTag'
          (validator.V1Step sample.malformedStep) =
        validator.validateStep sample.Quote sample.NewDigest sample.NewTag
          (validator.V1Step sample.malformedStep)).
Proof.
  split.
  - apply (proj1 (digest_rule_findings sample.Quote sample.NewDigest sample.NewTag
                    sample.untaggedStep (validator.V1Step sample.untaggedStep)
                    (or_introl eq_refl)) sample.hex64);
      vm_compute; reflexivity.
  - apply (proj2 (digest_rule_findings sample.Quote sample.NewDigest sample.NewTag
                    sample.malformedStep (validator.V1Step sample.malformedStep)
                    (or_introl eq_refl)) "invalid checksum digest format");
      vm_compute; reflexivity.
Defined.

(** C5 as stated fails: the image
    [host.example.com/repo@sha256:$(params.digest)] is in digest form and
    its digest is rejected, yet the step gets the Warning of the variable
    rule and no Error. *)
Lemma malformed_digest_without_error :
  ~ observe.malformed_digest_is_error sample.Quote sample.NewDigest sample.NewTag.
Proof.
  intros H.
  destruct (H "v1" sample.variableStep "invalid checksum digest format")
    as (r & x & Hr & Hin & Hsev).
  - vm_compute. reflexivity.
  - vm_compute. reflexivity.
  - vm_compute in Hr. injection Hr as <-.
    destruct Hin as [<-|[]]. discriminate Hsev.
Qed.

(** C10: on an image in digest form whose part before [@sha256] holds a
    colon and does not end in [:latest], no finding of the step carries the
    message that recommends a tag along with the digest; the colon of a
    registry port counts like the colon of a tag.  The reference parser is
    the library's: a digest reference prints as it was given. *)
Theorem colon_before_digest_silences_warning :
  forall (Quote : string -> string)
         (NewDigest : string -> GoResult name.Digest)
         (NewTag : string -> GoResult name.Tag),
    (forall img rep, NewDigest img = Ok rep -> name.Digest_String rep = img) ->
    forall s step,
      In step (observe.stepOf s) ->
      strings.Contains (parser.Image s) "@sha256" = true ->
      strings.Contains (hd "" (strings.Split (parser.Image s) "@sha256")) ":" = true ->
      strings.HasSuffix (hd "" (strings.Split (parser.Image s) "@sha256")) ":latest" = false ->
      exists r,
        validator.validateStep Quote NewDigest NewTag step = Returned r /\
        forall x, In x (validator.Lints r) ->
                  validator.Message x <>
                  validator.Message (observe.tagWithDigestWarning Quote s).
Proof.
  intros Quote NewDigest NewTag Hlib s step Hstep Hdig Hcolon Hlatest.
  destruct (validateStep_fields Quote NewDigest NewTag s step Hstep) as [version ->].
  destruct (extract_image_returns Quote (parser.Image s)) as (m & [|] & E).
  - rewrite (validateFields_variable Quote NewDigest NewTag version s m E).
    eexists. split; [reflexivity|].
    intros x [<-|[]] H. unfold observe.tagWithDigestWarning, validator.finding in H.
    differ H.
  - rewrite (validateFields_no_variable Quote NewDigest NewTag version s m E).
    cbv zeta. rewrite Hdig.
    destruct (NewDigest (parser.Image s)) as [rep|e] eqn:El.
    + rewrite (Hlib _ _ El). unfold validator.tagWithDigest.
      rewrite Hcolon, Hlatest. cbn [negb andb].
      eexists. split; [reflexivity|]. cbn [validator.Lints].
      apply qualifiedFindings_not_digest.
    + eexists. split; [reflexivity|].
      unfold validator.Result_Error. cbn [validator.Lints].
      intros x Hx. apply in_app_or in Hx as [Hx|[<-|[]]].
      * now apply qualifiedFindings_not_digest.
      * intros H. unfold observe.tagWithDigestWarning, validator.finding in H.
        differ H.
Qed.

Lemma sample_NewDigest_prints_input : forall img rep,
  sample.NewDigest img = Ok rep -> name.Digest_String rep = img.
Proof.
  intros img rep. unfold sample.NewDigest.
  destruct (strings.Split img "@") as [|a [|b [|c l]]]; try discriminate.
  destruct (_ && _); [|discriminate].
  destruct (sample.NewTag a); [|destruct (sample.NewRepository a)];
    try discriminate; intros H; injection H as <-; reflexivity.
Qed.

Lemma colon_before_digest_silences_warning_witness :
  exists r,
    validator.validateStep sample.Quote sample.NewDigest sample.NewTag
      (validator.V1Step sample.portStep) = Returned r /\
    forall x, In x (validator.Lints r) ->
              validator.Message x <>
              validator.Message (observe.tagWithDigestWarning sample.Quote sample.portStep).
Proof.
  apply (colon_before_digest_silences_warning sample.Quote sample.NewDigest sample.NewTag
           sample_NewDigest_prints_input sample.portStep
           (validator.V1Step sample.portStep) (or_introl eq_refl));
    vm_compute; reflexivity.
Defined.




(** ** What the linters are run on *)

Lemma readFile_writeFile : forall fs path data,
  linter.readFile (linter.writeFile fs path data) path = Some data.
Proof.
  intros. unfold linter.writeFile. simpl. now rewrite String.eqb_refl.
Qed.

Lemma runDeferred_trace : forall names w,
  linter.trace (linter.runDeferred names w) =
  (linter.trace w ++ map linter.EvRemove names)%list.
Proof.
  induction names as [|n names IH]; intros w; simpl.
  - now rewrite List.app_nil_r.
  - rewrite IH. simpl. now rewrite <- List.app_assoc.
Qed.

Section LintedContent.
Import validator linter observe.
Variable Quote : string -> string.
Variable host : Host.
Variables taskName script stepName : string.

Lemma adds_nothing : forall f fl (P : list Event -> Prop),
  world (frameOf fl) = world f -> P [] -> adds f fl P.
Proof.
  intros f fl P E H. exists []. rewrite E, List.app_nil_r. now split.
Qed.

Lemma adds_trans : forall f fl fl' (P Q R : list Event -> Prop),
  adds f fl P -> adds (frameOf fl) fl' Q ->
  (forall a b, P a -> Q b -> R (a ++ b)%list) ->
  adds f fl' R.
Proof.
  intros f fl fl' P Q R (a & Ea & Ha) (b & Eb & Hb) H.
  exists (a ++ b)%list. split; [|now apply H].
  now rewrite Eb, Ea, List.app_assoc.
Qed.

Lemma runLinter_lints : forall l f,
  adds f (runLinter Quote host taskName script stepName l f) (Forall (lints script)).
Proof.
  intros l f. unfold runLinter.
  destruct (LookPath host (cmd l)) as [execpath|e].
  2: { apply adds_nothing; [reflexivity | constructor]. }
  destruct (CreateTemp host (world f)) as [tmpfile|e].
  2: { apply adds_nothing; [reflexivity | constructor]. }
  cbv zeta.
  destruct (negb (WriteOk host _ tmpfile script)).
  { exists [EvCreate tmpfile]. split; [reflexivity|]. repeat constructor. }
  destruct (negb (CloseOk host _ tmpfile)).
  { exists [EvCreate tmpfile; EvWrite tmpfile script]. split.
    - simpl. now rewrite <- List.app_assoc.
    - repeat constructor. }
  destruct (CombinedOutput host _ execpath _) as [out ok].
  eexists [EvCreate tmpfile; EvWrite tmpfile script; EvClose tmpfile; EvExec execpath _ _].
  split.
  - simpl. now rewrite <- !List.app_assoc.
  - repeat constructor. cbn [lints]. exists (args l), tmpfile. split; [reflexivity|].
    apply readFile_writeFile.
Qed.

Lemma runLinters_lints : forall ls f,
  adds f (runLinters Quote host taskName script stepName ls f) (Forall (lints script)).
Proof.
  induction ls as [|l ls IH]; intros f; cbn [runLinters].
  - apply adds_nothing; [reflexivity | constructor].
  - pose proof (runLinter_lints l f) as H.
    destruct (runLinter Quote host taskName script stepName l f) as [f'|f'].
    + eapply adds_trans; [exact H | apply (IH f') |].
      intros a b Ha Hb. apply Forall_app. now split.
    + exact H.
Qed.

Lemma runConfigs_lints : forall table f,
  adds f (runConfigs Quote host taskName script stepName table f) (Forall (lints script)).
Proof.
  induction table as [|c table IH]; intros f; cbn [runConfigs].
  - apply adds_nothing; [reflexivity | constructor].
  - destruct (MatchString host _ script) as [[|]|e].
    + pose proof (runLinters_lints (linters c) f) as H.
      destruct (runLinters Quote host taskName script stepName (linters c) f) as [f'|f'].
      * eapply adds_trans; [exact H | apply (IH f') |].
        intros a b Ha Hb. apply Forall_app. now split.
      * exact H.
    + apply IH.
    + apply adds_nothing; [reflexivity | constructor].
Qed.

Lemma leave_lints : forall f fl,
  adds f fl (Forall (lints script)) ->
  exists evs,
    trace (snd (leave fl)) = (trace (world f) ++ evs)%list /\ Forall (lints script) evs.
Proof.
  intros f fl (evs & E & H).
  exists (evs ++ map EvRemove (deferred (frameOf fl)))%list. split.
  - destruct fl as [f'|f']; simpl in *; rewrite runDeferred_trace, E;
      now rewrite List.app_assoc.
  - apply Forall_app. split; [exact H|].
    apply Forall_forall. intros e He. apply in_map_iff in He as (n & <- & _). exact I.
Qed.

End LintedContent.

(** ** Which linters are run *)

Lemma invocations_app : forall a b,
  observe.invocations (a ++ b) = (observe.invocations a ++ observe.invocations b)%list.
Proof.
  induction a as [|e a IH]; intros b; simpl; [reflexivity|].
  destruct e; simpl; now rewrite IH.
Qed.

Lemma invocations_removals : forall names,
  observe.invocations (map linter.EvRemove names) = [].
Proof.
  induction names as [|n names IH]; simpl; [reflexivity | exact IH].
Qed.

Section AllRun.
Import validator linter observe.
Variable Quote : string -> string.
Variable host : Host.
Variables taskName script stepName : string.

Hypothesis temp_created : forall w, exists tmpfile, CreateTemp host w = Ok tmpfile.
Hypothesis temp_written : forall w tmpfile data, WriteOk host w tmpfile data = true.
Hypothesis temp_closed : forall w tmpfile, CloseOk host w tmpfile = true.

Local Abbreviation ran := (observe.ran host).

Lemma runLinter_runs : forall l f,
  (exists p, LookPath host (cmd l) = Ok p) ->
  exists f', runLinter Quote host taskName script stepName l f = Continue f' /\
             adds f (Continue f') (ran [l]).
Proof.
  intros l f [p Hp]. unfold runLinter. rewrite Hp.
  destruct (temp_created (world f)) as [tmpfile ->]. cbv zeta.
  rewrite temp_written, temp_closed. cbn [negb].
  destruct (CombinedOutput host _ p _) as [out ok].
  eexists. split; [reflexivity|].
  eexists [EvCreate tmpfile; EvWrite tmpfile script; EvClose tmpfile; EvExec p _ _]. split.
  - simpl. now rewrite <- !List.app_assoc.
  - unfold observe.ran. simpl. constructor; [|constructor].
    split; [exact Hp | now exists tmpfile].
Qed.

Lemma runLinters_run : forall ls f,
  (forall l, In l ls -> exists p, LookPath host (cmd l) = Ok p) ->
  exists f', runLinters Quote host taskName script stepName ls f = Continue f' /\
             adds f (Continue f') (ran ls).
Proof.
  induction ls as [|l ls IH]; intros f Hres; cbn [runLinters].
  - eexists. split; [reflexivity|]. apply adds_nothing; [reflexivity | constructor].
  - destruct (runLinter_runs l f (Hres l (or_introl eq_refl))) as (f1 & -> & H1).
    destruct (IH f1 (fun l' Hl' => Hres l' (or_intror Hl'))) as (f2 & -> & H2).
    eexists. split; [reflexivity|].
    eapply adds_trans; [exact H1 | exact H2 |].
    intros a b Ha Hb. unfold observe.ran in *. rewrite invocations_app.
    change (l :: ls) with ([l] ++ ls)%list. now apply Forall2_app.
Qed.

Lemma runConfigs_run : forall table f,
  (forall c, In c table ->
             exists b, MatchString host ("^#!" ++ regexp_ c ++ "\n") script = Ok b) ->
  (forall c l, In c table -> In l (linters c) -> exists p, LookPath host (cmd l) = Ok p) ->
  exists f', runConfigs Quote host taskName script stepName table f = Continue f' /\
             adds f (Continue f') (ran (selected host script table)).
Proof.
  induction table as [|c table IH]; intros f Hpat Hres; cbn [runConfigs].
  - eexists. split; [reflexivity|]. apply adds_nothing; [reflexivity | constructor].
  - assert (Hpat' : forall c', In c' table ->
              exists b, MatchString host ("^#!" ++ regexp_ c' ++ "\n") script = Ok b)
      by (intros c' Hc'; apply Hpat; now right).
    assert (Hres' : forall c' l, In c' table -> In l (linters c') ->
              exists p, LookPath host (cmd l) = Ok p)
      by (intros c' l Hc' Hl; apply (Hres c' l); [now right | exact Hl]).
    unfold selected. cbn [flat_map].
    destruct (Hpat c (or_introl eq_refl)) as [[|] ->].
    + destruct (runLinters_run (linters c) f (fun l Hl => Hres c l (or_introl eq_refl) Hl))
        as (f1 & -> & H1).
      destruct (IH f1 Hpat' Hres') as (f2 & -> & H2).
      eexists. split; [reflexivity|].
      eapply adds_trans; [exact H1 | exact H2 |].
      intros a b Ha Hb. unfold observe.ran in *. rewrite invocations_app. now apply Forall2_app.
    + destruct (IH f Hpat' Hres') as (f2 & -> & H2).
      eexists. split; [reflexivity|]. exact H2.
Qed.

End AllRun.

(** C7 as stated fails: on a machine with no room for temporary files
    every command of the table [shRule; anyRule] resolves and both rules
    match the script, and no linter is started; and on the sample machine,
    with the rule of pattern [(] in front of the same two rules, no linter
    is started either. *)
Lemma resolved_linters_not_run :
  ~ observe.resolved_linters_all_run sample.Quote sample.fullHost /\
  ~ observe.resolved_linters_all_run sample.Quote sample.host.
Proof.
  split; intros H.
  - edestruct (H "demo" sample.shScript "build" [sample.shRule; sample.anyRule])
      as (r & w' & Hv & HF).
    + reflexivity.
    + intros c l [<-|[<-|[]]] Hl; simpl in Hl;
        repeat (destruct Hl as [<-|Hl]; [eexists; vm_compute; reflexivity|]);
        destruct Hl.
    + vm_compute in Hv. injection Hv as <- <-.
      vm_compute in HF. inversion HF.
  - edestruct (H "demo" sample.shScript "build"
                 [sample.brokenRule; sample.shRule; sample.anyRule])
      as (r & w' & Hv & HF).
    + reflexivity.
    + intros c l [<-|[<-|[<-|[]]]] Hl; simpl in Hl;
        repeat (destruct Hl as [<-|Hl]; [eexists; vm_compute; reflexivity|]);
        destruct Hl.
    + vm_compute in Hv. injection Hv as <- <-.
      vm_compute in HF. inversion HF.
Qed.

(** ** What does hold of the two [Validate] operations *)

Section Returns.
Import validator.
Variable Quote : string -> string.
Variable NewDigest : string -> GoResult name.Digest.
Variable NewTag : string -> GoResult name.Tag.

Lemma validateFields_returns : forall version s,
  exists r, validateFields Quote NewDigest NewTag version s = Returned r.
Proof.
  intros version s.
  destruct (extract_image_returns Quote (parser.Image s)) as (m & [|] & E).
  - rewrite (validateFields_variable Quote NewDigest NewTag version s m E). eauto.
  - rewrite (validateFields_no_variable Quote NewDigest NewTag version s m E). cbv zeta.
    destruct (strings.Contains (parser.Image s) "@sha256").
    + destruct (NewDigest (parser.Image s)); eauto.
    + destruct (NewTag (parser.Image s)); [|eauto].
      match goal with
      | |- context [envAndScriptRules ?q ?v ?n ?sc ?e ?ef ?r0] =>
          destruct (envAndScriptRules_returns q v n sc e ef r0) as (r' & -> & _)
      end.
      eauto.
Qed.

Lemma validateSteps_returns : forall wrap steps r0,
  (forall s, wrap s = V1Step s) \/ (forall s, wrap s = V1beta1Step s) ->
  exists r, validateSteps Quote NewDigest NewTag wrap steps r0 = Returned r.
Proof.
  intros wrap steps. induction steps as [|s steps IH]; intros r0 Hw; cbn [validateSteps].
  - eauto.
  - assert (E : exists r, validateStep Quote NewDigest NewTag (wrap s) = Returned r).
    { destruct Hw as [Hw|Hw]; rewrite Hw; apply validateFields_returns. }
    destruct E as [r ->]. now apply IH.
Qed.

End Returns.

(** [Validate] of the task validator never panics, and a resource that
    cannot be coerced gives exactly one Error. *)
Theorem taskValidator_Validate_returns :
  forall (Quote : string -> string)
         (NewDigest : string -> GoResult name.Digest)
         (NewTag : string -> GoResult name.Tag)
         (t : validator.taskValidator),
  exists r,
    validator.Validate Quote NewDigest NewTag t = Returned r /\
    forall e, parser.ToType (validator.res t) = Err e ->
              validator.Lints r =
              [ {| validator.Severity_of := validator.Error;
                   validator.Message := "Failed to decode to a Task - " ++ e |} ].
Proof.
  intros Quote NewDigest NewTag t. unfold validator.Validate.
  destruct (parser.ToType (validator.res t)) as [[task|task|task|]|e].
  - destruct (validateSteps_returns Quote NewDigest NewTag validator.V1Step
                (parser.Spec_Steps task) validator.emptyResult) as [r Hr];
      [left; reflexivity|].
    exists r. split; [exact Hr | discriminate].
  - destruct (validateSteps_returns Quote NewDigest NewTag validator.V1beta1Step
                (parser.Spec_Steps task) validator.emptyResult) as [r Hr];
      [right; reflexivity|].
    exists r. split; [exact Hr | discriminate].
  - eexists. split; [reflexivity | discriminate].
  - eexists. split; [reflexivity | discriminate].
  - eexists. split; [reflexivity|].
    intros e' He'. injection He' as <-.
    unfold validator.Result_Error, validator.finding. simpl.
    now rewrite append_empty_r.
Qed.

(** A script of at least two bytes that does not start with a shebang is
    matched under the synthesized line [#!/usr/bin/env sh], gets no Warning
    about its shebang, and the first rule of the default table, the one for
    sh, matches it. *)
Theorem no_shebang_selects_the_sh_rule :
  forall (Quote : string -> string) (taskName script head2 : string),
    slice0 script 2 = Some head2 ->
    head2 <> "#!" ->
    linter.normalizeShebang Quote taskName script =
      Returned ("#!/usr/bin/env sh" ++ NL ++ script, validator.emptyResult) /\
    exists rest,
      linter.NewConfig = sample.shRule :: rest /\
      regexp.MatchString ("^#!" ++ linter.regexp_ sample.shRule ++ "\n")
        ("#!/usr/bin/env sh" ++ NL ++ script) = Ok true.
Proof.
  intros Quote taskName script head2 Hslice Hhead. split.
  - unfold linter.normalizeShebang. rewrite Hslice.
    apply String.eqb_neq in Hhead. now rewrite Hhead.
  - eexists. split; [reflexivity|].
    unfold regexp.MatchString.
    assert (E : exists r,
               regexp.Compile ("^#!" ++ linter.regexp_ sample.shRule ++ "\n") =
               Some (regexp.Cat regexp.Begin r) /\
               forall n0 t, regexp.rmatch n0 r ("#!/usr/bin/env sh" ++ NL ++ t)
                              (fun _ => Some tt) = Some tt).
    { eexists. split; [vm_compute; reflexivity|].
      intros n0 t. reflexivity. }
    destruct E as (r & -> & Hr). f_equal.
    unfold regexp.matches.
    rewrite (search_here unit _ _ _ _ tt); [reflexivity|].
    cbn [regexp.rmatch]. rewrite Nat.eqb_refl. apply Hr.
Qed.

Lemma no_shebang_selects_the_sh_rule_witness :
  linter.normalizeShebang sample.Quote "demo" sample.plainScript =
    Returned ("#!/usr/bin/env sh" ++ NL ++ sample.plainScript, validator.emptyResult) /\
  exists rest,
    linter.NewConfig = sample.shRule :: rest /\
    regexp.MatchString ("^#!" ++ linter.regexp_ sample.shRule ++ "\n")
      ("#!/usr/bin/env sh" ++ NL ++ sample.plainScript) = Ok true.
Proof.
  apply (no_shebang_selects_the_sh_rule sample.Quote "demo" sample.plainScript "ec").
  - reflexivity.
  - discriminate.
Defined.

(** [Validate] of the script linter turns a resource that cannot be coerced
    into exactly one Error, and starts nothing. *)
Theorem taskLinter_decode_failure :
  forall (Quote : string -> string) (host : linter.Host) (t : linter.taskLinter)
         (w : linter.World) (e : string),
    parser.ToType (linter.res t) = Err e ->
    linter.Validate Quote host t w =
    Returned ({| validator.Lints :=
                   [ {| validator.Severity_of := validator.Error;
                        validator.Message := "Failed to decode to a Task - " ++ e |} ] |},
              w).
Proof.
  intros Quote host t w e H. unfold linter.Validate. rewrite H.
  unfold validator.Result_Error, validator.finding. simpl.
  now rewrite append_empty_r.
Qed.

Lemma taskLinter_decode_failure_witness :
  linter.Validate sample.Quote sample.host
    (linter.NewScriptLinter
       {| parser.Kind := "Task"; parser.ToType := Err "unknown kind" |})
    sample.world0 =
  Returned ({| validator.Lints :=
                 [ {| validator.Severity_of := validator.Error;
                      validator.Message := "Failed to decode to a Task - unknown kind" |} ] |},
            sample.world0).
Proof.
  apply (taskLinter_decode_failure sample.Quote sample.host
           (linter.NewScriptLinter
              {| parser.Kind := "Task"; parser.ToType := Err "unknown kind" |})
           sample.world0 "unknown kind").
  reflexivity.
Defined.

(** * Further properties *)

(** ** The matcher and what a pattern matches *)

Section Matcher.
Import regexp matching.
Variable A : Type.
Variable n0 : nat.

(** Whatever the matcher answers, it answers from a continuation reached
    after a match. *)
Lemma rmatch_sound : forall r s (k : string -> option A) a,
  rmatch n0 r s k = Some a ->
  exists s', consumes n0 r s s' /\ k s' = Some a.
Proof.
  induction r as [| c | | neg ranges | | | r1 IH1 r2 IH2 | r1 IH1 r2 IH2 | r1 IH1];
    intros s k a H; cbn [rmatch] in H.
  - exists s. split; [constructor | exact H].
  - destruct s as [|b s]; [discriminate|].
    destruct (Ascii.eqb_spec b c) as [->|]; [|discriminate].
    exists s. split; [constructor | exact H].
  - destruct s as [|b s]; [discriminate|].
    destruct (Ascii.eqb_spec b nl) as [|Hn]; [discriminate|].
    eexists. split; [now constructor | exact H].
  - destruct s as [|b s]; [discriminate|].
    destruct (utf8.byte b <? 128) eqn:Hb.
    + destruct (xorb neg (inRanges b ranges)) eqn:Hx; [|discriminate].
      exists s. split; [|exact H].
      apply consumes_Class_byte; [now apply Nat.ltb_lt | exact Hx].
    + destruct neg; [|discriminate].
      eexists. split; [|exact H].
      apply consumes_Class_rune. now apply Nat.ltb_ge.
  - destruct (Nat.eqb_spec (String.length s) n0); [|discriminate].
    exists s. split; [now constructor | exact H].
  - destruct s; [|discriminate]. exists "". split; [constructor | exact H].
  - apply IH1 in H as (s1 & H1 & H). apply IH2 in H as (s2 & H2 & H).
    exists s2. split; [econstructor; eassumption | exact H].
  - destruct (rmatch n0 r1 s k) as [a1|] eqn:E1.
    + injection H as <-. apply IH1 in E1 as (s' & H1 & E1).
      exists s'. split; [now apply consumes_Alt_l | exact E1].
    + apply IH2 in H as (s' & H2 & H).
      exists s'. split; [now apply consumes_Alt_r | exact H].
  - remember (String.length s) as fuel eqn:Ef. clear Ef.
    revert s H. induction fuel as [|fuel IHf]; intros s H.
    + exists s. split; [constructor | exact H].
    + match type of H with
      | match ?m with _ => _ end = _ => destruct m as [a1|] eqn:E1
      end.
      * injection H as <-. apply IH1 in E1 as (s1 & H1 & E1).
        destruct (Nat.ltb_spec (String.length s1) (String.length s)) as [Hl|];
          [|discriminate].
        apply IHf in E1 as (s2 & H2 & E2).
        exists s2. split; [eapply consumes_Star_pass; eassumption | exact E2].
      * exists s. split; [constructor | exact H].
Qed.

(** And where a match leads to a continuation that answers, the matcher
    answers. *)
Lemma rmatch_complete : forall r s s',
  consumes n0 r s s' ->
  forall (k : string -> option A) a, k s' = Some a ->
  exists a', rmatch n0 r s k = Some a'.
Proof.
  induction r as [| c | | neg ranges | | | r1 IH1 r2 IH2 | r1 IH1 r2 IH2 | r1 IH1];
    intros s s' H k a Hk; cbn [rmatch].
  - inversion H; subst. eauto.
  - inversion H; subst. rewrite Ascii.eqb_refl. eauto.
  - inversion H; subst.
    destruct (Ascii.eqb_spec a0 nl); [contradiction|]. eauto.
  - inversion H; subst.
    + match goal with Hb : utf8.byte _ < 128 |- _ =>
        apply Nat.ltb_lt in Hb; rewrite Hb end.
      match goal with Hx : xorb _ _ = true |- _ => rewrite Hx end. eauto.
    + match goal with Hb : 128 <= utf8.byte _ |- _ =>
        apply Nat.ltb_ge in Hb; rewrite Hb end. eauto.
  - inversion H; subst. rewrite Nat.eqb_refl. eauto.
  - inversion H; subst. eauto.
  - inversion H; subst.
    match goal with
    | H1 : consumes _ r1 _ ?s1, H2 : consumes _ r2 ?s1 _ |- _ =>
        destruct (IH2 _ _ H2 k a Hk) as [a2 E2];
        apply (IH1 _ _ H1 (fun s1 => rmatch n0 r2 s1 k) a2 E2)
    end.
  - inversion H; subst.
    + match goal with H1 : consumes _ r1 _ _ |- _ =>
        destruct (IH1 _ _ H1 k a Hk) as [a1 ->] end. eauto.
    + destruct (rmatch n0 r1 s k); [eauto|].
      match goal with H2 : consumes _ r2 _ _ |- _ => apply (IH2 _ _ H2 k a Hk) end.
  - assert (G : forall fuel s, String.length s <= fuel ->
                consumes n0 (Star r1) s s' ->
                exists a',
                  (fix loop (fuel : nat) (s : string) {struct fuel} : option A :=
                     match fuel with
                     | 0 => k s
                     | S fuel' =>
                         match rmatch n0 r1 s (fun s' =>
                                 if String.length s' <? String.length s
                                 then loop fuel' s' else None) with
                         | Some a => Some a
                         | None => k s
                         end
                     end) fuel s = Some a').
    { induction fuel as [|fuel IHf]; intros t Hlen Ht.
      - inversion Ht; subst; [eauto | lia].
      - inversion Ht; subst.
        + match goal with |- context [match ?m with _ => _ end] => destruct m end; eauto.
        + match goal with
          | H1 : consumes _ r1 t ?s1, Hl : String.length ?s1 < _,
            H2 : consumes _ (Star r1) ?s1 _ |- _ =>
              destruct (IHf s1 ltac:(lia) H2) as [a2 E2];
              apply Nat.ltb_lt in Hl;
              match goal with
              | |- context [rmatch n0 r1 t ?K] =>
                  destruct (IH1 _ _ H1 K a2) as [a3 E3];
                  [cbv beta; rewrite Hl; exact E2 | rewrite E3; eauto]
              end
          end. }
    apply G; [lia | exact H].
Qed.

End Matcher.

Lemma append_assoc : forall a b c : string, (a ++ b) ++ c = a ++ (b ++ c).
Proof.
  induction a as [|x a IH]; intros b c; simpl; [reflexivity | now rewrite IH].
Qed.

Lemma take_drop : forall n s, take n s ++ drop n s = s.
Proof.
  induction n as [|n IH]; intros s; [reflexivity|].
  destruct s as [|c s]; [reflexivity|]. simpl. now rewrite IH.
Qed.

Lemma length_append : forall a b : string,
  String.length (a ++ b) = String.length a + String.length b.
Proof.
  induction a as [|c a IH]; intros b; simpl; [reflexivity | now rewrite IH].
Qed.

Lemma take_append_length : forall a b : string,
  take (String.length (a ++ b) - String.length b) (a ++ b) = a.
Proof.
  intros a b. rewrite length_append.
  replace (String.length a + String.length b - String.length b) with (String.length a) by lia.
  induction a as [|c a IH]; simpl; [reflexivity | now rewrite IH].
Qed.

Section Consumes.
Import regexp matching.
Variable n0 : nat.

(** A match leaves an end part of the subject. *)
Lemma consumes_suffix : forall r s s',
  consumes n0 r s s' -> exists m, s = m ++ s'.
Proof.
  induction 1;
    try (exists ""; reflexivity);
    try (eexists (String _ ""); reflexivity);
    try (eexists; symmetry; apply take_drop).
  - destruct IHconsumes1 as [m1 ->]. destruct IHconsumes2 as [m2 ->].
    exists (m1 ++ m2). now rewrite append_assoc.
  - assumption.
  - assumption.
  - destruct IHconsumes1 as [m1 ->]. destruct IHconsumes2 as [m2 ->].
    exists (m1 ++ m2). now rewrite append_assoc.
Qed.

Lemma consumes_length : forall r s s',
  consumes n0 r s s' -> String.length s' <= String.length s.
Proof.
  intros r s s' H. destruct (consumes_suffix r s s' H) as [m ->].
  rewrite length_append. lia.
Qed.

End Consumes.

(** ** Where the leftmost search looks *)

Section Runes.
Import matching.

Lemma cont_byte : forall c, utf8.cont c = true -> 128 <= utf8.byte c.
Proof.
  intros c H. unfold utf8.cont, utf8.between in H.
  apply andb_true_iff in H as [H _]. now apply Nat.leb_le in H.
Qed.

Lemma between_byte : forall lo hi c,
  128 <= lo -> utf8.between lo hi c = true -> 128 <= utf8.byte c.
Proof.
  intros lo hi c Hlo H. unfold utf8.between in H.
  apply andb_true_iff in H as [H _]. apply Nat.leb_le in H. lia.
Qed.

(** The bytes of a rune after its first byte are bytes of the inside. *)
Lemma runeWidth_inside : forall c s,
  inside (utf8.runeWidth (String c s) - 1) s.
Proof.
  intros c s. unfold utf8.runeWidth.
  destruct (utf8.byte c <? 128); [exact I|].
  destruct (utf8.between 194 223 c).
  { destruct s as [|b1 s]; [exact I|].
    destruct (utf8.cont b1) eqn:E1; [|exact I].
    simpl. split; [now apply cont_byte | exact I]. }
  destruct (utf8.between 224 239 c).
  { destruct s as [|b1 [|b2 s]]; try exact I.
    match goal with |- context [if ?b then 3 else 1] => destruct b eqn:E end; [|exact I].
    apply andb_true_iff in E as [E1 E2].
    simpl. repeat split; try now apply cont_byte.
    eapply between_byte; [|exact E1]. destruct (utf8.byte c =? 224); lia. }
  destruct (utf8.between 240 244 c); [|exact I].
  destruct s as [|b1 [|b2 [|b3 s]]]; try exact I.
  match goal with |- context [if ?b then 4 else 1] => destruct b eqn:E end; [|exact I].
  apply andb_true_iff in E as [E E3]. apply andb_true_iff in E as [E1 E2].
  simpl. repeat split; try now apply cont_byte.
  eapply between_byte; [|exact E1]. destruct (utf8.byte c =? 240); lia.
Qed.

Lemma runeWidth_positive : forall c s, 1 <= utf8.runeWidth (String c s).
Proof.
  intros c s. unfold utf8.runeWidth.
  repeat match goal with
         | |- context [if ?b then _ else _] => destruct b
         | |- context [match ?t with EmptyString => _ | String _ _ => _ end] => destruct t
         end; lia.
Qed.

(** Bytes of the inside do not reach a byte that is a rune of its own. *)
Lemma inside_before : forall n pre u,
  startsAscii u -> inside n (pre ++ u) -> n <= String.length pre.
Proof.
  induction n as [|n IH]; intros pre u Hu H; [lia|].
  destruct pre as [|c pre].
  - destruct u as [|c u]; simpl in *; [contradiction | lia].
  - simpl in H. destruct H as [_ H]. simpl. apply IH in H; [lia | exact Hu].
Qed.

End Runes.

Section LeftmostSearch.
Import regexp matching.
Variable A : Type.
Variable n0 : nat.

Lemma search_sound : forall r s skip (k : string -> string -> option A) a,
  search n0 r skip s k = Some a ->
  exists pre u s', s = pre ++ u /\ consumes n0 r u s' /\ k u s' = Some a.
Proof.
  intros r. induction s as [|c s IH]; intros skip k a H.
  - destruct skip; cbn [search] in H; [|discriminate].
    destruct (rmatch n0 r "" (k "")) as [a1|] eqn:E; [|discriminate].
    injection H as <-. apply rmatch_sound in E as (s' & Hc & Hk).
    exists "", "", s'. auto.
  - destruct skip as [|j]; cbn [search] in H.
    + destruct (rmatch n0 r (String c s) (k (String c s))) as [a1|] eqn:E.
      * injection H as <-. apply rmatch_sound in E as (s' & Hc & Hk).
        exists "", (String c s), s'. auto.
      * apply IH in H as (pre & u & s' & -> & Hc & Hk).
        exists (String c pre), u, s'. auto.
    + apply IH in H as (pre & u & s' & -> & Hc & Hk).
      exists (String c pre), u, s'. auto.
Qed.

(** A match that starts at a byte that is a rune of its own is not stepped
    over. *)
Lemma search_complete : forall r u s' (k : string -> string -> option A) a,
  startsAscii u ->
  consumes n0 r u s' ->
  k u s' = Some a ->
  forall pre skip,
    inside skip (pre ++ u) ->
    exists a', search n0 r skip (pre ++ u) k = Some a'.
Proof.
  intros r u s' k a Hu Hc Hk.
  induction pre as [|c pre IH]; intros skip Hin.
  - apply inside_before with (pre := "") in Hin; [|exact Hu].
    simpl in Hin. assert (skip = 0) as -> by lia.
    destruct (rmatch_complete A n0 r u s' Hc (k u) a Hk) as [a' E].
    exists a'. simpl. destruct u; cbn [search]; now rewrite E.
  - change (String c pre ++ u) with (String c (pre ++ u)) in *.
    destruct skip as [|j]; cbn [search].
    + destruct (rmatch n0 r (String c (pre ++ u)) (k (String c (pre ++ u)))); [eauto|].
      apply IH. apply runeWidth_inside.
    + apply IH. simpl in Hin. tauto.
Qed.

End LeftmostSearch.

Section Find.
Import regexp matching.

(** The text [find] gives is a piece of the subject that the pattern
    matches where it stands. *)
Lemma find_sound : forall r s m,
  find r s = Some m ->
  exists pre post,
    s = pre ++ m ++ post /\ consumes (String.length s) r (m ++ post) post.
Proof.
  intros r s m H. unfold find in H.
  apply search_sound in H as (pre & u & s' & -> & Hc & Hk).
  injection Hk as <-.
  destruct (consumes_suffix _ r u s' Hc) as [m ->].
  rewrite take_append_length. exists pre, s'. auto.
Qed.

Lemma find_complete : forall r pre u s',
  startsAscii u ->
  consumes (String.length (pre ++ u)) r u s' ->
  exists m, find r (pre ++ u) = Some m.
Proof.
  intros r pre u s' Hu Hc. unfold find.
  eapply search_complete with (s' := s'); eauto. exact I.
Qed.

Lemma find_none : forall r s,
  (forall pre u s', s = pre ++ u -> ~ consumes (String.length s) r u s') ->
  find r s = None.
Proof.
  intros r s H. destruct (find r s) as [m|] eqn:E; [|reflexivity].
  apply find_sound in E as (pre & post & Es & Hc).
  exfalso. eapply H; eassumption.
Qed.

End Find.

(** ** References to variables *)

Lemma append_cancel_r : forall a b c : string, a ++ c = b ++ c -> a = b.
Proof.
  induction a as [|x a IH]; intros b c H.
  - destruct b as [|y b]; [reflexivity|].
    apply (f_equal String.length) in H. simpl in H. rewrite length_append in H. lia.
  - destruct b as [|y b].
    + apply (f_equal String.length) in H. simpl in H. rewrite length_append in H. lia.
    + simpl in H. injection H as -> H. f_equal. now apply IH in H.
Qed.

Lemma prefix_append : forall p s : string, String.prefix p (p ++ s) = true.
Proof.
  induction p as [|c p IH]; intros s; simpl.
  - now destruct s.
  - destruct (ascii_dec c c) as [_|N]; [apply IH | now elim N].
Qed.

Lemma Contains_prefix : forall p pre u,
  String.prefix p u = true -> strings.Contains (pre ++ u) p = true.
Proof.
  intros p pre u H. apply Contains_append_r.
  destruct u; cbn [strings.Contains]; rewrite H; reflexivity.
Qed.

Section Lits.
Import regexp matching.
Variable n0 : nat.

Lemma consumes_lits : forall p r t s',
  consumes n0 r t s' -> consumes n0 (lits p r) (p ++ t) s'.
Proof.
  induction p as [|c p IH]; intros r t s' H; simpl; [exact H|].
  econstructor; [constructor | now apply IH].
Qed.

Lemma consumes_lits_inv : forall p r s s',
  consumes n0 (lits p r) s s' -> exists t, s = p ++ t /\ consumes n0 r t s'.
Proof.
  induction p as [|c p IH]; intros r s s' H; simpl in H.
  - exists s. auto.
  - inversion H; subst.
    match goal with H1 : consumes _ (Lit _) _ _ |- _ => inversion H1; subst end.
    match goal with H2 : consumes _ (lits _ _) _ _ |- _ =>
      apply IH in H2 as (t & -> & H2) end.
    exists t. auto.
Qed.

Lemma consumes_Lit_inv : forall c s s',
  consumes n0 (Lit c) s s' -> s = String c s'.
Proof. intros c s s' H. now inversion H. Qed.

Lemma inRanges_name_ascii : forall c,
  inRanges c nameRest = true -> utf8.byte c < 128.
Proof.
  intros c H. unfold inRanges, nameRest in H. cbn [existsb fst snd] in H.
  unfold utf8.between in H. set (b := utf8.byte c) in *.
  repeat match goal with
         | H : _ || _ = true |- _ => apply orb_true_iff in H as [H|H]
         | H : _ && _ = true |- _ => apply andb_true_iff in H as [_ H]
         end; try discriminate;
    clearbody b; apply Nat.leb_le in H; vm_compute in H; lia.
Qed.

Lemma nameStart_nameRest : forall c,
  inRanges c nameStart = true -> inRanges c nameRest = true.
Proof.
  intros c H. unfold inRanges, nameStart, nameRest in *. cbn [existsb fst snd] in *.
  repeat match goal with
         | H : _ || _ = true |- _ => apply orb_true_iff in H as [H|H]
         end; try discriminate; rewrite H; repeat rewrite orb_true_r; reflexivity.
Qed.

(** The repetition of the class of a name reads a whole run of its bytes. *)
Lemma consumes_name_rest : forall n t,
  allIn nameRest n = true ->
  consumes n0 (Star (Class false nameRest)) (n ++ t) t.
Proof.
  induction n as [|c n IH]; intros t H; simpl.
  - constructor.
  - cbn [allIn] in H. apply andb_true_iff in H as [Hc Hn].
    eapply consumes_Star_pass; [| | apply IH; exact Hn].
    + apply consumes_Class_byte; [now apply inRanges_name_ascii | now rewrite Hc].
    + simpl. lia.
Qed.

Lemma consumes_Any_byte : forall c s,
  utf8.byte c < 128 -> c <> nl -> consumes n0 AnyNotNL (String c s) s.
Proof.
  intros c s Hc Hnl.
  assert (E : drop (utf8.runeWidth (String c s)) (String c s) = s).
  { unfold utf8.runeWidth. apply Nat.ltb_lt in Hc. now rewrite Hc. }
  rewrite <- E at 2. now constructor.
Qed.

(** The tail of the pattern matches a rune, a name, an optional [[*]] and
    the parenthesis. *)
Lemma consumes_referenceTail : forall c name suffix post,
  utf8.byte c < 128 -> c <> nl ->
  isName name = true ->
  In suffix [""; "[*]"] ->
  consumes n0 referenceTail (String c name ++ suffix ++ ")" ++ post) post.
Proof.
  intros c name suffix post Hc Hnl Hname Hsuf. unfold referenceTail.
  destruct name as [|a name]; [discriminate|].
  cbn [isName] in Hname. apply andb_true_iff in Hname as [Ha Hn].
  change (String c (String a name) ++ suffix ++ ")" ++ post)
    with (String c (String a (name ++ suffix ++ ")" ++ post))).
  apply consumes_Cat with (s1 := String a (name ++ suffix ++ ")" ++ post));
    [now apply consumes_Any_byte|].
  apply consumes_Cat with (s1 := ")" ++ post); [|apply consumes_Lit].
  apply consumes_Cat with (s1 := name ++ suffix ++ ")" ++ post).
  { apply consumes_Class_byte.
    - apply inRanges_name_ascii. now apply nameStart_nameRest.
    - now rewrite Ha. }
  apply consumes_Cat with (s1 := suffix ++ ")" ++ post).
  { apply consumes_name_rest. exact Hn. }
  destruct Hsuf as [<-|[<-|[]]].
  - apply consumes_Alt_r. constructor.
  - apply consumes_Alt_l.
    apply consumes_Cat with (s1 := "*]" ++ ")" ++ post); [apply consumes_Lit|].
    apply consumes_Cat with (s1 := "]" ++ ")" ++ post); apply consumes_Lit.
Qed.

Lemma consumes_Cat_inv : forall r1 r2 s s2,
  consumes n0 (Cat r1 r2) s s2 ->
  exists s1, consumes n0 r1 s s1 /\ consumes n0 r2 s1 s2.
Proof. intros r1 r2 s s2 H. inversion H; subst. eauto. Qed.

Lemma consumes_referenceTail_inv : forall t s',
  consumes n0 referenceTail t s' -> exists body, t = body ++ ")" ++ s'.
Proof.
  intros t s' H. unfold referenceTail in H.
  apply consumes_Cat_inv in H as (t1 & H1 & H).
  apply consumes_Cat_inv in H as (t2 & H2 & H3).
  apply consumes_suffix in H1 as [m1 ->].
  apply consumes_suffix in H2 as [m2 ->].
  apply consumes_Lit_inv in H3 as ->.
  exists (m1 ++ m2). now rewrite append_assoc.
Qed.

End Lits.

Section Extract.
Import validator observe regexp matching.
Variable Quote : string -> string.

Lemma imageRegex_lits : imageRegex = lits "$(" referenceTail.
Proof. reflexivity. Qed.

Lemma paramsRegex_lits : paramsRegex = lits "$(params" referenceTail.
Proof. reflexivity. Qed.

Lemma extract_find : forall s prefix,
  In prefix [""; "params"] ->
  extractExpressionFromString Quote s prefix =
  match find (lits ("$(" ++ prefix) referenceTail) s with
  | None => Returned ("", false)
  | Some m => Returned (m, true)
  end.
Proof.
  intros s prefix [<-|[<-|[]]].
  - rewrite extract_image, imageRegex_lits. reflexivity.
  - rewrite extract_params, paramsRegex_lits. reflexivity.
Qed.

Lemma find_reference_shape : forall p s m,
  find (lits p referenceTail) s = Some m ->
  exists pre body post, m = p ++ body ++ ")" /\ s = pre ++ m ++ post.
Proof.
  intros p s m H. apply find_sound in H as (pre & post & Es & Hc).
  apply consumes_lits_inv in Hc as (t & Et & Hc).
  apply consumes_referenceTail_inv in Hc as (body & ->).
  exists pre, body, post. split; [|exact Es].
  apply (append_cancel_r _ _ post). rewrite Et.
  now rewrite !append_assoc.
Qed.

Lemma find_reference_absent : forall p s,
  strings.Contains s p = false -> find (lits p referenceTail) s = None.
Proof.
  intros p s H. apply find_none. intros pre u s' -> Hc.
  apply consumes_lits_inv in Hc as (t & -> & _).
  rewrite (Contains_prefix p pre (p ++ t)) in H; [discriminate|].
  apply prefix_append.
Qed.

Lemma find_reference_present : forall p pre c name suffix post,
  startsAscii p ->
  utf8.byte c < 128 -> c <> nl ->
  isName name = true ->
  In suffix [""; "[*]"] ->
  exists m,
    find (lits p referenceTail) (pre ++ p ++ String c name ++ suffix ++ ")" ++ post) = Some m.
Proof.
  intros p pre c name suffix post Hp Hc Hnl Hname Hsuf.
  apply find_complete with (s' := post).
  - destruct p; [contradiction | exact Hp].
  - apply consumes_lits. now apply consumes_referenceTail.
Qed.

End Extract.

(** ** The rules on the environment and on the script *)

Section EnvRules.
Import validator observe expect.
Variable Quote : string -> string.

Lemma fold_secretEnvRule : forall version stepName env r,
  In version ["v1"; "v1beta1"] ->
  Lints (fold_left (secretEnvRule Quote version stepName) env r) =
  (Lints r ++
   map (fun e => finding Quote Warning fmtSecretEnv
                   [fmt.AStr stepName; fmt.AStr (parser.Env_Name e)])
       (filter keyFromSecret env))%list.
Proof.
  intros version stepName env r Hv.
  revert r. induction env as [|e env IH]; intros r; cbn [fold_left filter map].
  - now rewrite List.app_nil_r.
  - rewrite IH. unfold secretEnvRule, keyFromSecret.
    destruct Hv as [<-|[<-|[]]]; cbn [String.eqb Ascii.eqb Bool.eqb];
      destruct (parser.ValueFrom e) as [src|]; try reflexivity;
      destruct (parser.SecretKeyRef src); try reflexivity;
      unfold Result_Warn; cbn [Lints map]; now rewrite <- List.app_assoc.
Qed.

Lemma fold_secretEnvFromRule : forall version stepName envFrom r,
  In version ["v1"; "v1beta1"] ->
  Lints (fold_left (secretEnvFromRule Quote version stepName) envFrom r) =
  (Lints r ++
   map (fun _ => finding Quote Warning fmtSecretEnvFrom [fmt.AStr stepName])
       (filter fromSecret envFrom))%list.
Proof.
  intros version stepName envFrom r Hv.
  revert r. induction envFrom as [|e l IH]; intros r; cbn [fold_left filter map].
  - now rewrite List.app_nil_r.
  - rewrite IH. unfold secretEnvFromRule, fromSecret.
    destruct Hv as [<-|[<-|[]]]; cbn [String.eqb Ascii.eqb Bool.eqb];
      destruct (parser.SecretRef e); try reflexivity;
      unfold Result_Warn; cbn [Lints map]; now rewrite <- List.app_assoc.
Qed.

Lemma find_params_nonempty : forall s m,
  regexp.find paramsRegex s = Some m -> (m =? "")%string = false.
Proof.
  intros s m H. rewrite paramsRegex_lits in H.
  apply find_reference_shape in H as (pre & body & post & -> & _). reflexivity.
Qed.

Lemma find_params_empty : regexp.find paramsRegex "" = None.
Proof. reflexivity. Qed.

Lemma Result_eta : forall r : Result, r = {| Lints := Lints r |}.
Proof. now intros []. Qed.

Lemma envAndScriptRules_findings : forall version s r,
  In version ["v1"; "v1beta1"] ->
  envAndScriptRules Quote version (parser.Name s) (parser.Script s)
    (parser.Env s) (parser.EnvFrom s) r =
  Returned {| Lints := Lints r ++ secretEnvFindings Quote s ++
                       secretEnvFromFindings Quote s ++ paramFindings Quote s |}.
Proof.
  intros version s r Hv. unfold envAndScriptRules, paramFindings.
  set (r2 := fold_left _ (parser.EnvFrom s) _).
  assert (E2 : Lints r2 =
               (Lints r ++ secretEnvFindings Quote s ++ secretEnvFromFindings Quote s)%list).
  { unfold r2. rewrite fold_secretEnvFromRule, fold_secretEnvRule by exact Hv.
    now rewrite <- List.app_assoc. }
  destruct (String.eqb_spec (parser.Script s) "") as [Es|Es]; cbn [negb].
  - rewrite Es, find_params_empty, !List.app_nil_r, <- E2. f_equal. apply Result_eta.
  - rewrite extract_params.
    destruct (regexp.find paramsRegex (parser.Script s)) as [m|] eqn:Ef.
    + rewrite (find_params_nonempty _ _ Ef). cbn [negb].
      unfold Result_Warn. rewrite E2. f_equal. f_equal.
      now rewrite <- !List.app_assoc.
    + cbn [String.eqb negb]. rewrite !List.app_nil_r, <- E2. f_equal. apply Result_eta.
Qed.

End EnvRules.

(** ** Splitting at a separator *)

Section SplitHead.

Lemma prefix_head_differs : forall c x sep s,
  x <> c -> String.prefix (String c sep) (String x s) = false.
Proof.
  intros c x sep s H. simpl. destruct (ascii_dec c x) as [E|]; [|reflexivity].
  now subst.
Qed.

(** A text without the separator is a single piece. *)
Lemma split_go_absent : forall sep s cur,
  sep <> "" ->
  strings.Contains s sep = false ->
  strings.split_go sep 0 cur s = [cur ++ s].
Proof.
  intros sep. induction s as [|x s IH]; intros cur Hsep H; cbn [strings.split_go].
  - now rewrite append_empty_r.
  - cbn [strings.Contains] in H. apply orb_false_elim in H as [Hp Hc].
    rewrite Hp, (IH _ Hsep Hc), append_assoc. reflexivity.
Qed.

(** The first piece is what stands before the separator, when the first
    byte of the separator does not occur there. *)
Lemma split_go_first : forall c sep a b cur,
  strings.Contains a (String c "") = false ->
  hd "" (strings.split_go (String c sep) 0 cur (a ++ String c sep ++ b)) = cur ++ a.
Proof.
  intros c sep. induction a as [|x a IH]; intros b cur H.
  - change ("" ++ String c sep ++ b) with (String c (sep ++ b)).
    cbn [strings.split_go].
    change (String c (sep ++ b)) with (String c sep ++ b).
    rewrite prefix_append. cbn [hd]. now rewrite append_empty_r.
  - rewrite Contains_byte_cons in H. apply orb_false_elim in H as [Hx Ha].
    change (String x a ++ String c sep ++ b) with (String x (a ++ String c sep ++ b)).
    cbn [strings.split_go].
    rewrite prefix_head_differs
      by (intros E; subst; rewrite Ascii.eqb_refl in Hx; discriminate).
    rewrite IH by exact Ha. now rewrite append_assoc.
Qed.

Lemma Split_absent : forall s sep,
  sep <> "" -> strings.Contains s sep = false -> strings.Split s sep = [s].
Proof.
  intros s sep Hsep H. unfold strings.Split.
  destruct sep as [|c sep]; [contradiction|].
  now rewrite split_go_absent.
Qed.

Lemma Split_first : forall c sep a b,
  strings.Contains a (String c "") = false ->
  hd "" (strings.Split (a ++ String c sep ++ b) (String c sep)) = a.
Proof.
  intros c sep a b H. unfold strings.Split. now rewrite split_go_first.
Qed.

Lemma drop_append_length : forall a b : string,
  drop (String.length (a ++ b) - String.length b) (a ++ b) = b.
Proof.
  intros a b. rewrite length_append.
  replace (String.length a + String.length b - String.length b) with (String.length a) by lia.
  induction a as [|c a IH]; simpl; [reflexivity | exact IH].
Qed.

Lemma HasSuffix_append : forall a suf, strings.HasSuffix (a ++ suf) suf = true.
Proof.
  intros a suf. unfold strings.HasSuffix.
  rewrite drop_append_length, String.eqb_refl, andb_true_r.
  apply Nat.leb_le. rewrite length_append. lia.
Qed.

End SplitHead.

Lemma Contains_byte_absent : forall c sep s,
  strings.Contains s (String c "") = false -> strings.Contains s (String c sep) = false.
Proof.
  intros c sep s. induction s as [|a s IH]; intros H.
  - reflexivity.
  - change (String.prefix (String c "") (String a s) || strings.Contains s (String c "") = false)
      in H.
    apply orb_false_iff in H as [Hp H].
    change (String.prefix (String c sep) (String a s) || strings.Contains s (String c sep) = false).
    rewrite (IH H), orb_false_r.
    cbn [String.prefix] in Hp |- *. destruct (ascii_dec c a); [|reflexivity].
    now destruct s.
Qed.

(** [isValidRegistry] reads the text before the first slash only: an
    image [host/rest] whose [host] has no slash is qualified exactly when
    [host] holds a dot, whatever follows the slash, and an image without a
    slash is read whole. *)
Theorem isValidRegistry_reads_the_host :
  forall (host rest : string),
    strings.Contains host "/" = false ->
    validator.isValidRegistry (host ++ "/" ++ rest) = strings.Contains host "." /\
    validator.isValidRegistry host = strings.Contains host ".".
Proof.
  intros host rest H. unfold validator.isValidRegistry. split.
  - now rewrite (Split_first "/" "" host rest H).
  - rewrite Split_absent; [reflexivity | discriminate | exact H].
Qed.

Lemma isValidRegistry_reads_the_host_witness :
  validator.isValidRegistry ("gcr.io" ++ "/" ++ "tekton/builder:v1") =
    strings.Contains "gcr.io" "." /\
  validator.isValidRegistry "gcr.io" = strings.Contains "gcr.io" ".".
Proof.
  apply (isValidRegistry_reads_the_host "gcr.io" "tekton/builder:v1"). reflexivity.
Defined.

(** [tagWithDigest] looks for a colon in the text before [@sha256]: for a
    [base] without [@], [base@sha256...] has a tag along with the digest
    exactly when [base] holds a colon and does not end in [:latest],
    whatever follows [@sha256]; [base] alone is read whole. *)
Theorem tagWithDigest_reads_the_base :
  forall (base rest : string),
    strings.Contains base "@" = false ->
    validator.tagWithDigest (base ++ "@sha256" ++ rest) =
      strings.Contains base ":" && negb (strings.HasSuffix base ":latest") /\
    validator.tagWithDigest base =
      strings.Contains base ":" && negb (strings.HasSuffix base ":latest").
Proof.
  intros base rest H. unfold validator.tagWithDigest. split.
  - rewrite (Split_first "@" "sha256" base rest H). now destruct (_ && _).
  - rewrite Split_absent;
      [now destruct (_ && _) | discriminate | now apply Contains_byte_absent].
Qed.

Lemma tagWithDigest_reads_the_base_witness :
  validator.tagWithDigest ("abc.io/img:v1" ++ "@sha256" ++ ":abcde") =
    strings.Contains "abc.io/img:v1" ":" &&
    negb (strings.HasSuffix "abc.io/img:v1" ":latest") /\
  validator.tagWithDigest "abc.io/img:v1" =
    strings.Contains "abc.io/img:v1" ":" &&
    negb (strings.HasSuffix "abc.io/img:v1" ":latest").
Proof.
  apply (tagWithDigest_reads_the_base "abc.io/img:v1" ":abcde"). reflexivity.
Defined.

Lemma extractExpression_finds_a_reference_aux :
  forall (Quote : string -> string) (pre : string) (c : ascii) (name suffix post : string),
    utf8.byte c < 128 -> c <> nl ->
    matching.isName name = true ->
    In suffix [""; "[*]"] ->
    exists expr,
      validator.extractExpressionFromString Quote
        (pre ++ "$(" ++ String c name ++ suffix ++ ")" ++ post) "" =
      Returned (expr, true).
Proof.
  intros Quote pre c name suffix post Hc Hnl Hname Hsuf.
  rewrite (extract_find Quote _ "" (or_introl eq_refl)).
  destruct (find_reference_present ("$(" ++ "") pre c name suffix post)
    as [m E]; try assumption; [vm_compute; lia|].
  change (("$(" ++ "") ++ String c name ++ suffix ++ ")" ++ post)
    with ("$(" ++ String c name ++ suffix ++ ")" ++ post) in E.
  rewrite E. eauto.
Qed.

(** ** [extractExpressionFromString] *)

(** For the two prefixes the step rules use, [extractExpressionFromString]
    never panics; it answers either with no expression or with a piece
    [$(prefix...)] of the text it was given; and a text that does not
    contain [$(prefix] has no expression. *)
Theorem extractExpression_gives_a_piece :
  forall (Quote : string -> string) (s prefix : string),
    In prefix [""; "params"] ->
    (validator.extractExpressionFromString Quote s prefix = Returned ("", false) \/
     exists pre body post,
       validator.extractExpressionFromString Quote s prefix =
         Returned ("$(" ++ prefix ++ body ++ ")", true) /\
       s = pre ++ ("$(" ++ prefix ++ body ++ ")") ++ post) /\
    (strings.Contains s ("$(" ++ prefix) = false ->
     validator.extractExpressionFromString Quote s prefix = Returned ("", false)).
Proof.
  intros Quote s prefix Hp. rewrite (extract_find Quote s prefix Hp). split.
  - destruct (regexp.find _ s) as [m|] eqn:E; [right | now left].
    apply find_reference_shape in E as (pre & body & post & -> & Es).
    exists pre, body, post. rewrite Es. simpl. rewrite !append_assoc.
    split; reflexivity.
  - intros H. now rewrite find_reference_absent.
Qed.

Lemma extractExpression_gives_a_piece_witness :
  (validator.extractExpressionFromString sample.Quote "echo $(params.name)" "params" =
     Returned ("", false) \/
   exists pre body post,
     validator.extractExpressionFromString sample.Quote "echo $(params.name)" "params" =
       Returned ("$(" ++ "params" ++ body ++ ")", true) /\
     "echo $(params.name)" = pre ++ ("$(" ++ "params" ++ body ++ ")") ++ post) /\
  (strings.Contains "echo $(params.name)" ("$(" ++ "params") = false ->
   validator.extractExpressionFromString sample.Quote "echo $(params.name)" "params" =
     Returned ("", false)).
Proof.
  apply (extractExpression_gives_a_piece sample.Quote "echo $(params.name)" "params").
  right. left. reflexivity.
Defined.

(** A reference is found wherever one stands: a text that holds
    [$(prefix], one more byte of ASCII that is no newline, a name, possibly
    [[*]], and [)], has an expression. *)
Theorem extractExpression_finds_a_reference :
  forall (Quote : string -> string) (prefix pre : string) (c : ascii)
         (name suffix post : string),
    In prefix [""; "params"] ->
    utf8.byte c < 128 -> c <> nl ->
    matching.isName name = true ->
    In suffix [""; "[*]"] ->
    exists expr,
      validator.extractExpressionFromString Quote
        (pre ++ ("$(" ++ prefix) ++ String c name ++ suffix ++ ")" ++ post) prefix =
      Returned (expr, true).
Proof.
  intros Quote prefix pre c name suffix post Hp Hc Hnl Hname Hsuf.
  rewrite (extract_find Quote _ prefix Hp).
  destruct (find_reference_present ("$(" ++ prefix) pre c name suffix post)
    as [m ->]; try assumption; [vm_compute; lia | eauto].
Qed.

Lemma extractExpression_finds_a_reference_witness :
  exists expr,
    validator.extractExpressionFromString sample.Quote
      ("echo " ++ ("$(" ++ "params") ++ String "." "name" ++ "" ++ ")" ++ " done") "params" =
    Returned (expr, true).
Proof.
  apply (extractExpression_finds_a_reference sample.Quote "params" "echo " "."
           "name" "" " done").
  - right. left. reflexivity.
  - vm_compute. lia.
  - discriminate.
  - reflexivity.
  - left. reflexivity.
Defined.

(** ** The step rules as a whole *)

(** An image that holds a reference to a variable, such as
    [$(params.image)], gets the one Warning of the variable rule and
    nothing else: neither parser is consulted, and the environment and the
    script of the step are not looked at. *)
Theorem variable_image_is_only_warned :
  forall (Quote : string -> string)
         (NewDigest : string -> GoResult name.Digest)
         (NewTag : string -> GoResult name.Tag)
         (s : parser.Step) (step : validator.StepValue)
         (pre : string) (c : ascii) (name suffix post : string),
    In step (observe.stepOf s) ->
    parser.Image s = pre ++ "$(" ++ String c name ++ suffix ++ ")" ++ post ->
    utf8.byte c < 128 -> c <> nl ->
    matching.isName name = true ->
    In suffix [""; "[*]"] ->
    validator.validateStep Quote NewDigest NewTag step =
    Returned {| validator.Lints :=
                  [validator.finding Quote validator.Warning validator.fmtUsesVars
                     [fmt.AStr (parser.Name s); fmt.AStr (parser.Image s)]] |}.
Proof.
  intros Quote NewDigest NewTag s step pre c name suffix post
         Hstep Himg Hc Hnl Hname Hsuf.
  destruct (validateStep_fields Quote NewDigest NewTag s step Hstep) as [version ->].
  destruct (extractExpression_finds_a_reference_aux Quote pre c name suffix post
              Hc Hnl Hname Hsuf) as [expr E].
  rewrite <- Himg in E.
  apply (validateFields_variable Quote NewDigest NewTag version s expr E).
Qed.

Lemma variable_image_is_only_warned_witness :
  validator.validateStep sample.Quote sample.NewDigest sample.NewTag
    (validator.V1Step (sample.step "$(params.image)" "echo $(params.name)" [sample.secretEnv])) =
  Returned {| validator.Lints :=
                [validator.finding sample.Quote validator.Warning validator.fmtUsesVars
                   [fmt.AStr "build"; fmt.AStr "$(params.image)"]] |}.
Proof.
  apply (variable_image_is_only_warned sample.Quote sample.NewDigest sample.NewTag
           (sample.step "$(params.image)" "echo $(params.name)" [sample.secretEnv])
           _ "" "p" "arams.image" "" "" (or_introl eq_refl)).
  - reflexivity.
  - vm_compute. lia.
  - discriminate.
  - reflexivity.
  - left. reflexivity.
Defined.

Section TagPath.
Import validator observe expect.
Variable Quote : string -> string.
Variable NewDigest : string -> GoResult name.Digest.
Variable NewTag : string -> GoResult name.Tag.

Lemma validateFields_tag_path : forall version s ref,
  In version ["v1"; "v1beta1"] ->
  extractExpressionFromString Quote (parser.Image s) "" = Returned ("", false) ->
  strings.Contains (parser.Image s) "@sha256" = false ->
  NewTag (parser.Image s) = Ok ref ->
  validateFields Quote NewDigest NewTag version s =
  Returned {| Lints := qualifiedFindings Quote s ++ latestFindings Quote s ref ++
                       secretEnvFindings Quote s ++ secretEnvFromFindings Quote s ++
                       paramFindings Quote s |}.
Proof.
  intros version s ref Hv Hvar Hdig Htag.
  rewrite (validateFields_no_variable Quote NewDigest NewTag version s "" Hvar).
  cbv zeta. rewrite Hdig, Htag, (envAndScriptRules_findings Quote version s _ Hv).
  f_equal. f_equal. unfold latestFindings.
  destruct (strings.EqualFold _ "latest"); unfold Result_Error; cbn [Lints];
    now rewrite <- ?List.app_assoc, ?List.app_nil_r.
Qed.

Lemma validateFields_same_revision : forall s,
  validateFields Quote NewDigest NewTag "v1" s =
  validateFields Quote NewDigest NewTag "v1beta1" s.
Proof.
  intros s.
  destruct (extract_image_returns Quote (parser.Image s)) as (m & [|] & E).
  - now rewrite !(validateFields_variable Quote NewDigest NewTag _ s m E).
  - rewrite !(validateFields_no_variable Quote NewDigest NewTag _ s m E). cbv zeta.
    destruct (strings.Contains (parser.Image s) "@sha256"); [reflexivity|].
    destruct (NewTag (parser.Image s)); [|reflexivity].
    rewrite !envAndScriptRules_findings; [reflexivity | | ]; simpl; auto.
Qed.

End TagPath.

(** On a step whose image holds no variable reference, is not in digest
    form and parses as a tag reference, the result is, in this order: the
    Warning of the registry rule if it fires, the Error for the tag
    [latest] if it is the tag, one Warning for each variable of the
    environment that takes its value from a key of a secret, naming the
    variable, one Warning for each source of variables that is a secret,
    and one Warning for the leftmost reference to a parameter in the
    script. *)
Theorem tag_path_findings :
  forall (Quote : string -> string)
         (NewDigest : string -> GoResult name.Digest)
         (NewTag : string -> GoResult name.Tag)
         (s : parser.Step) (step : validator.StepValue) (ref : name.Tag),
    In step (observe.stepOf s) ->
    validator.extractExpressionFromString Quote (parser.Image s) "" =
      Returned ("", false) ->
    strings.Contains (parser.Image s) "@sha256" = false ->
    NewTag (parser.Image s) = Ok ref ->
    validator.validateStep Quote NewDigest NewTag step =
    Returned {| validator.Lints :=
                  observe.qualifiedFindings Quote s ++ expect.latestFindings Quote s ref ++
                  expect.secretEnvFindings Quote s ++ expect.secretEnvFromFindings Quote s ++
                  expect.paramFindings Quote s |}.
Proof.
  intros Quote NewDigest NewTag s step ref Hstep Hvar Hdig Htag.
  destruct Hstep as [<-|[<-|[]]]; cbn [validator.validateStep];
    apply validateFields_tag_path; simpl; auto.
Qed.

Lemma tag_path_findings_witness :
  validator.validateStep sample.Quote sample.NewDigest sample.NewTag
    (validator.V1Step (sample.step "ubuntu:latest" "echo $(params.name)" [sample.secretEnv])) =
  Returned {| validator.Lints :=
    observe.qualifiedFindings sample.Quote
      (sample.step "ubuntu:latest" "echo $(params.name)" [sample.secretEnv]) ++
    expect.latestFindings sample.Quote
      (sample.step "ubuntu:latest" "echo $(params.name)" [sample.secretEnv])
      {| name.Tag_Identifier := "latest" |} ++
    expect.secretEnvFindings sample.Quote
      (sample.step "ubuntu:latest" "echo $(params.name)" [sample.secretEnv]) ++
    expect.secretEnvFromFindings sample.Quote
      (sample.step "ubuntu:latest" "echo $(params.name)" [sample.secretEnv]) ++
    expect.paramFindings sample.Quote
      (sample.step "ubuntu:latest" "echo $(params.name)" [sample.secretEnv]) |}.
Proof.
  apply (tag_path_findings sample.Quote sample.NewDigest sample.NewTag
           (sample.step "ubuntu:latest" "echo $(params.name)" [sample.secretEnv])
           _ {| name.Tag_Identifier := "latest" |} (or_introl eq_refl));
    vm_compute; reflexivity.
Defined.

(** A tag the reference parser rejects ends the step: on an image that
    holds no variable reference and is not in digest form, the result is
    the Warning of the registry rule, if it fires, and the Error that
    carries the parser's message; the rules on secrets and on the script
    are not reached. *)
Theorem invalid_tag_ends_the_step :
  forall (Quote : string -> string)
         (NewDigest : string -> GoResult name.Digest)
         (NewTag : string -> GoResult name.Tag)
         (s : parser.Step) (step : validator.StepValue) (e : string),
    In step (observe.stepOf s) ->
    validator.extractExpressionFromString Quote (parser.Image s) "" =
      Returned ("", false) ->
    strings.Contains (parser.Image s) "@sha256" = false ->
    NewTag (parser.Image s) = Err e ->
    validator.validateStep Quote NewDigest NewTag step =
    Returned {| validator.Lints :=
                  observe.qualifiedFindings Quote s ++
                  [validator.finding Quote validator.Error validator.fmtInvalidTag
                     [fmt.AStr (parser.Name s); fmt.AStr (parser.Image s); fmt.AStr e]] |}.
Proof.
  intros Quote NewDigest NewTag s step e Hstep Hvar Hdig Htag.
  assert (E : forall version,
             validator.validateFields Quote NewDigest NewTag version s =
             Returned {| validator.Lints :=
                  observe.qualifiedFindings Quote s ++
                  [validator.finding Quote validator.Error validator.fmtInvalidTag
                     [fmt.AStr (parser.Name s); fmt.AStr (parser.Image s); fmt.AStr e]] |}).
  { intros version.
    rewrite (validateFields_no_variable Quote NewDigest NewTag version s "" Hvar).
    cbv zeta. rewrite Hdig, Htag. unfold observe.qualifiedFindings.
    destruct (negb (strings.Contains (parser.Image s) "/")
              || negb (validator.isValidRegistry (parser.Image s))); reflexivity. }
  destruct Hstep as [<-|[<-|[]]]; cbn [validator.validateStep]; apply E.
Qed.

Lemma invalid_tag_ends_the_step_witness :
  validator.validateStep sample.Quote sample.NewDigest sample.NewTag
    (validator.V1Step (sample.step "ubuntu:not a tag" "echo $(params.name)"
                         [sample.secretEnv])) =
  Returned {| validator.Lints :=
                observe.qualifiedFindings sample.Quote
                  (sample.step "ubuntu:not a tag" "echo $(params.name)" [sample.secretEnv]) ++
                [validator.finding sample.Quote validator.Error validator.fmtInvalidTag
                   [fmt.AStr "build"; fmt.AStr "ubuntu:not a tag";
                    fmt.AStr "tag can only contain the characters `abcdefghijklmnopqrstuvwxyzABCDEFGHIJKLMNOPQRSTUVWXYZ0123456789_-.`"]] |}.
Proof.
  apply (invalid_tag_ends_the_step sample.Quote sample.NewDigest sample.NewTag
           (sample.step "ubuntu:not a tag" "echo $(params.name)" [sample.secretEnv])
           _ _ (or_introl eq_refl)); vm_compute; reflexivity.
Defined.

(** The two schema revisions of a step are validated alike: a v1 step and
    a v1beta1 step with the same fields get the same result. *)
Theorem validateStep_same_for_both_revisions :
  forall (Quote : string -> string)
         (NewDigest : string -> GoResult name.Digest)
         (NewTag : string -> GoResult name.Tag)
         (s : parser.Step),
    validator.validateStep Quote NewDigest NewTag (validator.V1Step s) =
    validator.validateStep Quote NewDigest NewTag (validator.V1beta1Step s).
Proof.
  intros. apply validateFields_same_revision.
Qed.

(** ** The findings of a task *)

Section TaskFindings.
Import validator scope.
Variable Quote : string -> string.
Variable NewDigest : string -> GoResult name.Digest.
Variable NewTag : string -> GoResult name.Tag.

Lemma validateStep_stepFindings : forall s step,
  In step (observe.stepOf s) ->
  validateStep Quote NewDigest NewTag step =
  Returned {| Lints := stepFindings Quote NewDigest NewTag s |}.
Proof.
  intros s step Hstep. unfold stepFindings. cbn [validateStep].
  assert (E : validateStep Quote NewDigest NewTag step =
              validateFields Quote NewDigest NewTag "v1" s).
  { destruct Hstep as [<-|[<-|[]]]; cbn [validateStep]; [reflexivity|].
    symmetry. apply validateFields_same_revision. }
  rewrite E.
  destruct (validateFields_returns Quote NewDigest NewTag "v1" s) as [r ->].
  now destruct r.
Qed.

Lemma validateSteps_findings : forall wrap steps r0,
  (forall s, wrap s = V1Step s) \/ (forall s, wrap s = V1beta1Step s) ->
  validateSteps Quote NewDigest NewTag wrap steps r0 =
  Returned {| Lints := Lints r0 ++ flat_map (stepFindings Quote NewDigest NewTag) steps |}.
Proof.
  intros wrap steps. induction steps as [|s steps IH]; intros r0 Hw; cbn [validateSteps flat_map].
  - rewrite List.app_nil_r. now destruct r0.
  - rewrite (validateStep_stepFindings s (wrap s)).
    + rewrite (IH _ Hw). unfold Result_Append. cbn [Lints].
      now rewrite List.app_assoc.
    + destruct Hw as [Hw|Hw]; rewrite Hw; simpl; auto.
Qed.

End TaskFindings.

(** The findings of a task are the findings of its steps, step after step
    in the order of the task, and the same for a v1 Task and a v1beta1 Task;
    of any other object, a ClusterTask included, no step is looked at and
    the result is empty.  The declared kind is not read. *)
Theorem task_findings_are_step_findings :
  forall (Quote : string -> string)
         (NewDigest : string -> GoResult name.Digest)
         (NewTag : string -> GoResult name.Tag)
         (t : validator.taskValidator) (obj : parser.Object),
    parser.ToType (validator.res t) = Ok obj ->
    validator.Validate Quote NewDigest NewTag t =
    Returned {| validator.Lints :=
                  flat_map (scope.stepFindings Quote NewDigest NewTag)
                    (scope.validatedSteps obj) |}.
Proof.
  intros Quote NewDigest NewTag t obj H. unfold validator.Validate. rewrite H.
  destruct obj as [task|task|task|]; cbn [scope.validatedSteps flat_map];
    try reflexivity; apply validateSteps_findings; auto.
Qed.

Lemma task_findings_are_step_findings_witness :
  validator.Validate sample.Quote sample.NewDigest sample.NewTag
    (validator.NewTaskValidator (sample.betaTask [sample.untaggedStep; sample.secretStep])) =
  Returned {| validator.Lints :=
                flat_map (scope.stepFindings sample.Quote sample.NewDigest sample.NewTag)
                  (scope.validatedSteps
                     (parser.V1beta1Task {| parser.ObjectMeta_Name := "demo";
                                            parser.Spec_Steps :=
                                              [sample.untaggedStep; sample.secretStep] |})) |}.
Proof.
  apply (task_findings_are_step_findings sample.Quote sample.NewDigest sample.NewTag
           (validator.NewTaskValidator (sample.betaTask [sample.untaggedStep; sample.secretStep]))).
  reflexivity.
Defined.

(** ** The script linter: the bytes of the shebang *)

Section Slicing.
Import linter scope.

Lemma slice0_take : forall n s, n <= String.length s -> slice0 s n = Some (take n s).
Proof.
  induction n as [|n IH]; intros s H; [now destruct s|].
  destruct s as [|c s]; simpl in *; [lia|].
  rewrite IH by lia. reflexivity.
Qed.

Lemma slice0_short : forall n s, String.length s < n -> slice0 s n = None.
Proof.
  induction n as [|n IH]; intros s H; [lia|].
  destruct s as [|c s]; simpl in *; [reflexivity|].
  rewrite IH by lia. reflexivity.
Qed.

Lemma take_prefix : forall p s,
  String.eqb (take (String.length p) s) p = String.prefix p s.
Proof.
  induction p as [|c p IH]; intros s; [now destruct s|].
  destruct s as [|a s]; [reflexivity|].
  cbn [String.length take String.prefix String.eqb]. rewrite IH.
  destruct (ascii_dec c a) as [->|Hne].
  - now rewrite Ascii.eqb_refl.
  - destruct (Ascii.eqb a c) eqn:E; [|reflexivity].
    apply Ascii.eqb_eq in E. congruence.
Qed.

Lemma prefix_longer : forall p q s,
  String.prefix (p ++ q) s = true -> String.prefix p s = true.
Proof.
  induction p as [|c p IH]; intros q s H; [now destruct s|].
  destruct s as [|a s]; simpl in *; [discriminate|].
  destruct (ascii_dec c a); [|discriminate]. now apply IH in H.
Qed.

Variable Quote : string -> string.

Lemma normalizeShebang_sliceable : forall taskName script,
  sliceable script = true ->
  normalizeShebang Quote taskName script =
  Returned (linted script, {| validator.Lints := shebangWarning Quote taskName script |}).
Proof.
  intros taskName script H. unfold sliceable in H.
  apply andb_true_iff in H as [H2 H14]. apply Nat.leb_le in H2.
  unfold normalizeShebang, linted, shebangWarning.
  rewrite (slice0_take 2 script H2).
  change (take 2 script) with (take (String.length "#!") script). rewrite take_prefix.
  destruct (String.prefix "#!" script) eqn:Hp; cbn [negb andb orb] in *.
  - apply Nat.leb_le in H14. rewrite (slice0_take 14 script H14).
    change (take 14 script) with (take (String.length "#!/usr/bin/env") script).
    rewrite take_prefix.
    destruct (String.prefix "#!/usr/bin/env" script); reflexivity.
  - reflexivity.
Qed.

Lemma normalizeShebang_short : forall taskName script,
  sliceable script = false ->
  exists msg, normalizeShebang Quote taskName script = Panicked msg.
Proof.
  intros taskName script H. unfold sliceable in H. unfold normalizeShebang.
  destruct (2 <=? String.length script) eqn:H2.
  - apply Nat.leb_le in H2. rewrite (slice0_take 2 script H2).
    change (take 2 script) with (take (String.length "#!") script). rewrite take_prefix.
    cbn [andb] in H. apply orb_false_iff in H as [Hp H14].
    apply negb_false_iff in Hp. rewrite Hp. cbn [negb].
    apply Nat.leb_gt in H14. rewrite (slice0_short 14 script H14). eauto.
  - apply Nat.leb_gt in H2. rewrite (slice0_short 2 script H2). eauto.
Qed.

Variable host : Host.

Lemma validateScript_sliceable : forall taskName script table stepName w,
  sliceable script = true ->
  validateScript Quote host taskName script table stepName w =
  Returned (leave (runConfigs Quote host taskName (linted script) stepName table
                     {| result := {| validator.Lints := shebangWarning Quote taskName script |};
                        world := w; deferred := [] |})).
Proof.
  intros. unfold validateScript. now rewrite normalizeShebang_sliceable.
Qed.

Lemma validateScript_returns_iff : forall taskName script table stepName w,
  (exists r w', validateScript Quote host taskName script table stepName w = Returned (r, w'))
  <-> sliceable script = true.
Proof.
  intros taskName script table stepName w. split.
  - intros (r & w' & H). destruct (sliceable script) eqn:E; [reflexivity|].
    destruct (normalizeShebang_short taskName script E) as [msg Hm].
    unfold validateScript in H. rewrite Hm in H. discriminate.
  - intros H. rewrite validateScript_sliceable by exact H.
    destruct (leave _) as [r w']. eauto.
Qed.

Lemma collectOverSteps_returns_iff : forall t steps name r0 w,
  (exists r w', collectOverSteps Quote host t steps name r0 w = Returned (r, w'))
  <-> lintable steps = true.
Proof.
  intros t steps name. induction steps as [|s steps IH]; intros r0 w;
    cbn [collectOverSteps lintable forallb].
  - split; [reflexivity | eauto].
  - fold (lintable steps).
    destruct (String.eqb (parser.Script s) "") eqn:Es; cbn [negb orb andb].
    + apply IH.
    + destruct (sliceable (parser.Script s)) eqn:E; cbn [andb].
      * rewrite validateScript_sliceable by exact E.
        destruct (leave _) as [r w']. apply IH.
      * destruct (normalizeShebang_short name (parser.Script s) E) as [msg Hm].
        unfold validateScript. rewrite Hm.
        split; [intros (r & w' & H); discriminate | discriminate].
Qed.

End Slicing.

(** [validateScript] slices the first two bytes of the script, and the
    first fourteen when these are a shebang.  It returns exactly on the
    scripts that have these bytes and panics on every other one; when it
    returns, the rules were matched against the script itself if it starts
    with a shebang and against the script under the line
    [#!/usr/bin/env sh] otherwise, and the result starts with the Warning
    about the shebang exactly when the script starts with a shebang other
    than [#!/usr/bin/env]. *)
Theorem validateScript_reads_the_shebang :
  forall (Quote : string -> string) (host : linter.Host)
         (taskName script stepName : string) (table : list linter.config)
         (w : linter.World),
    (scope.sliceable script = true ->
     linter.normalizeShebang Quote taskName script =
       Returned (scope.linted script,
                 {| validator.Lints := scope.shebangWarning Quote taskName script |}) /\
     exists r w',
       linter.validateScript Quote host taskName script table stepName w =
         Returned (r, w')) /\
    (scope.sliceable script = false ->
     exists msg,
       linter.validateScript Quote host taskName script table stepName w = Panicked msg).
Proof.
  intros Quote host taskName script stepName table w. split; intros H.
  - split; [now apply normalizeShebang_sliceable|].
    now apply validateScript_returns_iff.
  - destruct (normalizeShebang_short Quote taskName script H) as [msg Hm].
    exists msg. unfold linter.validateScript. now rewrite Hm.
Qed.

(** [Validate] of the script linter returns on a v1 Task declared as a
    Task, and on a ClusterTask declared as a ClusterTask, exactly when each
    script of its steps is empty or has the bytes that are sliced; on every
    other such resource it panics. *)
Theorem linter_Validate_returns_iff :
  forall (Quote : string -> string) (host : linter.Host) (t : linter.taskLinter)
         (w : linter.World) (kind : string) (obj : parser.Object) (task : parser.Task),
    parser.ToType (linter.res t) = Ok obj ->
    strings.ToLower (parser.Kind (linter.res t)) = kind ->
    In (kind, obj) [("task", parser.V1Task task);
                    ("clustertask", parser.V1beta1ClusterTask task)] ->
    ((exists r w', linter.Validate Quote host t w = Returned (r, w')) <->
     scope.lintable (parser.Spec_Steps task) = true).
Proof.
  intros Quote host t w kind obj task Hobj Hkind Hin.
  unfold linter.Validate. rewrite Hobj, Hkind.
  destruct Hin as [E|[E|[]]]; injection E as <- <-; cbn [String.eqb Ascii.eqb Bool.eqb];
    apply collectOverSteps_returns_iff.
Qed.

Lemma linter_Validate_returns_iff_witness :
  (exists r w',
     linter.Validate sample.Quote sample.host
       (linter.NewScriptLinter
          (sample.task [sample.step "alpine:3" "" []; sample.step "alpine:3" "ls" []]))
       sample.world0 = Returned (r, w')) <->
  scope.lintable [sample.step "alpine:3" "" []; sample.step "alpine:3" "ls" []] = true.
Proof.
  apply (linter_Validate_returns_iff sample.Quote sample.host
           (linter.NewScriptLinter
              (sample.task [sample.step "alpine:3" "" []; sample.step "alpine:3" "ls" []]))
           sample.world0 "task"
           (parser.V1Task {| parser.ObjectMeta_Name := "demo";
                             parser.Spec_Steps :=
                               [sample.step "alpine:3" "" []; sample.step "alpine:3" "ls" []] |})
           {| parser.ObjectMeta_Name := "demo";
              parser.Spec_Steps :=
                [sample.step "alpine:3" "" []; sample.step "alpine:3" "ls" []] |}).
  - reflexivity.
  - reflexivity.
  - left. reflexivity.
Defined.

(** ** The script linter: temporary files *)

Section Tidy.
Import validator linter observe scope.

Lemma created_app : forall a b, created (a ++ b) = (created a ++ created b)%list.
Proof.
  induction a as [|e a IH]; intros b; [reflexivity|].
  destruct e; cbn [created app]; now rewrite IH.
Qed.

Lemma removed_app : forall a b, removed (a ++ b) = (removed a ++ removed b)%list.
Proof.
  induction a as [|e a IH]; intros b; [reflexivity|].
  destruct e; cbn [removed app]; now rewrite IH.
Qed.

Lemma created_removals : forall names, created (map EvRemove names) = [].
Proof.
  induction names as [|n names IH]; [reflexivity | exact IH].
Qed.

Lemma readFile_removeFile : forall fs n p,
  readFile (removeFile fs n) p = if String.eqb n p then None else readFile fs p.
Proof.
  induction fs as [|[q d] fs IH]; intros n p; unfold removeFile in *; cbn [filter readFile fst].
  - now destruct (String.eqb n p).
  - destruct (String.eqb q n) eqn:Eqn; cbn [negb readFile].
    + apply String.eqb_eq in Eqn. subst q. rewrite IH.
      now destruct (String.eqb n p).
    + rewrite IH. destruct (String.eqb q p) eqn:Eqp; [|reflexivity].
      apply String.eqb_eq in Eqp. subst q.
      rewrite String.eqb_sym in Eqn. now rewrite Eqn.
Qed.

Lemma readFile_writeFile_other : forall fs path data p,
  p <> path -> readFile (writeFile fs path data) p = readFile fs p.
Proof.
  intros fs path data p H. unfold writeFile. cbn [readFile].
  assert (E : String.eqb path p = false).
  { apply String.eqb_neq. congruence. }
  now rewrite E, readFile_removeFile, E.
Qed.

Lemma runDeferred_files : forall names w p,
  readFile (files (runDeferred names w)) p =
  if existsb (String.eqb p) names then None else readFile (files w) p.
Proof.
  induction names as [|n names IH]; intros w p; cbn [runDeferred existsb]; [reflexivity|].
  rewrite IH. cbn [record files]. rewrite readFile_removeFile, (String.eqb_sym n p).
  destruct (String.eqb p n); cbn [orb]; now destruct (existsb (String.eqb p) names).
Qed.

Lemma tidy_refl : forall f f',
  world f' = world f -> deferred f' = deferred f -> tidy f f' [].
Proof.
  intros f f' Ew Ed. unfold tidy. rewrite Ew, Ed, List.app_nil_r. auto.
Qed.

Lemma tidy_trans : forall f f1 f2 a b,
  tidy f f1 a -> tidy f1 f2 b -> tidy f f2 (a ++ b).
Proof.
  intros f f1 f2 a b (Ta & Ra & Da & Fa) (Tb & Rb & Db & Fb). unfold tidy.
  rewrite Tb, Ta, removed_app, Ra, Rb, Db, Da, created_app, rev_app_distr.
  rewrite <- !List.app_assoc.
  split; [reflexivity | split; [reflexivity | split; [reflexivity|]]].
  intros p Hp. rewrite Fb, Fa; [reflexivity| |]; intros H; apply Hp, in_or_app; auto.
Qed.

Lemma tidy_result : forall f f' f'' evs,
  tidy f f' evs -> world f'' = world f' -> deferred f'' = deferred f' -> tidy f f'' evs.
Proof.
  intros f f' f'' evs H Ew Ed. unfold tidy in *. now rewrite Ew, Ed.
Qed.

Variable Quote : string -> string.
Variable host : Host.
Variables taskName script stepName : string.

Lemma tidy_created : forall f tmpfile,
  tidy f {| result := result f;
            world := record (world f) (writeFile (files (world f)) tmpfile "")
                       (EvCreate tmpfile);
            deferred := tmpfile :: deferred f |} [EvCreate tmpfile].
Proof.
  intros f tmpfile. unfold tidy. cbn [world deferred record trace files created removed rev app].
  split; [reflexivity | split; [reflexivity | split; [reflexivity|]]].
  intros p Hp. apply readFile_writeFile_other. intros ->. apply Hp. now left.
Qed.

Lemma tidy_step : forall f f' evs e fs r,
  tidy f f' evs ->
  created [e] = [] -> removed [e] = [] ->
  (forall p, ~ In p (created evs) -> readFile fs p = readFile (files (world f')) p) ->
  tidy f {| result := r; world := record (world f') fs e; deferred := deferred f' |}
    (evs ++ [e]).
Proof.
  intros f f' evs e fs r (T & R & D & F) Hc Hr Hfs. unfold tidy.
  cbn [world deferred record trace files].
  rewrite T, removed_app, R, Hr, created_app, Hc, !List.app_nil_r, D, <- List.app_assoc.
  split; [reflexivity | split; [reflexivity | split; [reflexivity|]]].
  intros p Hp. rewrite Hfs by exact Hp. now apply F.
Qed.

Lemma runLinter_tidy : forall l f,
  exists evs, tidy f (frameOf (runLinter Quote host taskName script stepName l f)) evs.
Proof.
  intros l f. unfold runLinter.
  destruct (LookPath host (cmd l)) as [execpath|e].
  2: { exists []. now apply tidy_refl. }
  destruct (CreateTemp host (world f)) as [tmpfile|e].
  2: { exists []. now apply tidy_refl. }
  cbv zeta. pose proof (tidy_created f tmpfile) as H1.
  destruct (negb (WriteOk host _ tmpfile script)).
  { exists [EvCreate tmpfile]. eapply tidy_result; [exact H1 | reflexivity | reflexivity]. }
  assert (H2 : tidy f
                 {| result := result f;
                    world :=
                      record
                        (record (world f) (writeFile (files (world f)) tmpfile "")
                           (EvCreate tmpfile))
                        (writeFile (writeFile (files (world f)) tmpfile "") tmpfile script)
                        (EvWrite tmpfile script);
                    deferred := tmpfile :: deferred f |}
                 ([EvCreate tmpfile] ++ [EvWrite tmpfile script])).
  { apply (tidy_step f _ _ _ _ (result f) H1); try reflexivity.
    intros p Hp. cbn [world record files]. apply readFile_writeFile_other.
    intros ->. apply Hp. now left. }
  destruct (negb (CloseOk host _ tmpfile)).
  { eexists. eapply tidy_result; [exact H2 | reflexivity | reflexivity]. }
  destruct (CombinedOutput host _ execpath _) as [out ok].
  eexists. cbn [frameOf].
  match goal with
  | |- tidy f {| result := ?r; world := record (record ?w2 ?fs2 ?e2) ?fs3 ?e3;
                 deferred := ?d |} _ =>
      eapply (tidy_step f {| result := result f; world := record w2 fs2 e2; deferred := d |}
                _ e3 fs3 r);
        [ eapply (tidy_step f _ _ e2 fs2 (result f) H2); reflexivity
        | reflexivity | reflexivity | reflexivity ]
  end.
Qed.

Lemma runLinters_tidy : forall ls f,
  exists evs, tidy f (frameOf (runLinters Quote host taskName script stepName ls f)) evs.
Proof.
  induction ls as [|l ls IH]; intros f; cbn [runLinters].
  - exists []. now apply tidy_refl.
  - destruct (runLinter_tidy l f) as [a Ha].
    destruct (runLinter Quote host taskName script stepName l f) as [f'|f'].
    + destruct (IH f') as [b Hb]. exists (a ++ b)%list. eapply tidy_trans; eassumption.
    + now exists a.
Qed.

Lemma runConfigs_tidy : forall table f,
  exists evs, tidy f (frameOf (runConfigs Quote host taskName script stepName table f)) evs.
Proof.
  induction table as [|c table IH]; intros f; cbn [runConfigs].
  - exists []. now apply tidy_refl.
  - destruct (MatchString host _ script) as [[|]|e].
    + destruct (runLinters_tidy (linters c) f) as [a Ha].
      destruct (runLinters Quote host taskName script stepName (linters c) f) as [f'|f'].
      * destruct (IH f') as [b Hb]. exists (a ++ b)%list. eapply tidy_trans; eassumption.
      * now exists a.
    + apply IH.
    + exists []. now apply tidy_refl.
Qed.

Lemma existsb_In : forall p names, existsb (String.eqb p) names = true <-> In p names.
Proof.
  intros p names. rewrite existsb_exists. split.
  - intros (x & Hx & E). apply String.eqb_eq in E. now subst.
  - intros H. exists p. split; [exact H | apply String.eqb_refl].
Qed.

Lemma leave_tidy : forall fl w evs,
  tidy {| result := emptyResult; world := w; deferred := [] |} (frameOf fl) evs ->
  trace (snd (leave fl)) = (trace w ++ evs ++ map EvRemove (rev (created evs)))%list /\
  removed evs = [] /\
  (forall p, In p (created evs) -> readFile (files (snd (leave fl))) p = None) /\
  (forall p, ~ In p (created evs) ->
             readFile (files (snd (leave fl))) p = readFile (files w) p).
Proof.
  intros fl w evs (T & R & D & F). cbn [world deferred] in *.
  rewrite List.app_nil_r in D.
  assert (E : snd (leave fl) = runDeferred (deferred (frameOf fl)) (world (frameOf fl))).
  { now destruct fl. }
  rewrite E, runDeferred_trace, T, D, <- List.app_assoc.
  split; [reflexivity | split; [assumption | split]].
  - intros p Hp. rewrite runDeferred_files.
    assert (Hx : existsb (String.eqb p) (rev (created evs)) = true).
    { apply existsb_In. now apply in_rev in Hp. }
    now rewrite Hx.
  - intros p Hp. rewrite runDeferred_files.
    destruct (existsb (String.eqb p) (rev (created evs))) eqn:Hx.
    + apply existsb_In in Hx. apply in_rev in Hx. contradiction.
    + now apply F.
Qed.

End Tidy.

(** Every temporary file [validateScript] creates is removed before it
    returns, on every way out of the loops: the events of a call are those
    of the loops, none of them a removal, followed by the removal of each
    file created, the latest first.  At the return no created file is left,
    and every other file reads as before the call (a started process is
    taken not to change the files). *)
Theorem temporary_files_are_removed :
  forall (Quote : string -> string) (host : linter.Host)
         (taskName script stepName : string) (table : list linter.config)
         (w w' : linter.World) (r : validator.Result),
    linter.validateScript Quote host taskName script table stepName w = Returned (r, w') ->
    exists evs,
      linter.trace w' =
        (linter.trace w ++ evs ++ map linter.EvRemove (rev (scope.created evs)))%list /\
      scope.removed evs = [] /\
      (forall p, In p (scope.created evs) -> linter.readFile (linter.files w') p = None) /\
      (forall p, ~ In p (scope.created evs) ->
                 linter.readFile (linter.files w') p = linter.readFile (linter.files w) p).
Proof.
  intros Quote host taskName script stepName table w w' r H.
  unfold linter.validateScript in H.
  destruct (linter.normalizeShebang Quote taskName script) as [[script' r0]|msg];
    [|discriminate].
  injection H as H.
  destruct (runConfigs_tidy Quote host taskName script' stepName table
              {| linter.result := r0; linter.world := w; linter.deferred := [] |})
    as [evs Hevs].
  exists evs.
  assert (Hw : w' = snd (linter.leave
                           (linter.runConfigs Quote host taskName script' stepName table
                              {| linter.result := r0; linter.world := w;
                                 linter.deferred := [] |}))).
  { now rewrite H. }
  rewrite Hw. apply leave_tidy.
  destruct Hevs as (T & R & D & F). repeat (split; [assumption|]). assumption.
Qed.

Lemma temporary_files_are_removed_witness :
  exists evs,
    linter.trace trial.after =
      (linter.trace sample.world0 ++ evs ++
       map linter.EvRemove (rev (scope.created evs)))%list /\
    scope.removed evs = [] /\
    (forall p, In p (scope.created evs) ->
               linter.readFile (linter.files trial.after) p = None) /\
    (forall p, ~ In p (scope.created evs) ->
               linter.readFile (linter.files trial.after) p =
               linter.readFile (linter.files sample.world0) p).
Proof.
  apply (temporary_files_are_removed sample.Quote sample.host "demo" sample.shScript "build"
           trial.shOnly sample.world0 trial.after
           {| validator.Lints :=
                [validator.finding sample.Quote validator.Warning
                   "step: %s is not using #!/usr/bin/env " [fmt.AStr "demo"]] |}).
  vm_compute. reflexivity.
Defined.

(** ** The script linter: what it reports *)

Section Errors.
Import validator linter observe scope.
Variable Quote : string -> string.
Variable host : Host.
Variables taskName script stepName : string.

Lemma onlyErrors_refl : forall f f', result f' = result f -> onlyErrors f f'.
Proof.
  intros f f' E. exists []. rewrite E, List.app_nil_r. now split.
Qed.

Lemma onlyErrors_trans : forall f f1 f2,
  onlyErrors f f1 -> onlyErrors f1 f2 -> onlyErrors f f2.
Proof.
  intros f f1 f2 (a & Ea & Ha) (b & Eb & Hb). exists (a ++ b)%list. split.
  - now rewrite Eb, Ea, List.app_assoc.
  - apply Forall_app. now split.
Qed.

Lemma onlyErrors_failWith : forall f f0 format a,
  result f = result f0 -> onlyErrors f0 (frameOf (failWith Quote f format a)).
Proof.
  intros f f0 format a E. eexists. cbn [failWith frameOf result Result_Error Lints].
  rewrite E. split; [reflexivity|]. now repeat constructor.
Qed.

Lemma runLinter_onlyErrors : forall l f,
  onlyErrors f (frameOf (runLinter Quote host taskName script stepName l f)).
Proof.
  intros l f. unfold runLinter.
  destruct (LookPath host (cmd l)) as [execpath|e]; [|now apply onlyErrors_failWith].
  destruct (CreateTemp host (world f)) as [tmpfile|e]; [|now apply onlyErrors_failWith].
  cbv zeta.
  destruct (negb (WriteOk host _ tmpfile script)); [now apply onlyErrors_failWith|].
  destruct (negb (CloseOk host _ tmpfile)); [now apply onlyErrors_failWith|].
  destruct (CombinedOutput host _ execpath _) as [out [|]]; cbn [frameOf].
  - now apply onlyErrors_refl.
  - eexists. cbn [result Result_Error Lints]. split; [reflexivity|]. now repeat constructor.
Qed.

Lemma runLinters_onlyErrors : forall ls f,
  onlyErrors f (frameOf (runLinters Quote host taskName script stepName ls f)).
Proof.
  induction ls as [|l ls IH]; intros f; cbn [runLinters].
  - now apply onlyErrors_refl.
  - pose proof (runLinter_onlyErrors l f) as H.
    destruct (runLinter Quote host taskName script stepName l f) as [f'|f'].
    + eapply onlyErrors_trans; [exact H | apply IH].
    + exact H.
Qed.

Lemma runConfigs_onlyErrors : forall table f,
  onlyErrors f (frameOf (runConfigs Quote host taskName script stepName table f)).
Proof.
  induction table as [|c table IH]; intros f; cbn [runConfigs].
  - now apply onlyErrors_refl.
  - destruct (MatchString host _ script) as [[|]|e].
    + pose proof (runLinters_onlyErrors (linters c) f) as H.
      destruct (runLinters Quote host taskName script stepName (linters c) f) as [f'|f'].
      * eapply onlyErrors_trans; [exact H | apply IH].
      * exact H.
    + apply IH.
    + now apply onlyErrors_failWith.
Qed.

(** The machine on which the temporary files can be created, written and
    closed, and every process exits with status 0. *)
Hypothesis temp_created : forall w, exists tmpfile, CreateTemp host w = Ok tmpfile.
Hypothesis temp_written : forall w tmpfile data, WriteOk host w tmpfile data = true.
Hypothesis temp_closed : forall w tmpfile, CloseOk host w tmpfile = true.
Hypothesis linters_pass : forall w p argv, snd (CombinedOutput host w p argv) = true.

Lemma runLinter_quiet : forall l f,
  (exists p, LookPath host (cmd l) = Ok p) ->
  exists f', runLinter Quote host taskName script stepName l f = Continue f' /\
             result f' = result f.
Proof.
  intros l f [p Hp]. unfold runLinter. rewrite Hp.
  destruct (temp_created (world f)) as [tmpfile ->]. cbv zeta.
  rewrite temp_written, temp_closed. cbn [negb].
  match goal with
  | |- context [CombinedOutput host ?w ?e ?a] =>
      pose proof (linters_pass w e a) as Hok; destruct (CombinedOutput host w e a) as [out ok]
  end.
  cbn [snd] in Hok. subst ok. eexists. split; reflexivity.
Qed.

Lemma runLinters_quiet : forall ls f,
  (forall l, In l ls -> exists p, LookPath host (cmd l) = Ok p) ->
  exists f', runLinters Quote host taskName script stepName ls f = Continue f' /\
             result f' = result f.
Proof.
  induction ls as [|l ls IH]; intros f H; cbn [runLinters].
  - eauto.
  - destruct (runLinter_quiet l f (H l (or_introl eq_refl))) as (f1 & -> & E1).
    destruct (IH f1 (fun l' Hl' => H l' (or_intror Hl'))) as (f2 & -> & E2).
    exists f2. split; [reflexivity | congruence].
Qed.

Lemma runConfigs_quiet : forall table f,
  (forall c, In c table ->
             exists b, MatchString host ("^#!" ++ regexp_ c ++ "\n") script = Ok b) ->
  (forall c l, In c table -> In l (linters c) -> exists p, LookPath host (cmd l) = Ok p) ->
  exists f', runConfigs Quote host taskName script stepName table f = Continue f' /\
             result f' = result f.
Proof.
  induction table as [|c table IH]; intros f Hp Hl; cbn [runConfigs].
  - eauto.
  - assert (IH' : forall f0, exists f',
               runConfigs Quote host taskName script stepName table f0 = Continue f' /\
               result f' = result f0).
    { intros f0. apply IH.
      - intros c' Hc'. apply Hp. now right.
      - intros c' l Hc' Hl'. apply (Hl c' l); [now right | exact Hl']. }
    destruct (Hp c (or_introl eq_refl)) as [[|] ->].
    + destruct (runLinters_quiet (linters c) f (fun l Hl' => Hl c l (or_introl eq_refl) Hl'))
        as (f1 & -> & E1).
      destruct (IH' f1) as (f2 & -> & E2). exists f2. split; [reflexivity | congruence].
    + apply IH'.
Qed.

End Errors.

(** Apart from the Warning about the shebang, every finding of
    [validateScript] is an Error: a setup step that failed, or a linter
    that did not exit with status 0. *)
Theorem script_findings_are_errors :
  forall (Quote : string -> string) (host : linter.Host)
         (taskName script stepName : string) (table : list linter.config)
         (w w' : linter.World) (r : validator.Result),
    linter.validateScript Quote host taskName script table stepName w = Returned (r, w') ->
    exists errs,
      validator.Lints r = (scope.shebangWarning Quote taskName script ++ errs)%list /\
      Forall (fun x => validator.Severity_of x = validator.Error) errs.
Proof.
  intros Quote host taskName script stepName table w w' r H.
  assert (Hs : scope.sliceable script = true).
  { apply (validateScript_returns_iff Quote host taskName script table stepName w). eauto. }
  rewrite (validateScript_sliceable Quote host _ _ _ _ _ Hs) in H.
  injection H as H.
  match type of H with
  | linter.leave (linter.runConfigs _ _ _ ?s _ _ ?f) = _ =>
      destruct (runConfigs_onlyErrors Quote host taskName s stepName table f)
        as (errs & E & Herrs);
      exists errs; split; [|exact Herrs];
      destruct (linter.runConfigs Quote host taskName s stepName table f) as [f'|f'];
      cbn [linter.leave observe.frameOf linter.result validator.Lints] in *;
      injection H as <- _; exact E
  end.
Qed.

Lemma script_findings_are_errors_witness :
  exists errs,
    validator.Lints
      {| validator.Lints :=
           [validator.finding sample.Quote validator.Warning
              "step: %s is not using #!/usr/bin/env " [fmt.AStr "demo"];
            validator.finding sample.Quote validator.Error
              "Couldn't find the linter %s in the path" [fmt.AStr "pylint"]] |} =
      (scope.shebangWarning sample.Quote "demo" sample.shScript ++ errs)%list /\
    Forall (fun x => validator.Severity_of x = validator.Error) errs.
Proof.
  apply (script_findings_are_errors sample.Quote sample.host "demo" sample.shScript "build"
           [ {| linter.regexp_ := ".*"; linter.linters := [sample.missingLinter] |} ]
           sample.world0 sample.world0).
  vm_compute. reflexivity.
Defined.

(** When nothing fails on the machine (every pattern of the table
    compiles, every command of the table resolves, every temporary file can
    be created, written and closed, and every process exits with status 0),
    the result of [validateScript] on a script it can slice holds no Error:
    it is the Warning about the shebang, or empty. *)
Theorem passing_linters_give_no_error :
  forall (Quote : string -> string) (host : linter.Host)
         (taskName script stepName : string) (table : list linter.config)
         (w : linter.World),
    scope.sliceable script = true ->
    (forall c, In c table ->
               exists b, linter.MatchString host ("^#!" ++ linter.regexp_ c ++ "\n")
                           (scope.linted script) = Ok b) ->
    (forall c l, In c table -> In l (linter.linters c) ->
                 exists p, linter.LookPath host (linter.cmd l) = Ok p) ->
    (forall w0, exists tmpfile, linter.CreateTemp host w0 = Ok tmpfile) ->
    (forall w0 tmpfile data, linter.WriteOk host w0 tmpfile data = true) ->
    (forall w0 tmpfile, linter.CloseOk host w0 tmpfile = true) ->
    (forall w0 p argv, snd (linter.CombinedOutput host w0 p argv) = true) ->
    exists w',
      linter.validateScript Quote host taskName script table stepName w =
      Returned ({| validator.Lints := scope.shebangWarning Quote taskName script |}, w').
Proof.
  intros Quote host taskName script stepName table w Hs Hp Hl Hc Hw Hcl Hok.
  rewrite (validateScript_sliceable Quote host _ _ _ _ _ Hs).
  match goal with
  | |- context [linter.runConfigs _ _ _ ?s _ _ ?f] =>
      destruct (runConfigs_quiet Quote host taskName s stepName Hc Hw Hcl Hok table f Hp Hl)
        as (f' & -> & E)
  end.
  cbn [linter.leave]. rewrite E. cbn [linter.result]. eauto.
Qed.

Lemma passing_linters_give_no_error_witness :
  exists w',
    linter.validateScript sample.Quote sample.host "demo" sample.shScript
      trial.shOnly "build" sample.world0 =
    Returned ({| validator.Lints :=
                   scope.shebangWarning sample.Quote "demo" sample.shScript |}, w').
Proof.
  apply (passing_linters_give_no_error sample.Quote sample.host "demo" sample.shScript
           "build" trial.shOnly sample.world0).
  - reflexivity.
  - intros c [<-|[]]. eexists. vm_compute. reflexivity.
  - intros c l [<-|[]] [<-|[]]. eexists. vm_compute. reflexivity.
  - intros w0. eexists. reflexivity.
  - reflexivity.
  - reflexivity.
  - reflexivity.
Defined.

(** ** The script linter: the default table *)

Section Anchored.
Import regexp matching.

Lemma matches_anchored : forall r s,
  matches (Cat Begin r) s = true <-> exists s', consumes (String.length s) r s s'.
Proof.
  intros r s. unfold matches. split.
  - destruct (search _ _ _ _ _) as [a|] eqn:E; [|discriminate]. intros _.
    apply search_sound in E as (pre & u & s' & Es & Hc & _).
    apply consumes_Cat_inv in Hc as (s1 & Hb & Hr).
    inversion Hb; subst.
    match goal with H : String.length _ = String.length _ |- _ =>
      rewrite length_append in H; destruct pre; simpl in H; [|lia] end.
    exists s'. exact Hr.
  - intros [s' H].
    destruct (rmatch_complete unit (String.length s) (Cat Begin r) s s'
                (consumes_Cat _ _ _ _ _ _ (consumes_Begin _ s eq_refl) H)
                (fun _ => Some tt) tt eq_refl) as [a Ha].
    now rewrite (search_here unit _ _ _ (fun _ _ => Some tt) a Ha).
Qed.

Variable n0 : nat.

Lemma consumes_word : forall p s s',
  consumes n0 (word p) s s' <-> s = p ++ s'.
Proof.
  induction p as [|c p IH]; intros s s'.
  - cbn [word append]. split.
    + intros H. now inversion H.
    + intros ->. constructor.
  - destruct p as [|c' p].
    + cbn [word append]. split.
      * intros H. now inversion H.
      * intros ->. constructor.
    + change (word (String c (String c' p))) with (Cat (Lit c) (word (String c' p))).
      split.
      * intros H. apply consumes_Cat_inv in H as (s1 & H1 & H2).
        apply consumes_Lit_inv in H1. apply IH in H2. subst. reflexivity.
      * intros ->. apply consumes_Cat with (s1 := String c' p ++ s').
        -- constructor.
        -- now apply IH.
Qed.

Lemma oneLine_append : forall a b, oneLine (a ++ b) = oneLine a && oneLine b.
Proof.
  induction a as [|c a IH]; intros b; [reflexivity|].
  cbn [append oneLine]. now rewrite IH, andb_assoc.
Qed.

Lemma first_line_unique : forall a a' b b',
  oneLine a = true -> oneLine a' = true ->
  a ++ String nl b = a' ++ String nl b' -> a = a' /\ b = b'.
Proof.
  induction a as [|c a IH]; intros a' b b' Ha Ha' E; destruct a' as [|c' a'];
    cbn [append oneLine] in *.
  - injection E as ->. now split.
  - injection E as <- _. apply andb_true_iff in Ha' as [Hc _].
    now rewrite Ascii.eqb_refl in Hc.
  - injection E as -> _. apply andb_true_iff in Ha as [Hc _].
    now rewrite Ascii.eqb_refl in Hc.
  - injection E as -> E. apply andb_true_iff in Ha as [_ Ha].
    apply andb_true_iff in Ha' as [_ Ha'].
    destruct (IH a' b b' Ha Ha' E) as [-> ->]. now split.
Qed.

Lemma inside_oneLine : forall n s, inside n s -> oneLine (take n s) = true.
Proof.
  induction n as [|n IH]; intros s H; [reflexivity|].
  destruct s as [|c s]; cbn [inside] in H; [contradiction|].
  destruct H as [Hc H]. cbn [take oneLine]. rewrite (IH s H), andb_true_r.
  apply negb_true_iff. destruct (Ascii.eqb c nl) eqn:E; [|reflexivity].
  apply Ascii.eqb_eq in E. subst c. vm_compute in Hc. lia.
Qed.

Lemma drop_append : forall n a b,
  n <= String.length a -> drop n (a ++ b) = drop n a ++ b.
Proof.
  induction n as [|n IH]; intros a b H; [reflexivity|].
  destruct a as [|c a]; simpl in *; [lia|]. apply IH. lia.
Qed.

Lemma oneLine_drop : forall n s, oneLine s = true -> oneLine (drop n s) = true.
Proof.
  induction n as [|n IH]; intros s H; [exact H|].
  destruct s as [|c s]; [reflexivity|].
  cbn [oneLine] in H. apply andb_true_iff in H as [_ H]. now apply IH.
Qed.

Lemma length_drop : forall n s, String.length (drop n s) <= String.length s.
Proof.
  induction n as [|n IH]; intros s; [reflexivity|].
  destruct s as [|c s]; [reflexivity|]. cbn [drop String.length].
  specialize (IH s). lia.
Qed.

Lemma star_any_inv : forall s s',
  consumes n0 (Star AnyNotNL) s s' -> exists D, s = D ++ s' /\ oneLine D = true.
Proof.
  intros s s' H. remember (Star AnyNotNL) as r eqn:Er.
  induction H; try discriminate.
  - exists "". now split.
  - injection Er as ->.
    destruct (IHconsumes2 eq_refl) as (D2 & E2 & O2).
    match goal with H : consumes n0 AnyNotNL _ _ |- _ => inversion H; subst end.
    match goal with
    | H : drop (utf8.runeWidth (String ?a ?t)) (String ?a ?t) = D2 ++ s2 |- _ =>
        pose proof (runeWidth_inside a t) as Hin;
        pose proof (runeWidth_positive a t) as Hpos;
        destruct (utf8.runeWidth (String a t)) as [|w] eqn:Ew; [lia|];
        exists (String a (take w t) ++ D2); split;
        [ cbn [drop] in H; cbn [append]; rewrite append_assoc, <- H, take_drop; reflexivity
        | rewrite oneLine_append, O2, andb_true_r; cbn [oneLine];
          replace (S w - 1) with w in Hin by lia;
          rewrite (inside_oneLine w t Hin), andb_true_r;
          apply negb_true_iff, Ascii.eqb_neq; assumption ]
    end.
Qed.

Lemma star_any_intro : forall n D t,
  String.length D <= n -> oneLine D = true -> startsAscii t ->
  consumes n0 (Star AnyNotNL) (D ++ t) t.
Proof.
  induction n as [|n IH]; intros D t Hn HD Ht.
  - destruct D; simpl in Hn; [constructor | lia].
  - destruct D as [|a D]; [constructor|].
    cbn [oneLine] in HD. apply andb_true_iff in HD as [Ha HD].
    apply negb_true_iff, Ascii.eqb_neq in Ha.
    pose proof (consumes_Any n0 a (D ++ t) Ha) as HA.
    pose proof (runeWidth_inside a (D ++ t)) as Hin.
    pose proof (runeWidth_positive a (D ++ t)) as Hpos.
    destruct (utf8.runeWidth (String a (D ++ t))) as [|w] eqn:Ew; [lia|].
    replace (S w - 1) with w in Hin by lia.
    pose proof (inside_before w D t Ht Hin) as Hw.
    cbn [drop] in HA. rewrite (drop_append w D t Hw) in HA.
    cbn [append]. eapply consumes_Star_pass; [exact HA | |].
    + rewrite !length_append. cbn [String.length]. rewrite length_append.
      pose proof (length_drop w D). lia.
    + apply IH; [|now apply oneLine_drop | exact Ht].
      pose proof (length_drop w D). simpl in Hn. lia.
Qed.

Lemma consumes_Alt_inv : forall r1 r2 s s',
  consumes n0 (Alt r1 r2) s s' -> consumes n0 r1 s s' \/ consumes n0 r2 s s'.
Proof.
  intros r1 r2 s s' H. inversion H; subst; auto.
Qed.

Lemma consumes_binDir : forall s s',
  consumes n0 (Cat (Star AnyNotNL) (word "/bin/")) s s' <->
  exists pre, s = pre ++ s' /\ binDir pre.
Proof.
  intros s s'. split.
  - intros H. apply consumes_Cat_inv in H as (s1 & H1 & H2).
    apply star_any_inv in H1 as (D & -> & HD). apply consumes_word in H2. subst s1.
    exists (D ++ "/bin/"). split; [now rewrite append_assoc|]. now exists D.
  - intros (pre & -> & D & -> & HD). rewrite append_assoc.
    apply consumes_Cat with (s1 := "/bin/" ++ s').
    + apply (star_any_intro (String.length D)); [lia | exact HD|].
      vm_compute. lia.
    + now apply consumes_word.
Qed.

Lemma consumes_shellRule : forall i script s',
  consumes n0 (shellRule i) script s' <->
  exists pre, script = "#!" ++ pre ++ i ++ NL ++ s' /\ launcher pre.
Proof.
  intros i script s'. unfold shellRule. split.
  - intros H. apply consumes_lits_inv in H as (t & -> & H).
    apply consumes_Cat_inv in H as (s1 & H1 & H2).
    apply consumes_word in H2. subst s1. rewrite append_assoc in H1.
    apply consumes_Alt_inv in H1 as [H1|H1].
    + apply consumes_word in H1. subst t. exists "/usr/bin/env ". split; [reflexivity|].
      now left.
    + apply consumes_binDir in H1 as (pre & -> & Hpre). exists pre. split; [reflexivity|].
      now right.
  - intros (pre & -> & Hpre). apply consumes_lits.
    apply consumes_Cat with (s1 := (i ++ NL) ++ s').
    + rewrite append_assoc. destruct Hpre as [->|Hpre].
      * apply consumes_Alt_l. now apply consumes_word.
      * apply consumes_Alt_r. apply consumes_binDir. now exists pre.
    + now apply consumes_word.
Qed.

Lemma consumes_space_inv : forall s s',
  consumes n0 (Class false spaceRanges) s s' ->
  exists c, s = String c s' /\ utf8.byte c < 128 /\ inRanges c spaceRanges = true.
Proof.
  intros s s' H. inversion H; subst. exists a. now repeat split.
Qed.

Lemma consumes_pythonRule : forall script s',
  consumes n0 pythonRule script s' <->
  exists pre i, script = "#!" ++ pre ++ i ++ NL ++ s' /\ pythonLauncher pre /\
                In i ["python"; "python23"].
Proof.
  intros script s'. unfold pythonRule. split.
  - intros H. apply consumes_lits_inv in H as (t & -> & H).
    apply consumes_Cat_inv in H as (s1 & H1 & H2).
    apply consumes_lits_inv in H2 as (t2 & -> & H2).
    apply consumes_Cat_inv in H2 as (s3 & H2 & H3).
    apply consumes_Lit_inv in H3. subst s3.
    assert (Hi : exists i, In i ["python"; "python23"] /\
                           "python" ++ t2 = i ++ NL ++ s').
    { apply consumes_Alt_inv in H2 as [H2|H2].
      - apply consumes_word in H2. subst t2. exists "python23". split; simpl; auto.
      - inversion H2; subst. exists "python". split; simpl; auto. }
    destruct Hi as (i & Hi & Ei). rewrite Ei in H1.
    assert (Hpre : exists pre, t = pre ++ i ++ NL ++ s' /\ pythonLauncher pre).
    { apply consumes_Alt_inv in H1 as [H1|H1]; [|apply consumes_Alt_inv in H1 as [H1|H1]].
      - apply consumes_lits_inv in H1 as (t1 & -> & H1).
        apply consumes_space_inv in H1 as (c & -> & Hc & Hr).
        exists ("/usr/bin/env" ++ String c ""). split; [reflexivity|].
        left. now exists c.
      - apply consumes_binDir in H1 as (pre & -> & Hpre). exists pre. split; [reflexivity|].
        right. now left.
      - apply consumes_word in H1. subst t. exists "/usr/libexec/platform-".
        split; [reflexivity|]. right. now right. }
    destruct Hpre as (pre & -> & Hpre). exists pre, i. now repeat split.
  - intros (pre & i & -> & Hpre & Hi). apply consumes_lits.
    apply consumes_Cat with (s1 := i ++ NL ++ s').
    + destruct Hpre as [(c & -> & Hc & Hr)|[Hpre| ->]].
      * apply consumes_Alt_l.
        change (("/usr/bin/env" ++ String c "") ++ i ++ NL ++ s')
          with ("/usr/bin/env" ++ String c (i ++ NL ++ s')).
        apply consumes_lits. now apply consumes_Class_byte.
      * apply consumes_Alt_r, consumes_Alt_l. apply consumes_binDir. now exists pre.
      * apply consumes_Alt_r, consumes_Alt_r. now apply consumes_word.
    + destruct Hi as [<-|[<-|[]]].
      * apply (consumes_lits n0 "python"). apply consumes_Cat with (s1 := NL ++ s').
        -- apply consumes_Alt_r. constructor.
        -- constructor.
      * apply (consumes_lits n0 "python" _ ("23" ++ NL ++ s')).
        apply consumes_Cat with (s1 := NL ++ s').
        -- apply consumes_Alt_l. now apply consumes_word.
        -- constructor.
Qed.

End Anchored.

Section Selection.
Import regexp matching shebang.

Lemma HasSuffix_inv : forall s suf,
  strings.HasSuffix s suf = true -> exists a, s = a ++ suf.
Proof.
  intros s suf H. unfold strings.HasSuffix in H.
  apply andb_true_iff in H as [_ H]. apply String.eqb_eq in H.
  exists (take (String.length s - String.length suf) s).
  transitivity (take (String.length s - String.length suf) s ++
                drop (String.length s - String.length suf) s).
  - symmetry. apply take_drop.
  - now rewrite H.
Qed.

Lemma prefix_inv : forall p s, String.prefix p s = true -> exists t, s = p ++ t.
Proof.
  induction p as [|c p IH]; intros s H.
  - exists s. reflexivity.
  - destruct s as [|a s]; simpl in H; [discriminate|].
    destruct (ascii_dec c a) as [->|]; [|discriminate].
    destruct (IH s H) as [t ->]. now exists t.
Qed.

Lemma launcher_oneLine : forall pre, launcher pre -> oneLine pre = true.
Proof.
  intros pre [->|(D & -> & HD)]; [reflexivity|].
  now rewrite oneLine_append, HD.
Qed.

Lemma shebangFor_launcher : forall i line,
  oneLine line = true ->
  ((exists pre, line = pre ++ i /\ launcher pre) <-> shebangFor i line = true).
Proof.
  intros i line Hline. unfold shebangFor. split.
  - intros (pre & -> & [->|(D & -> & HD)]).
    + now rewrite String.eqb_refl.
    + rewrite append_assoc, HasSuffix_append. apply orb_true_r.
  - intros H. apply orb_true_iff in H as [H|H].
    + apply String.eqb_eq in H. exists "/usr/bin/env ". split; [exact H | now left].
    + apply HasSuffix_inv in H as [D ->]. exists (D ++ "/bin/"). split.
      * now rewrite append_assoc.
      * right. exists D. split; [reflexivity|].
        rewrite oneLine_append in Hline. now apply andb_true_iff in Hline as [HD _].
Qed.

Lemma shellRule_selects : forall i line rest,
  oneLine i = true -> oneLine line = true ->
  matches (Cat Begin (shellRule i)) ("#!" ++ line ++ NL ++ rest) = shebangFor i line.
Proof.
  intros i line rest Hi Hline. apply Bool.eq_true_iff_eq.
  rewrite matches_anchored, <- (shebangFor_launcher i line Hline). split.
  - intros (s' & H). apply consumes_shellRule in H as (pre & E & Hpre).
    exists pre. split; [|exact Hpre].
    injection E as E. rewrite <- (append_assoc pre i) in E.
    apply (first_line_unique line (pre ++ i) rest s'); [exact Hline | | exact E].
    now rewrite oneLine_append, (launcher_oneLine pre Hpre), Hi.
  - intros (pre & -> & Hpre). exists rest. apply consumes_shellRule.
    exists pre. split; [|exact Hpre]. now rewrite append_assoc.
Qed.

Lemma space_cases : forall c,
  inRanges c spaceRanges = true -> c = nl \/ In c inlineSpaces.
Proof.
  intros c H.
  destruct c as [[] [] [] [] [] [] [] []]; vm_compute in H; try discriminate;
    vm_compute; auto 10.
Qed.

Lemma inlineSpaces_space : forall c,
  In c inlineSpaces -> utf8.byte c < 128 /\ inRanges c spaceRanges = true /\ c <> nl.
Proof.
  intros c [<-|[<-|[<-|[<-|[]]]]]; (split; [vm_compute; lia | split; [reflexivity | discriminate]]).
Qed.

Lemma pythonNamed_launcher : forall i line rest,
  oneLine i = true -> oneLine line = true ->
  ((exists pre s', line ++ String nl rest = pre ++ i ++ String nl s' /\ pythonLauncher pre)
   <-> pythonNamed i line rest = true).
Proof.
  intros i line rest Hi Hline. unfold pythonNamed. split.
  - intros (pre & s' & E & [(c & -> & Hc & Hr)|[(D & -> & HD)| ->]]).
    + apply space_cases in Hr as [->|Hin].
      * change (("/usr/bin/env" ++ String nl "") ++ i ++ String nl s')
          with ("/usr/bin/env" ++ String nl (i ++ String nl s')) in E.
        apply first_line_unique in E as [-> ->]; [|exact Hline | reflexivity].
        rewrite String.eqb_refl.
        change (i ++ String nl s') with (i ++ NL ++ s').
        rewrite <- append_assoc, prefix_append. cbn [andb]. apply orb_true_r.
      * assert (El : line = "/usr/bin/env" ++ String c i).
        { change (("/usr/bin/env" ++ String c "") ++ i ++ String nl s')
            with (("/usr/bin/env" ++ String c i) ++ String nl s') in E.
          apply first_line_unique in E as [E _]; [exact E | exact Hline |].
          destruct (inlineSpaces_space c Hin) as (_ & _ & Hne).
          apply Ascii.eqb_neq in Hne.
          change (oneLine ("/usr/bin/env" ++ String c i))
            with (negb (Ascii.eqb c nl) && oneLine i).
          now rewrite Hne, Hi. }
        assert (Hx : existsb (fun c0 => String.eqb line ("/usr/bin/env" ++ String c0 i))
                       inlineSpaces = true).
        { apply existsb_exists. exists c. split; [exact Hin|].
          rewrite El. apply String.eqb_refl. }
        now rewrite Hx.
    + rewrite <- (append_assoc (D ++ "/bin/") i) in E.
      apply first_line_unique in E as [-> _]; [|exact Hline|].
      * rewrite (append_assoc D "/bin/" i), HasSuffix_append. cbn [orb].
        now rewrite orb_true_r.
      * now rewrite !oneLine_append, HD, Hi.
    + rewrite <- (append_assoc "/usr/libexec/platform-" i) in E.
      apply first_line_unique in E as [-> _]; [|exact Hline|].
      * rewrite String.eqb_refl. cbn [orb]. now rewrite orb_true_r.
      * now rewrite oneLine_append, Hi.
  - intros H. apply orb_true_iff in H as [H|H]; [apply orb_true_iff in H as [H|H];
      [apply orb_true_iff in H as [H|H]|]|].
    + apply existsb_exists in H as (c & Hin & E). apply String.eqb_eq in E.
      destruct (inlineSpaces_space c Hin) as (Hc & Hr & _).
      exists ("/usr/bin/env" ++ String c ""), rest. split.
      * rewrite E. reflexivity.
      * left. now exists c.
    + apply HasSuffix_inv in H as [D ->]. exists (D ++ "/bin/"), rest. split.
      * now rewrite !append_assoc.
      * right. left. exists D. split; [reflexivity|].
        rewrite oneLine_append in Hline. now apply andb_true_iff in Hline as [HD _].
    + apply String.eqb_eq in H. subst line.
      exists "/usr/libexec/platform-", rest. split.
      * now rewrite !append_assoc.
      * right. now right.
    + apply andb_true_iff in H as [H Hp]. apply String.eqb_eq in H. subst line.
      apply prefix_inv in Hp as [s' ->].
      exists ("/usr/bin/env" ++ String nl ""), s'. split.
      * rewrite append_assoc. reflexivity.
      * left. exists nl. split; [reflexivity|]. split; [vm_compute; lia | reflexivity].
Qed.

Lemma pythonRule_selects : forall line rest,
  oneLine line = true ->
  matches (Cat Begin pythonRule) ("#!" ++ line ++ NL ++ rest) = pythonFor line rest.
Proof.
  intros line rest Hline. apply Bool.eq_true_iff_eq.
  rewrite matches_anchored. unfold pythonFor. rewrite orb_true_iff.
  rewrite <- !(pythonNamed_launcher _ line rest) by (reflexivity || exact Hline). split.
  - intros (s' & H). apply consumes_pythonRule in H as (pre & i & E & Hpre & Hi).
    injection E as E.
    destruct Hi as [<-|[<-|[]]]; [left | right]; exists pre, s'; now split.
  - intros [(pre & s' & E & Hpre)|(pre & s' & E & Hpre)]; exists s';
      apply consumes_pythonRule.
    + exists pre, "python". split; [|split; [exact Hpre | simpl; auto]].
      change ("#!" ++ line ++ NL ++ rest) with ("#!" ++ (line ++ String nl rest)).
      now rewrite E.
    + exists pre, "python23". split; [|split; [exact Hpre | simpl; auto]].
      change ("#!" ++ line ++ NL ++ rest) with ("#!" ++ (line ++ String nl rest)).
      now rewrite E.
Qed.

Lemma MatchString_compiled : forall p r s,
  Compile p = Some r -> MatchString p s = Ok (matches r s).
Proof.
  intros p r s H. unfold MatchString. now rewrite H.
Qed.

Lemma default_table_matches : forall line rest,
  oneLine line = true ->
  map (fun c => MatchString ("^#!" ++ linter.regexp_ c ++ "\n") ("#!" ++ line ++ NL ++ rest))
      linter.NewConfig =
  [Ok (shebangFor "sh" line); Ok (shebangFor "bash" line); Ok (pythonFor line rest)].
Proof.
  intros line rest Hline. unfold linter.NewConfig. cbn [map linter.regexp_].
  f_equal; [|f_equal; [|f_equal]].
  - rewrite <- (shellRule_selects "sh" line rest eq_refl Hline).
    apply MatchString_compiled. vm_compute. reflexivity.
  - rewrite <- (shellRule_selects "bash" line rest eq_refl Hline).
    apply MatchString_compiled. vm_compute. reflexivity.
  - rewrite <- (pythonRule_selects line rest Hline).
    apply MatchString_compiled. vm_compute. reflexivity.
Qed.

End Selection.

(** Which rules of the default table match a script whose first line is
    [#!] followed by [line]: the rule for sh, and likewise the rule for
    bash, exactly when [line] is [/usr/bin/env], one space and the
    interpreter, or ends in [/bin/] and the interpreter; the rule for
    python exactly when the interpreter so introduced (after
    [/usr/bin/env] and one white space, after [/bin/], or after
    [/usr/libexec/platform-]) is [python] or [python23].  No pattern of
    the table fails to compile. *)
Theorem default_table_selection :
  forall (line rest : string),
    matching.oneLine line = true ->
    map (fun c => regexp.MatchString ("^#!" ++ linter.regexp_ c ++ "\n")
                    ("#!" ++ line ++ NL ++ rest))
        linter.NewConfig =
    [Ok (shebang.shebangFor "sh" line); Ok (shebang.shebangFor "bash" line);
     Ok (shebang.pythonFor line rest)].
Proof.
  exact default_table_matches.
Qed.

Lemma default_table_selection_witness :
  map (fun c => regexp.MatchString ("^#!" ++ linter.regexp_ c ++ "\n")
                  ("#!" ++ "/bin/bash" ++ NL ++ "set -e"))
      linter.NewConfig =
  [Ok (shebang.shebangFor "sh" "/bin/bash"); Ok (shebang.shebangFor "bash" "/bin/bash");
   Ok (shebang.pythonFor "/bin/bash" "set -e")].
Proof.
  apply (default_table_selection "/bin/bash" "set -e"). reflexivity.
Defined.

(** With the default table and the patterns read as package regexp reads
    them, a script whose first line selects no rule is not linted: no file
    is created and no process is started, and the result is the Warning
    about the shebang, or empty.  A first line [#!/usr/bin/env python3] is
    such a line. *)
Theorem unselected_script_is_not_linted :
  forall (Quote : string -> string) (host : linter.Host)
         (taskName line rest stepName : string) (w : linter.World),
    (forall p s, linter.MatchString host p s = regexp.MatchString p s) ->
    matching.oneLine line = true ->
    scope.sliceable ("#!" ++ line ++ NL ++ rest) = true ->
    shebang.shebangFor "sh" line = false ->
    shebang.shebangFor "bash" line = false ->
    shebang.pythonFor line rest = false ->
    linter.validateScript Quote host taskName ("#!" ++ line ++ NL ++ rest)
      linter.NewConfig stepName w =
    Returned ({| validator.Lints :=
                   scope.shebangWarning Quote taskName ("#!" ++ line ++ NL ++ rest) |}, w).
Proof.
  intros Quote host taskName line rest stepName w Hm Hline Hs Hsh Hbash Hpy.
  rewrite (validateScript_sliceable Quote host _ _ _ _ _ Hs).
  unfold scope.linted. rewrite prefix_append.
  pose proof (default_table_matches line rest Hline) as H.
  rewrite Hsh, Hbash, Hpy in H.
  unfold linter.NewConfig in *.
  pose proof (f_equal (fun l => nth 0 l (Ok false)) H) as H1.
  pose proof (f_equal (fun l => nth 1 l (Ok false)) H) as H2.
  pose proof (f_equal (fun l => nth 2 l (Ok false)) H) as H3.
  cbn [map nth linter.regexp_] in H1, H2, H3.
  cbn [linter.runConfigs linter.regexp_]. rewrite !Hm, H1, H2, H3.
  destruct w as [fs tr]. reflexivity.
Qed.

Lemma unselected_script_is_not_linted_witness :
  linter.validateScript sample.Quote sample.host "demo"
    ("#!" ++ "/usr/bin/env python3" ++ NL ++ "print(1)") linter.NewConfig "build"
    sample.world0 =
  Returned ({| validator.Lints :=
                 scope.shebangWarning sample.Quote "demo"
                   ("#!" ++ "/usr/bin/env python3" ++ NL ++ "print(1)") |}, sample.world0).
Proof.
  apply (unselected_script_is_not_linted sample.Quote sample.host "demo"
           "/usr/bin/env python3" "print(1)" "build" sample.world0); reflexivity.
Defined.

(** * Whole calls of [validateScript] *)

(** ** How the loops go through a table *)

Section WholeCall.
Import validator linter observe scope.
Variable Quote : string -> string.
Variable host : Host.
Variables taskName script stepName : string.




Lemma lintedBy_app_l : forall l a b,
  lintedBy host l script a -> lintedBy host l script (a ++ b).
Proof.
  intros l a b (pre & post & tmpfile & execpath & fs & Hp & -> & Hf).
  exists pre, (post ++ b)%list, tmpfile, execpath, fs.
  split; [exact Hp|]. split; [|exact Hf].
  now rewrite <- !List.app_assoc.
Qed.

Lemma lintedBy_app_r : forall l a b,
  lintedBy host l script b -> lintedBy host l script (a ++ b).
Proof.
  intros l a b (pre & post & tmpfile & execpath & fs & Hp & -> & Hf).
  exists (a ++ pre)%list, post, tmpfile, execpath, fs.
  split; [exact Hp|]. split; [|exact Hf].
  now rewrite <- !List.app_assoc.
Qed.

(** The machine on which the temporary files can be created, written and
    closed. *)
Hypothesis temp_created : forall w, exists tmpfile, CreateTemp host w = Ok tmpfile.
Hypothesis temp_written : forall w tmpfile data, WriteOk host w tmpfile data = true.
Hypothesis temp_closed : forall w tmpfile, CloseOk host w tmpfile = true.

Lemma runLinter_occurs : forall l f,
  (exists p, LookPath host (cmd l) = Ok p) ->
  exists f', runLinter Quote host taskName script stepName l f = Continue f' /\
             adds f (Continue f') (lintedBy host l script).
Proof.
  intros l f [p Hp]. unfold runLinter. rewrite Hp.
  destruct (temp_created (world f)) as [tmpfile ->]. cbv zeta.
  rewrite temp_written, temp_closed. cbn [negb].
  destruct (CombinedOutput host _ p _) as [out ok].
  eexists. split; [reflexivity|].
  eexists [EvCreate tmpfile; EvWrite tmpfile script; EvClose tmpfile; EvExec p _ _]. split.
  - simpl. now rewrite <- !List.app_assoc.
  - exists [], [], tmpfile, p. eexists. split; [exact Hp|]. split; [reflexivity|].
    apply readFile_writeFile.
Qed.

Lemma runLinters_occur : forall ls f,
  (forall l, In l ls -> exists p, LookPath host (cmd l) = Ok p) ->
  exists f', runLinters Quote host taskName script stepName ls f = Continue f' /\
             adds f (Continue f')
               (fun evs => forall l, In l ls -> lintedBy host l script evs).
Proof.
  induction ls as [|l ls IH]; intros f Hres; cbn [runLinters].
  - eexists. split; [reflexivity|]. apply adds_nothing; [reflexivity|]. intros l [].
  - destruct (runLinter_occurs l f (Hres l (or_introl eq_refl))) as (f1 & -> & H1).
    destruct (IH f1 (fun l' Hl' => Hres l' (or_intror Hl'))) as (f2 & -> & H2).
    eexists. split; [reflexivity|].
    eapply adds_trans; [exact H1 | exact H2 |].
    intros a b Ha Hb l' [<-|Hl'].
    + now apply lintedBy_app_l.
    + apply lintedBy_app_r. now apply Hb.
Qed.

Lemma runConfigs_occur : forall table f,
  (forall c, In c table ->
             exists b, MatchString host ("^#!" ++ regexp_ c ++ "\n") script = Ok b) ->
  (forall c l, In c table -> In l (linters c) -> exists p, LookPath host (cmd l) = Ok p) ->
  exists f', runConfigs Quote host taskName script stepName table f = Continue f' /\
             adds f (Continue f')
               (fun evs => forall c l,
                    In c table ->
                    MatchString host ("^#!" ++ regexp_ c ++ "\n") script = Ok true ->
                    In l (linters c) -> lintedBy host l script evs).
Proof.
  induction table as [|c table IH]; intros f Hpat Hres; cbn [runConfigs].
  - eexists. split; [reflexivity|]. apply adds_nothing; [reflexivity|]. intros c l [].
  - assert (Hpat' : forall c', In c' table ->
              exists b, MatchString host ("^#!" ++ regexp_ c' ++ "\n") script = Ok b)
      by (intros c' Hc'; apply Hpat; now right).
    assert (Hres' : forall c' l, In c' table -> In l (linters c') ->
              exists p, LookPath host (cmd l) = Ok p)
      by (intros c' l Hc' Hl; apply (Hres c' l); [now right | exact Hl]).
    destruct (Hpat c (or_introl eq_refl)) as [[|] Hc].
    + rewrite Hc.
      destruct (runLinters_occur (linters c) f (fun l Hl => Hres c l (or_introl eq_refl) Hl))
        as (f1 & -> & H1).
      destruct (IH f1 Hpat' Hres') as (f2 & -> & H2).
      eexists. split; [reflexivity|].
      eapply adds_trans; [exact H1 | exact H2 |].
      intros a b Ha Hb c' l [<-|Hc'] Hm Hl.
      * apply lintedBy_app_l. now apply Ha.
      * apply lintedBy_app_r. now apply (Hb c' l).
    + rewrite Hc. destruct (IH f Hpat' Hres') as (f2 & -> & evs & E & H2).
      eexists. split; [reflexivity|]. exists evs. split; [exact E|].
      intros c' l [<-|Hc'] Hm Hl.
      * rewrite Hc in Hm. discriminate.
      * now apply (H2 c' l).
Qed.

End WholeCall.

(** ** A failure that ends the script *)



(** ** What is written and what is run *)

(** C9: when a script of a step has no shebang, the text written to every
    temporary file, and the text of the file every linter is started on,
    is the line [#!/usr/bin/env sh] followed by the script as the caller
    gave it, and not the script alone.  And the linters are started on it:
    when every pattern of the table compiles, every command resolves and
    the temporary files can be created, written and closed, then for each
    linter of each rule that matches, a temporary file is created, that
    text is written to it, the file is closed, and the linter is started
    with the name of this file as its last argument. *)
Theorem synthesized_shebang_is_linted :
  forall (Quote : string -> string) (host : linter.Host)
         (taskName script stepName : string) (configs : list linter.config)
         (w : linter.World) (head2 : string),
    slice0 script 2 = Some head2 ->
    head2 <> "#!" ->
    exists r w' evs,
      linter.validateScript Quote host taskName script configs stepName w =
        Returned (r, w') /\
      linter.trace w' = (linter.trace w ++ evs)%list /\
      Forall (observe.lints ("#!/usr/bin/env sh" ++ NL ++ script)) evs /\
      "#!/usr/bin/env sh" ++ NL ++ script <> script /\
      ((forall c, In c configs ->
          exists b, linter.MatchString host ("^#!" ++ linter.regexp_ c ++ "\n")
                      ("#!/usr/bin/env sh" ++ NL ++ script) = Ok b) ->
       (forall c l, In c configs -> In l (linter.linters c) ->
          exists p, linter.LookPath host (linter.cmd l) = Ok p) ->
       (forall w0, exists tmpfile, linter.CreateTemp host w0 = Ok tmpfile) ->
       (forall w0 tmpfile data, linter.WriteOk host w0 tmpfile data = true) ->
       (forall w0 tmpfile, linter.CloseOk host w0 tmpfile = true) ->
       forall c l,
         In c configs ->
         linter.MatchString host ("^#!" ++ linter.regexp_ c ++ "\n")
           ("#!/usr/bin/env sh" ++ NL ++ script) = Ok true ->
         In l (linter.linters c) ->
         scope.lintedBy host l ("#!/usr/bin/env sh" ++ NL ++ script) evs).
Proof.
  intros Quote host taskName script stepName configs w head2 Hslice Hhead.
  assert (Hne : "#!/usr/bin/env sh" ++ NL ++ script <> script).
  { intros E. apply (f_equal String.length) in E. simpl in E. lia. }
  unfold linter.validateScript, linter.normalizeShebang. rewrite Hslice.
  apply String.eqb_neq in Hhead. rewrite Hhead. cbn [negb].
  set (f0 := {| linter.result := validator.emptyResult; linter.world := w;
                linter.deferred := [] |}).
  set (fl := linter.runConfigs Quote host taskName ("#!/usr/bin/env sh" ++ NL ++ script)
               stepName configs f0).
  destruct (leave_lints ("#!/usr/bin/env sh" ++ NL ++ script) f0 fl) as (evs & E & H).
  { apply runConfigs_lints. }
  exists (fst (linter.leave fl)), (snd (linter.leave fl)), evs.
  split; [now destruct (linter.leave fl)|].
  split; [exact E|]. split; [exact H|]. split; [exact Hne|].
  intros Hpat Hres Hc Hw Hcl c l Hin Hm Hl.
  destruct (runConfigs_occur Quote host taskName ("#!/usr/bin/env sh" ++ NL ++ script)
              stepName Hc Hw Hcl configs f0 Hpat Hres) as (f' & Hrun & evs2 & E2 & Hocc).
  subst fl. rewrite Hrun in E. cbn [linter.leave snd] in E.
  rewrite runDeferred_trace in E. cbn [observe.frameOf] in E2. rewrite E2 in E.
  rewrite <- List.app_assoc in E. apply app_inv_head in E. subst evs.
  apply lintedBy_app_l. now apply (Hocc c l).
Qed.

Lemma synthesized_shebang_is_linted_witness :
  exists r w' evs,
    linter.validateScript sample.Quote sample.host "demo" sample.plainScript
      [sample.shRule] "build" sample.world0 = Returned (r, w') /\
    linter.trace w' = (linter.trace sample.world0 ++ evs)%list /\
    Forall (observe.lints ("#!/usr/bin/env sh" ++ NL ++ sample.plainScript)) evs /\
    "#!/usr/bin/env sh" ++ NL ++ sample.plainScript <> sample.plainScript /\
    scope.lintedBy sample.host {| linter.cmd := "shellcheck"; linter.args := ["-s"; "sh"] |}
      ("#!/usr/bin/env sh" ++ NL ++ sample.plainScript) evs /\
    scope.lintedBy sample.host {| linter.cmd := "sh"; linter.args := ["-n"] |}
      ("#!/usr/bin/env sh" ++ NL ++ sample.plainScript) evs.
Proof.
  assert (Hhead : "ec" <> "#!") by discriminate.
  destruct (synthesized_shebang_is_linted sample.Quote sample.host "demo" sample.plainScript
              "build" [sample.shRule] sample.world0 "ec" eq_refl Hhead)
    as (r & w' & evs & Hv & Ht & Hl & Hne & Hocc).
  assert (Hall : forall l, In l (linter.linters sample.shRule) ->
             scope.lintedBy sample.host l
               ("#!/usr/bin/env sh" ++ NL ++ sample.plainScript) evs).
  { intros l Hin. apply (Hocc) with (c := sample.shRule).
    - intros c [<-|[]]. eexists. vm_compute. reflexivity.
    - intros c l0 [<-|[]] [<-|[<-|[]]]; eexists; vm_compute; reflexivity.
    - intros w0. eexists. reflexivity.
    - reflexivity.
    - reflexivity.
    - now left.
    - vm_compute. reflexivity.
    - exact Hin. }
  exists r, w', evs.
  split; [exact Hv|]. split; [exact Ht|]. split; [exact Hl|]. split; [exact Hne|]. split.
  - apply Hall. now left.
  - apply Hall. right. now left.
Defined.

(** ** Which linters a whole call runs *)

(** C7, as the code has it, on a script [validateScript] can slice (two
    bytes, and fourteen when it starts with a shebang): when every pattern
    of the table compiles, every linter command resolves and every
    temporary file can be created, written and closed, the call starts the
    linters of every rule whose pattern matches the first line of the
    script (possibly the synthesized one), and no other process: the rules
    in the order of the table, the linters of a rule in their listed
    order.  With two matching rules the linters of both are run. *)
Theorem matching_rules_all_run :
  forall (Quote : string -> string) (host : linter.Host)
         (taskName script stepName : string) (configs : list linter.config),
    scope.sliceable script = true ->
    (forall c, In c configs ->
       exists b, linter.MatchString host ("^#!" ++ linter.regexp_ c ++ "\n")
                   (scope.linted script) = Ok b) ->
    (forall c l, In c configs -> In l (linter.linters c) ->
       exists p, linter.LookPath host (linter.cmd l) = Ok p) ->
    (forall w, exists tmpfile, linter.CreateTemp host w = Ok tmpfile) ->
    (forall w tmpfile data, linter.WriteOk host w tmpfile data = true) ->
    (forall w tmpfile, linter.CloseOk host w tmpfile = true) ->
    forall w,
    exists r w' evs,
      linter.validateScript Quote host taskName script configs stepName w =
        Returned (r, w') /\
      linter.trace w' = (linter.trace w ++ evs)%list /\
      Forall2 (observe.invokes host) (observe.selected host (scope.linted script) configs)
        (observe.invocations evs).
Proof.
  intros Quote host taskName script stepName configs Hs Hpat Hres Hc Hw Hcl w.
  rewrite (validateScript_sliceable Quote host _ _ _ _ _ Hs).
  match goal with
  | |- context [linter.runConfigs _ _ _ _ _ _ ?f0] =>
      destruct (runConfigs_run Quote host taskName (scope.linted script) stepName
                  Hc Hw Hcl configs f0 Hpat Hres) as (f' & -> & evs & E & H)
  end.
  cbn [linter.leave].
  exists (linter.result f'), (linter.runDeferred (linter.deferred f') (linter.world f')),
         (evs ++ map linter.EvRemove (linter.deferred f'))%list.
  split; [reflexivity|]. split.
  - rewrite runDeferred_trace. simpl in E. rewrite E. now rewrite List.app_assoc.
  - rewrite invocations_app, invocations_removals, List.app_nil_r. exact H.
Qed.

Lemma matching_rules_all_run_witness :
  exists r w' evs,
    linter.validateScript sample.Quote sample.host "demo" sample.shScript
      [sample.shRule; sample.anyRule] "build" sample.world0 = Returned (r, w') /\
    linter.trace w' = (linter.trace sample.world0 ++ evs)%list /\
    Forall2 (observe.invokes sample.host)
      (observe.selected sample.host (scope.linted sample.shScript)
         [sample.shRule; sample.anyRule])
      (observe.invocations evs).
Proof.
  apply (matching_rules_all_run sample.Quote sample.host "demo" sample.shScript "build"
           [sample.shRule; sample.anyRule]).
  - reflexivity.
  - intros c [<-|[<-|[]]]; eexists; vm_compute; reflexivity.
  - intros c l [<-|[<-|[]]] Hl; simpl in Hl;
      repeat (destruct Hl as [<-|Hl]; [eexists; vm_compute; reflexivity|]);
      destruct Hl.
  - intros w. eexists. reflexivity.
  - reflexivity.
  - reflexivity.
Defined.
